(** * gs_quant.base: the typed object / dictionary binding layer

    A shallow embedding of [gs_quant/base.py] (gs_quant 0.8.70): the naming
    helper [_normalise_arg], [BaseMeta.__call__], [Base] (hashing,
    equality, attribute access and assignment, [clone], [as_dict],
    [prop_type], [from_dict], [default_instance]), [Instrument.from_dict]
    with its discriminant registry, [EnumBase._missing_] and
    [get_enum_value]; and of the functions of [gs_quant/api/gs/data.py]
    that call it or compute on strings, dictionaries and column labels.

    How the program is modelled:
    - a Python value is a term of [value]; a float is the rational it
      denotes (the layer does no arithmetic on it), a string is ASCII;
    - an exception is the [Raise] of an [outcome]; the warnings of
      [_logger.warning] are a log threaded through the computations [M];
    - a dictionary is an association list in insertion order with string
      keys; a function that pops from its argument returns the dictionary
      as it leaves it;
    - an object is its class name, the backing fields of its properties
      and its cached hash; objects held in fields are values, and an
      assignment that reaches one through its owner is [setattr_at];
      [clone] runs on a heap of objects, to observe that the original is
      not touched;
    - the generated domain classes and enums are data ([class_decl],
      [enum_decl]): their properties with the return annotations, and the
      signature of [__init__];
    - the interpreter and the libraries are parameters: the hash functions
      ([hasher]), the date and time functions ([library]); [inflection]
      and the [re] patterns are written out, [Enum] lookup is that of
      CPython 3.7 and later;
    - [Priceable.__getattribute__] resolves unset fields through a pricing
      session when one is open; none is, in this model. *)

From Stdlib Require Import String Ascii List ZArith QArith Bool Arith Lia Permutation.
Import ListNotations.
Close Scope Q_scope.
Local Open Scope string_scope.
Local Open Scope list_scope.

(** ** Characters and strings, as [str] methods see them *)

Module Str.

Definition is_upper (c : ascii) : bool :=
  let n := nat_of_ascii c in (65 <=? n)%nat && (n <=? 90)%nat.

Definition is_lower (c : ascii) : bool :=
  let n := nat_of_ascii c in (97 <=? n)%nat && (n <=? 122)%nat.

Definition is_digit (c : ascii) : bool :=
  let n := nat_of_ascii c in (48 <=? n)%nat && (n <=? 57)%nat.

Definition to_lower (c : ascii) : ascii :=
  if is_upper c then ascii_of_nat (nat_of_ascii c + 32) else c.

Definition to_upper (c : ascii) : ascii :=
  if is_lower c then ascii_of_nat (nat_of_ascii c - 32) else c.

Fixpoint map (f : ascii -> ascii) (s : string) : string :=
  match s with
  | EmptyString => EmptyString
  | String c r => String (f c) (map f r)
  end.

Fixpoint existsb (f : ascii -> bool) (s : string) : bool :=
  match s with
  | EmptyString => false
  | String c r => f c || existsb f r
  end.

Fixpoint forallb (f : ascii -> bool) (s : string) : bool :=
  match s with
  | EmptyString => true
  | String c r => f c && forallb f r
  end.

(** [str.lower()] *)
Definition lower (s : string) : string := map to_lower s.

(** [str.isupper()]: at least one cased character and no lowercase one. *)
Definition isupper (s : string) : bool :=
  existsb is_upper s && negb (existsb is_lower s).

(** [s.endswith('_')] *)
Fixpoint ends_with_underscore (s : string) : bool :=
  match s with
  | EmptyString => false
  | String c EmptyString => Ascii.eqb c "_"
  | String _ r => ends_with_underscore r
  end.

(** [s[:-1]] *)
Fixpoint drop_last (s : string) : string :=
  match s with
  | EmptyString => EmptyString
  | String _ EmptyString => EmptyString
  | String c r => String c (drop_last r)
  end.

(** [s[1:]] *)
Definition tail (s : string) : string :=
  match s with
  | EmptyString => EmptyString
  | String _ r => r
  end.

(** [s[:n]] *)
Fixpoint take (n : nat) (s : string) : string :=
  match n, s with
  | O, _ => EmptyString
  | _, EmptyString => EmptyString
  | S k, String c r => String c (take k r)
  end.

(** The longest prefix of decimal digits, and what follows it. *)
Fixpoint span_digits (s : string) : string * string :=
  match s with
  | String c r =>
      if is_digit c
      then let '(ds, rest) := span_digits r in (String c ds, rest)
      else (EmptyString, s)
  | EmptyString => (EmptyString, EmptyString)
  end.

End Str.

(** ** The [inflection] package: [underscore] and [camelize]

    [underscore(word)] is
    [re.sub(r"([A-Z]+)([A-Z][a-z])", r'\1_\2', word)], then
    [re.sub(r"([a-z\d])([A-Z])", r'\1_\2', word)], then
    [word.replace("-", "_").lower()].  The first substitution puts an
    underscore before a capital that follows a capital and precedes a
    lowercase letter; the second between a lowercase letter or digit and a
    capital. *)

Module Inflection.

Fixpoint acronym_pass (prev : option ascii) (s : string) : string :=
  match s with
  | EmptyString => EmptyString
  | String c r =>
      let sep :=
        match prev, r with
        | Some p, String n _ => Str.is_upper p && Str.is_upper c && Str.is_lower n
        | _, _ => false
        end in
      let out := String c (acronym_pass (Some c) r) in
      if sep then String "_" out else out
  end.

Fixpoint word_pass (prev : option ascii) (s : string) : string :=
  match s with
  | EmptyString => EmptyString
  | String c r =>
      let sep :=
        match prev with
        | Some p => (Str.is_lower p || Str.is_digit p) && Str.is_upper c
        | None => false
        end in
      let out := String c (word_pass (Some c) r) in
      if sep then String "_" out else out
  end.

Definition dash_to_underscore (c : ascii) : ascii :=
  if Ascii.eqb c "-" then "_"%char else c.

Definition underscore (word : string) : string :=
  Str.lower (Str.map dash_to_underscore (word_pass None (acronym_pass None word))).

Definition is_newline (c : ascii) : bool := Ascii.eqb c "010".

(** [re.sub(r"(?:^|_)(.)", lambda m: m.group(1).upper(), string)] past the
    first position: an underscore and the character after it become that
    character in upper case. *)
Fixpoint camelize_rest (s : string) : string :=
  match s with
  | EmptyString => EmptyString
  | String c r =>
      match r with
      | String n r' =>
          if Ascii.eqb c "_" && negb (is_newline n)
          then String (Str.to_upper n) (camelize_rest r')
          else String c (camelize_rest r)
      | EmptyString => String c EmptyString
      end
  end.

(** [camelize(string)], the first letter in upper case. *)
Definition camelize_upper (s : string) : string :=
  match s with
  | EmptyString => EmptyString
  | String c r =>
      if is_newline c then camelize_rest s
      else String (Str.to_upper c) (camelize_rest r)
  end.

(** [camelize(string, uppercase_first_letter=False)], that is
    [string[0].lower() + camelize(string)[1:]]; [None] stands for the
    [IndexError] of [string[0]] on the empty string. *)
Definition camelize (s : string) : option string :=
  match s with
  | EmptyString => None
  | String c _ => Some (String (Str.to_lower c) (Str.tail (camelize_upper s)))
  end.

End Inflection.

(** ** Reserved names: [keyword.iskeyword] and [dir(builtins)] (CPython 3.7) *)

Definition kwlist : list string :=
  [ "False"; "None"; "True"; "and"; "as"; "assert"; "async"; "await"; "break";
    "class"; "continue"; "def"; "del"; "elif"; "else"; "except"; "finally";
    "for"; "from"; "global"; "if"; "import"; "in"; "is"; "lambda"; "nonlocal";
    "not"; "or"; "pass"; "raise"; "return"; "try"; "while"; "with"; "yield" ].

Definition builtin_names : list string :=
  [ "ArithmeticError"; "AssertionError"; "AttributeError"; "BaseException";
    "BlockingIOError"; "BrokenPipeError"; "BufferError"; "BytesWarning";
    "ChildProcessError"; "ConnectionAbortedError"; "ConnectionError";
    "ConnectionRefusedError"; "ConnectionResetError"; "DeprecationWarning";
    "EOFError"; "Ellipsis"; "EnvironmentError"; "Exception"; "False";
    "FileExistsError"; "FileNotFoundError"; "FloatingPointError";
    "FutureWarning"; "GeneratorExit"; "IOError"; "ImportError";
    "ImportWarning"; "IndentationError"; "IndexError"; "InterruptedError";
    "IsADirectoryError"; "KeyError"; "KeyboardInterrupt"; "LookupError";
    "MemoryError"; "ModuleNotFoundError"; "NameError"; "None";
    "NotADirectoryError"; "NotImplemented"; "NotImplementedError"; "OSError";
    "OverflowError"; "PendingDeprecationWarning"; "PermissionError";
    "ProcessLookupError"; "RecursionError"; "ReferenceError";
    "ResourceWarning"; "RuntimeError"; "RuntimeWarning";
    "StopAsyncIteration"; "StopIteration"; "SyntaxError"; "SyntaxWarning";
    "SystemError"; "SystemExit"; "TabError"; "TimeoutError"; "True";
    "TypeError"; "UnboundLocalError"; "UnicodeDecodeError";
    "UnicodeEncodeError"; "UnicodeError"; "UnicodeTranslateError";
    "UnicodeWarning"; "UserWarning"; "ValueError"; "Warning";
    "ZeroDivisionError"; "__build_class__"; "__debug__"; "__doc__";
    "__import__"; "__loader__"; "__name__"; "__package__"; "__spec__"; "abs";
    "all"; "any"; "ascii"; "bin"; "bool"; "breakpoint"; "bytearray"; "bytes";
    "callable"; "chr"; "classmethod"; "compile"; "complex"; "copyright";
    "credits"; "delattr"; "dict"; "dir"; "divmod"; "enumerate"; "eval";
    "exec"; "exit"; "filter"; "float"; "format"; "frozenset"; "getattr";
    "globals"; "hasattr"; "hash"; "help"; "hex"; "id"; "input"; "int";
    "isinstance"; "issubclass"; "iter"; "len"; "license"; "list"; "locals";
    "map"; "max"; "memoryview"; "min"; "next"; "object"; "oct"; "open";
    "ord"; "pow"; "print"; "property"; "quit"; "range"; "repr"; "reversed";
    "round"; "set"; "setattr"; "slice"; "sorted"; "staticmethod"; "str";
    "sum"; "super"; "tuple"; "type"; "vars"; "zip" ].

Definition mem (s : string) (l : list string) : bool :=
  List.existsb (String.eqb s) l.

Definition iskeyword (s : string) : bool := mem s kwlist.

(** [_normalise_arg] *)
Definition _normalise_arg (arg : string) : string :=
  if iskeyword arg || mem arg builtin_names then arg ++ "_" else arg.

(** ** Python values *)

(** A date-time: microseconds since the epoch (of the wall clock when
    naive, of the instant when aware) and the UTC offset of an aware one. *)
Record datetime := mk_datetime { dt_us : Z; dt_tz : option Z }.

Unset Elimination Schemes.

Inductive value : Type :=
| VNone
| VBool (b : bool)
| VInt (n : Z)
| VFloat (q : Q)
| VStr (s : string)
| VDatetime (d : datetime)
| VDate (day : Z)
| VEnum (enum member : string)
| VList (items : list value)
| VTuple (items : list value)
| VDict (entries : list (string * value))
| VObj (cls : string) (fields : list (string * value)) (calced_hash : option Z).

Set Elimination Schemes.

(** Induction on values, with the hypothesis for every value held in a
    list, a tuple, a dictionary or the fields of an object. *)
Section ValueInduction.

Variable P : value -> Prop.
Hypothesis P_none : P VNone.
Hypothesis P_bool : forall b, P (VBool b).
Hypothesis P_int : forall n, P (VInt n).
Hypothesis P_float : forall q, P (VFloat q).
Hypothesis P_str : forall s, P (VStr s).
Hypothesis P_datetime : forall d, P (VDatetime d).
Hypothesis P_date : forall d, P (VDate d).
Hypothesis P_enum : forall e m, P (VEnum e m).
Hypothesis P_list : forall xs, Forall P xs -> P (VList xs).
Hypothesis P_tuple : forall xs, Forall P xs -> P (VTuple xs).
Hypothesis P_dict : forall d, Forall (fun kv => P (snd kv)) d -> P (VDict d).
Hypothesis P_obj : forall c f h, Forall (fun kv => P (snd kv)) f -> P (VObj c f h).

Fixpoint value_nested_ind (v : value) : P v :=
  let items :=
    fix items (xs : list value) : Forall P xs :=
      match xs with
      | [] => Forall_nil P
      | x :: r => Forall_cons x (value_nested_ind x) (items r)
      end in
  let entries :=
    fix entries (d : list (string * value)) : Forall (fun kv => P (snd kv)) d :=
      match d with
      | [] => Forall_nil _
      | kv :: r => Forall_cons kv (value_nested_ind (snd kv)) (entries r)
      end in
  match v with
  | VNone => P_none
  | VBool b => P_bool b
  | VInt n => P_int n
  | VFloat q => P_float q
  | VStr s => P_str s
  | VDatetime d => P_datetime d
  | VDate d => P_date d
  | VEnum e m => P_enum e m
  | VList xs => P_list xs (items xs)
  | VTuple xs => P_tuple xs (items xs)
  | VDict d => P_dict d (entries d)
  | VObj c f h => P_obj c f h (entries f)
  end.

End ValueInduction.

(** A dictionary with string keys, in insertion order, keys distinct. *)
Definition dict := list (string * value).

Inductive exn : Type :=
| KeyError (key : string)
| ValueError (msg : string)
| TypeError
| AttributeError
| IndexError
| RecursionError.

Inductive outcome (A : Type) : Type :=
| Ok (a : A)
| Raise (e : exn).
Arguments Ok {A} a.
Arguments Raise {A} e.

(** [_logger.warning('Setting value to {}, which is not a valid entry in
    {}'.format(value, enum_type))]: an entry keeps the two arguments. *)
Definition warning := (value * string)%type.

(** Computations that may raise and may log. *)
Definition M (A : Type) : Type := list warning -> outcome A * list warning.

Definition ret {A} (a : A) : M A := fun w => (Ok a, w).
Definition raise {A} (e : exn) : M A := fun w => (Raise e, w).
Definition bind {A B} (c : M A) (k : A -> M B) : M B :=
  fun w => match c w with
           | (Ok a, w') => k a w'
           | (Raise e, w') => (Raise e, w')
           end.
Definition lift {A} (o : outcome A) : M A := fun w => (o, w).
Definition warn (v : value) (enum : string) : M unit :=
  fun w => (Ok tt, w ++ [(v, enum)]).

Declare Scope py_scope.
Delimit Scope py_scope with py.
Notation "x <- c ;; k" := (bind c (fun x => k))
  (at level 61, c at next level, right associativity) : py_scope.
Notation "' p <- c ;; k" := (bind c (fun x => let 'p := x in k))
  (at level 61, p pattern, c at next level, right associativity) : py_scope.
Local Open Scope py_scope.

Definition obind {A B} (o : outcome A) (k : A -> outcome B) : outcome B :=
  match o with Ok a => k a | Raise e => Raise e end.

Fixpoint mapM {A B} (f : A -> M B) (l : list A) : M (list B) :=
  match l with
  | [] => ret []
  | a :: r => b <- f a ;; bs <- mapM f r ;; ret (b :: bs)
  end.

(** ** Dictionary operations *)

Fixpoint assoc {A} (k : string) (l : list (string * A)) : option A :=
  match l with
  | [] => None
  | (k', v) :: r => if String.eqb k k' then Some v else assoc k r
  end.

Fixpoint remove_key {A} (k : string) (l : list (string * A)) : list (string * A) :=
  match l with
  | [] => []
  | (k', v) :: r => if String.eqb k k' then r else (k', v) :: remove_key k r
  end.

(** [d[k] = v]: a present key keeps its position. *)
Fixpoint dict_set {A} (k : string) (v : A) (l : list (string * A)) : list (string * A) :=
  match l with
  | [] => [(k, v)]
  | (k', v') :: r =>
      if String.eqb k k' then (k, v) :: r else (k', v') :: dict_set k v r
  end.

(** [dict(pairs)] *)
Definition dict_of_pairs {A} (pairs : list (string * A)) : list (string * A) :=
  fold_left (fun d kv => dict_set (fst kv) (snd kv) d) pairs [].

(** [d.get(k, default)] *)
Definition dict_get (k : string) (d : dict) (default : value) : value :=
  match assoc k d with Some v => v | None => default end.

(** [d.pop(k, None)]: the value and the dictionary afterwards. *)
Definition dict_pop_default (k : string) (d : dict) : value * dict :=
  (dict_get k d VNone, remove_key k d).

(** [d.pop(k)] *)
Definition dict_pop (k : string) (d : dict) : outcome (value * dict) :=
  match assoc k d with
  | Some v => Ok (v, remove_key k d)
  | None => Raise (KeyError k)
  end.

Definition keys {A} (l : list (string * A)) : list string := List.map fst l.

(** The dictionary after [d.pop(k, None)] for each [k] in turn. *)
Fixpoint remove_keys {A} (ks : list string) (l : list (string * A)) : list (string * A) :=
  match ks with
  | [] => l
  | k :: r => remove_keys r (remove_key k l)
  end.

(** ** Declarations of the generated domain types

    The domain classes and enums ([gs_quant.target]) are generated code;
    what the binding layer reads of them by reflection is given here as
    data. *)

(** An enum: its members, name and value, in definition order. *)
Record enum_decl := mk_enum {
  en_name : string;
  en_members : list (string * value)
}.

Inductive pyclass : Type :=
| CDatetime                 (* dt.datetime *)
| CDate                     (* dt.date *)
| CEnum (ed : enum_decl)    (* an Enum deriving from EnumBase *)
| CBase (name : string)     (* a class deriving from Base *)
| CList
| CTuple
| CPlain (name : string).   (* any other class: float, str, int, dict ... *)

(** The return annotation of a property getter, as [get_type_hints] gives it. *)
Unset Elimination Schemes.

Inductive hint : Type :=
| HAbsent                                         (* no annotation *)
| HClass (c : pyclass)                            (* a class *)
| HGeneric (origin : pyclass) (args : list hint)  (* Tuple[X, ...], List[X] *)
| HUnion (args : list hint).                      (* Union[...], Optional[X] *)

Set Elimination Schemes.

(** A parameter of [__init__]; [p_default = None] is [Parameter.empty]. *)
Record param := mk_param { p_name : string; p_default : option value }.

Record class_decl := mk_class {
  cd_name : string;
  cd_instrument : bool;                 (* derives from Instrument *)
  cd_init : list param;                 (* signature(cls.__init__).parameters, self first *)
  cd_props : list (string * hint)       (* the public properties, in the iteration
                                           order of the set properties() caches *)
}.

(** A concrete instrument class of [gs_quant.target.instrument] with the
    [asset_class] and [type] its default instance reports. *)
Record instrument_decl := mk_instrument {
  in_class : string;
  in_asset_class : value;
  in_type : value
}.

(** What the binding layer knows of the rest of the program. *)
Record env := mk_env {
  env_classes : list class_decl;
  (* the enums AssetClass and AssetType of gs_quant.target.instrument *)
  env_AssetClass : enum_decl;
  env_AssetType : enum_decl;
  (* the Instrument subclasses of gs_quant.target.instrument, in the order
     inspect.getmembers lists them *)
  env_instruments : list instrument_decl;
  (* gs_quant.instrument.Security.from_dict, which is not part of base.py *)
  env_security_from_dict : value -> M (value * value)
}.

Definition find_class (E : env) (name : string) : option class_decl :=
  List.find (fun cd => String.eqb (cd_name cd) name) (env_classes E).

(** [cls.properties()]: the set is computed from the class on first use
    and cached; it is taken to be that of the class itself. *)
Definition properties_of (cd : class_decl) : list string := keys (cd_props cd).

Definition properties (E : env) (cls : string) : list string :=
  match find_class E cls with
  | Some cd => properties_of cd
  | None => []
  end.

(** Modelled from the spec: the generated getter of a property, which is
    not part of base.py.  [super().__getattribute__(prop)] returns the
    backing field, which [__init__] has set ([None] by default). *)
Definition getattr (fields : list (string * value)) (prop : string) : value :=
  match assoc prop fields with Some v => v | None => VNone end.

(** ** Equality and hashing of values *)

(** The hash functions of the interpreter, per process. *)
Record hasher := mk_hasher {
  hash_none : Z;
  hash_num : Q -> Z;               (* of a number, given in lowest terms *)
  hash_str : string -> Z;
  hash_seq : list Z -> Z;          (* of a tuple, from its items' hashes *)
  hash_datetime : bool -> Z -> Z;  (* aware or naive, microseconds *)
  hash_date : Z -> Z
}.

Definition num_of (v : value) : option Q :=
  match v with
  | VBool b => Some (if b then 1 else 0)%Q
  | VInt n => Some (inject_Z n)
  | VFloat q => Some q
  | _ => None
  end.

Definition is_some {A} (o : option A) : bool :=
  match o with Some _ => true | None => false end.

Definition datetime_eqb (d e : datetime) : bool :=
  Z.eqb (dt_us d) (dt_us e) && Bool.eqb (is_some (dt_tz d)) (is_some (dt_tz e)).

(** [self.__calced_hash is None or other.__calced_hash is None or
    self.__calced_hash == other.__calced_hash] *)
Definition hash_compatible (h h' : option Z) : bool :=
  match h, h' with
  | Some x, Some y => Z.eqb x y
  | _, _ => true
  end.

Definition list_eqb {A} (eqA : A -> A -> bool) : list A -> list A -> bool :=
  fix go xs ys :=
    match xs, ys with
    | [], [] => true
    | x :: xs', y :: ys' => eqA x y && go xs' ys'
    | _, _ => false
    end.

(** [getattr(self, p) == w], by the field list of [self]. *)
Definition field_eqb (eqv : value -> value -> bool) (p : string)
  : list (string * value) -> value -> bool :=
  fix go fields w :=
    match fields with
    | [] => match w with VNone => true | _ => false end
    | (k, v) :: r => if String.eqb p k then eqv v w else go r w
    end.

(** Every entry of the first dictionary is in the second with an equal value. *)
Definition entries_eqb (eqv : value -> value -> bool) (d' : dict)
  : dict -> bool :=
  fix go d :=
    match d with
    | [] => true
    | (k, v) :: r =>
        match assoc k d' with
        | Some w => eqv v w && go r
        | None => false
        end
    end.

(** [v == w].  Objects compare by [Base.__eq__]. *)
Fixpoint py_eq (E : env) (v w : value) {struct v} : bool :=
  match v, w with
  | VNone, VNone => true
  | VStr s, VStr t => String.eqb s t
  | VDatetime d, VDatetime e => datetime_eqb d e
  | VDate a, VDate b => Z.eqb a b
  | VEnum e m, VEnum e' m' => String.eqb e e' && String.eqb m m'
  | VList xs, VList ys => list_eqb (py_eq E) xs ys
  | VTuple xs, VTuple ys => list_eqb (py_eq E) xs ys
  | VDict d, VDict d' =>
      Nat.eqb (length d) (length d') && entries_eqb (py_eq E) d' d
  | VObj c f h, VObj c' f' h' =>
      String.eqb c c' && hash_compatible h h'
      && forallb (fun p => field_eqb (py_eq E) p f (getattr f' p)) (properties E c)
  | VBool b, _ =>
      match num_of w with
      | Some r => Qeq_bool (if b then 1 else 0) r
      | None => false
      end
  | VInt n, _ =>
      match num_of w with Some r => Qeq_bool (inject_Z n) r | None => false end
  | VFloat q, _ =>
      match num_of w with Some r => Qeq_bool q r | None => false end
  | _, _ => false
  end.

(** [Base.__eq__] *)
Definition Base__eq__ (E : env) (self other : value) : bool :=
  match self, other with
  | VObj c f h, VObj c' f' h' =>
      String.eqb c c' && hash_compatible h h'
      && forallb (fun p => py_eq E (getattr f p) (getattr f' p)) (properties E c)
  | _, _ => false
  end.

(** [Base.__ne__] *)
Definition Base__ne__ (E : env) (self other : value) : bool :=
  negb (Base__eq__ E self other).

(** What the builtin [hash] makes of the result of a [__hash__] method. *)
Definition hash_result (z : Z) : Z := if Z.eqb z (-1) then (-2)%Z else z.

Definition field_hash (hashv : value -> outcome Z) (none : Z) (p : string)
  : list (string * value) -> outcome Z :=
  fix go fields :=
    match fields with
    | [] => Ok none
    | (k, v) :: r => if String.eqb p k then hashv v else go r
    end.

Definition hash_items (hashv : value -> outcome Z) : list value -> outcome (list Z) :=
  fix go xs :=
    match xs with
    | [] => Ok []
    | x :: r => obind (hashv x) (fun h => obind (go r) (fun hs => Ok (h :: hs)))
    end.

(** The loop of [Base.__hash__] over the properties after the first. *)
Definition xor_fields (fh : string -> outcome Z) (props : list string) (start : Z)
  : outcome Z :=
  fold_left (fun acc p => obind acc (fun a => obind (fh p) (fun h => Ok (Z.lxor a h))))
            props (Ok start).

(** The body of [Base.__hash__] when no hash is cached. *)
Definition calc_hash (fh : string -> outcome Z) (props : list string) : outcome Z :=
  match props with
  | [] => Ok 1%Z
  | p :: rest =>
      obind (match p with EmptyString => Ok 1%Z | _ => fh p end)
            (xor_fields fh rest)
  end.

(** [hash(v)] *)
Fixpoint py_hash (H : hasher) (E : env) (v : value) {struct v} : outcome Z :=
  match v with
  | VNone => Ok (hash_none H)
  | VBool b => Ok (hash_num H (Qred (if b then 1 else 0)))
  | VInt n => Ok (hash_num H (Qred (inject_Z n)))
  | VFloat q => Ok (hash_num H (Qred q))
  | VStr s => Ok (hash_str H s)
  | VDatetime d => Ok (hash_datetime H (is_some (dt_tz d)) (dt_us d))
  | VDate day => Ok (hash_date H day)
  | VEnum _ m => Ok (hash_str H m)
  | VList _ => Raise TypeError
  | VDict _ => Raise TypeError
  | VTuple xs => obind (hash_items (py_hash H E) xs) (fun hs => Ok (hash_seq H hs))
  | VObj c f h =>
      match h with
      | Some x => Ok (hash_result x)
      | None =>
          obind (calc_hash (fun p => field_hash (py_hash H E) (hash_none H) p f)
                           (properties E c))
                (fun x => Ok (hash_result x))
      end
  end.

(** [Base.__hash__]: the hash, and the object with the hash cached.  (The
    hashes the call caches in the objects nested in the fields are not
    recorded: they are the ones [py_hash] computes anyway.) *)
Definition Base__hash__ (H : hasher) (E : env) (self : value) : outcome (Z * value) :=
  match self with
  | VObj c f (Some x) => Ok (x, self)
  | VObj c f None =>
      obind (calc_hash (fun p => py_hash H E (getattr f p)) (properties E c))
            (fun x => Ok (x, VObj c f (Some x)))
  | _ => Raise TypeError
  end.

(** The hash [Base.__hash__] returns. *)
Definition hash_of (r : outcome (Z * value)) : outcome Z :=
  obind r (fun p => Ok (fst p)).

(** The XOR of the hashes of the fields, in order; 1 when there is none. *)
Definition xor_all (hs : list Z) : Z :=
  match hs with
  | [] => 1%Z
  | h0 :: r => fold_left Z.lxor r h0
  end.

(** The invariant of the cached hash: wherever an object, at any depth,
    holds a cached hash, that hash is the one its fields give now.  The
    setters keep it by clearing the cache. *)
Fixpoint coherent (H : hasher) (E : env) (v : value) {struct v} : bool :=
  match v with
  | VList xs => List.forallb (coherent H E) xs
  | VTuple xs => List.forallb (coherent H E) xs
  | VDict d => List.forallb (fun kv => coherent H E (snd kv)) d
  | VObj c f h =>
      List.forallb (fun kv => coherent H E (snd kv)) f
      && match h with
         | None => true
         | Some x =>
             match calc_hash (fun p => py_hash H E (getattr f p)) (properties E c) with
             | Ok y => Z.eqb x y
             | Raise _ => false
             end
         end
  | _ => true
  end.

(** ** Attribute assignment, [clone] and [as_dict] *)

(** [Base._property_changed] *)
Definition _property_changed (self : value) : value :=
  match self with
  | VObj c f _ => VObj c f None
  | _ => self
  end.

(** Modelled from the spec: the generated setter of a property, which is
    not part of base.py.  [object.__setattr__(self, name, value)] on a
    property runs the setter, which stores the value in the backing field
    and calls [_property_changed]; any other name becomes an instance
    attribute. *)
Definition object__setattr__ (E : env) (self : value) (name : string) (v : value)
  : value :=
  match self with
  | VObj c f h =>
      if mem name (properties E c)
      then _property_changed (VObj c (dict_set name v f) h)
      else VObj c (dict_set name v f) h
  | _ => self
  end.

(** [Base.__setattr__] *)
Definition Base__setattr__ (E : env) (self : value) (key : string) (v : value)
  : value :=
  match self with
  | VObj c _ _ =>
      let props := properties E c in
      let snake_case_key := Inflection.underscore key in
      let key_is_property := mem key props in
      let snake_case_key_is_property := mem snake_case_key props in
      if snake_case_key_is_property && negb key_is_property
      then object__setattr__ E self snake_case_key v
      else object__setattr__ E self key v
  | _ => self
  end.

(** [o.p1. ... .pn.key = v]: the assignment is made on the object the path
    leads to; the objects on the way hold it by reference, so they see its
    new state, and none of their own setters runs. *)
Fixpoint setattr_at (E : env) (path : list string) (o : value) (key : string)
  (v : value) : value :=
  match path with
  | [] => Base__setattr__ E o key v
  | p :: r =>
      match o with
      | VObj c f h => VObj c (dict_set p (setattr_at E r (getattr f p) key v) f) h
      | _ => o
      end
  end.

(** The objects of the program, by address. *)
Definition heap := list value.

Fixpoint heap_update (a : nat) (f : value -> value) (hp : heap) : heap :=
  match hp, a with
  | [], _ => []
  | o :: r, O => f o :: r
  | o :: r, S k => o :: heap_update k f r
  end.

(** The loop of [Base.clone] on the copy at address [a]. *)
Fixpoint clone_loop (E : env) (props : list string) (kwargs : dict)
  (a : nat) (hp : heap) : outcome unit * heap :=
  match kwargs with
  | [] => (Ok tt, hp)
  | (key, v) :: r =>
      if mem key props
      then clone_loop E props r a
             (heap_update a (fun o => Base__setattr__ E o key v) hp)
      else (Raise (ValueError "Only properties may be passed as kwargs"), hp)
  end.

(** [Base.clone]: [copy.copy(self)] allocates the copy at the next free
    address; the result is that address. *)
Definition clone (E : env) (hp : heap) (self : nat) (kwargs : dict)
  : outcome nat * heap :=
  match nth_error hp self with
  | Some (VObj c f h) =>
      let a := length hp in
      match clone_loop E (properties E c) kwargs a (hp ++ [VObj c f h]) with
      | (Ok _, hp') => (Ok a, hp')
      | (Raise e, hp') => (Raise e, hp')
      end
  | _ => (Raise AttributeError, hp)
  end.

Definition is_none (v : value) : bool :=
  match v with VNone => true | _ => false end.

Fixpoint camelize_all (props : list string) : outcome (list string) :=
  match props with
  | [] => Ok []
  | p :: r =>
      match Inflection.camelize p with
      | Some c => obind (camelize_all r) (fun cs => Ok (c :: cs))
      | None => Raise IndexError
      end
  end.

(** [Base.as_dict] *)
Definition as_dict (E : env) (self : value) (as_camel_case : bool) : outcome dict :=
  match self with
  | VObj c f _ =>
      let raw_properties := properties E c in
      obind (if as_camel_case then camelize_all raw_properties else Ok raw_properties)
        (fun names =>
           let values := List.map (getattr f) raw_properties in
           Ok (dict_of_pairs
                 (List.filter (fun pv => negb (is_none (snd pv)))
                              (List.combine names values))))
  | _ => Raise AttributeError
  end.

(** ** Enum coercion *)

(** [v.lower()], which only a string has. *)
Definition lower_of (v : value) : outcome string :=
  match v with
  | VStr s => Ok (Str.lower s)
  | _ => Raise AttributeError
  end.

(** [EnumBase._missing_]: the name of the first member whose value equals
    the key when both are put in lower case. *)
Fixpoint _missing_ (members : list (string * value)) (key : value)
  : outcome (option string) :=
  match members with
  | [] => Ok None
  | (name, mv) :: r =>
      obind (lower_of mv) (fun a =>
      obind (lower_of key) (fun b =>
        if String.eqb a b then Ok (Some name) else _missing_ r key))
  end.

(** [enum_type(value)] for a value that is not a member already
    ([Enum.__new__] of CPython 3.7 and later): the member with that value,
    else what [_missing_] finds, else [ValueError]; an exception raised in
    [_missing_] propagates. *)
Definition enum_call (E : env) (ed : enum_decl) (v : value) : outcome value :=
  match List.find (fun m => py_eq E (snd m) v) (en_members ed) with
  | Some (name, _) => Ok (VEnum (en_name ed) name)
  | None =>
      match _missing_ (en_members ed) v with
      | Ok (Some name) => Ok (VEnum (en_name ed) name)
      | Ok None => Raise (ValueError "not a valid member")
      | Raise e => Raise e
      end
  end.

(** [isinstance(value, enum_type)] *)
Definition is_member (ed : enum_decl) (v : value) : bool :=
  match v with
  | VEnum e _ => String.eqb e (en_name ed)
  | _ => false
  end.

(** [get_enum_value] *)
Definition get_enum_value (E : env) (enum_type : enum_decl) (v : value) : M value :=
  if py_eq E v VNone || py_eq E v (VStr "None") then ret VNone
  else if is_member enum_type v then ret v
  else
    match enum_call E enum_type v with
    | Ok enum_value => ret enum_value
    | Raise (ValueError _) =>
        _ <- warn v (en_name enum_type) ;; ret v
    | Raise e => raise e
    end.

(** ** Type introspection *)

(** [issubclass(a, (Base, EnumBase))] *)
Definition is_domain_class (c : pyclass) : bool :=
  match c with
  | CEnum _ | CBase _ => true
  | _ => false
  end.

(** [next((a for a in return_hints.__args__ if issubclass(a, (Base,
    EnumBase))), None)]; [issubclass] raises on what is not a class. *)
Fixpoint first_domain_class (args : list hint) : outcome (option pyclass) :=
  match args with
  | [] => Ok None
  | HClass c :: r => if is_domain_class c then Ok (Some c) else first_domain_class r
  | _ :: _ => Raise TypeError
  end.

(** [Base.prop_type] *)
Definition prop_type (cd : class_decl) (prop : string) : outcome (option pyclass) :=
  match assoc prop (cd_props cd) with
  | None => Raise AttributeError
  | Some HAbsent => Ok None
  | Some (HClass c) => Ok (Some c)
  | Some (HGeneric origin _) => Ok (Some origin)
  | Some (HUnion args) => first_domain_class args
  end.

(** [Base.prop_item_type] *)
Definition prop_item_type (cd : class_decl) (prop : string) : outcome hint :=
  match assoc prop (cd_props cd) with
  | Some (HGeneric _ (a :: _)) => Ok a
  | Some (HUnion (a :: _)) => Ok a
  | Some (HGeneric _ []) => Raise IndexError
  | Some (HUnion []) => Raise IndexError
  | Some (HClass _) => Raise AttributeError
  | Some HAbsent => Raise AttributeError
  | None => Raise AttributeError
  end.

(** [[i for i in getattr(item_type, '__args__', ()) if isinstance(i, type)]] *)
Definition item_args (item_type : hint) : list pyclass :=
  match item_type with
  | HGeneric _ args | HUnion args =>
      List.flat_map (fun a => match a with HClass c => [c] | _ => [] end) args
  | _ => []
  end.

(** The class the items of a collection are coerced to: the first class
    argument deriving from [Base] or [EnumBase], else the last one; else
    the item type itself, on which [issubclass] raises unless it is a class. *)
Definition resolve_item_type (item_type : hint) : outcome pyclass :=
  match item_args item_type with
  | [] =>
      match item_type with
      | HClass c => Ok c
      | _ => Raise TypeError
      end
  | c0 :: cs =>
      Ok (match List.find is_domain_class (c0 :: cs) with
          | Some c => c
          | None => List.last cs c0
          end)
  end.

(** ** Construction: [BaseMeta.__call__] and the generated [__init__] *)

(** The loop of [BaseMeta.__call__] over [kwargs.items()]. *)
Fixpoint normalise_kwargs (kwargs todo normalised_kwargs : dict) : outcome dict :=
  match todo with
  | [] => Ok normalised_kwargs
  | (arg0, v) :: r =>
      let arg := _normalise_arg arg0 in
      if negb (Str.isupper arg) then
        let snake_case_arg := Inflection.underscore arg in
        if negb (String.eqb snake_case_arg arg) then
          if mem snake_case_arg (keys kwargs)
          then Raise (ValueError (arg ++ " and " ++ snake_case_arg ++ " both specified"))
          else normalise_kwargs kwargs r (dict_set snake_case_arg v normalised_kwargs)
        else normalise_kwargs kwargs r (dict_set arg v normalised_kwargs)
      else normalise_kwargs kwargs r (dict_set arg v normalised_kwargs)
  end.

(** [prop_name = arg[:-1] if arg.endswith('_') and not
    keyword.iskeyword(arg) else arg] *)
Definition prop_name_of (arg : string) : string :=
  if Str.ends_with_underscore arg && negb (iskeyword arg)
  then Str.drop_last arg else arg.

(** Binding keyword arguments to the parameters after [self]: a missing
    argument takes the default, a missing required one or an unexpected
    keyword is a [TypeError]. *)
Fixpoint bind_params (params : list param) (kwargs : dict) : outcome dict :=
  match params with
  | [] => match kwargs with [] => Ok [] | _ :: _ => Raise TypeError end
  | p :: r =>
      match assoc (p_name p) kwargs, p_default p with
      | Some v, _ =>
          obind (bind_params r (remove_key (p_name p) kwargs))
                (fun b => Ok ((p_name p, v) :: b))
      | None, Some d =>
          obind (bind_params r kwargs) (fun b => Ok ((p_name p, d) :: b))
      | None, None => Raise TypeError
      end
  end.

(** What [__init__] binds to a parameter. *)
Definition bound_value (kwargs : dict) (p : param) : value :=
  match assoc (p_name p) kwargs with
  | Some v => v
  | None => match p_default p with Some d => d | None => VNone end
  end.

(** Modelled from the spec: the generated [__init__] of a domain class,
    which is not part of base.py.  It calls [Base.__init__] (no cached
    hash) and stores each argument in the backing field of the property
    the parameter is named after; the other fields are [None]. *)
Definition generated__init__ (cd : class_decl) (kwargs : dict) : outcome value :=
  obind (bind_params (List.tl (cd_init cd)) kwargs) (fun bound =>
    Ok (VObj (cd_name cd)
          (fold_left (fun f av => dict_set (prop_name_of (fst av)) (snd av) f)
                     bound
                     (List.map (fun p => (p, VNone)) (properties_of cd)))
          None)).

(** [BaseMeta.__call__], with keyword arguments only. *)
Definition BaseMeta__call__ (cd : class_decl) (kwargs : dict) : outcome value :=
  obind (normalise_kwargs kwargs kwargs []) (generated__init__ cd).

(** ** Construction from a dictionary *)

(** The date and time functions of the standard library and [dateutil]. *)
Record library := mk_library {
  lib_hasher : hasher;
  (* dt.datetime.fromtimestamp(ms / 1000), for an int ms *)
  fromtimestamp_ms : Z -> outcome datetime;
  isoformat : datetime -> string;
  (* dateutil.parser.isoparse on a string *)
  isoparse : string -> outcome datetime
}.

(** [bool(v)] *)
Definition truthy (v : value) : bool :=
  match v with
  | VNone => false
  | VBool b => b
  | VInt n => negb (Z.eqb n 0)
  | VFloat q => negb (Qeq_bool q 0)
  | VStr s => negb (String.eqb s EmptyString)
  | VList xs | VTuple xs => negb (Nat.eqb (length xs) 0)
  | VDict d => negb (Nat.eqb (length d) 0)
  | _ => true
  end.

(** [values.pop(key)] *)
Definition pop (values : value) (key : string) : outcome (value * value) :=
  match values with
  | VDict d => obind (dict_pop key d) (fun r => Ok (fst r, VDict (snd r)))
  | VList _ => Raise TypeError
  | _ => Raise AttributeError
  end.

(** [values.pop(key, None)] *)
Definition pop_default (values : value) (key : string) : outcome (value * value) :=
  match values with
  | VDict d => let r := dict_pop_default key d in Ok (fst r, VDict (snd r))
  | VList _ => Raise TypeError
  | _ => Raise AttributeError
  end.

(** [values.get], which only a dictionary has. *)
Definition get_method (values : value) : outcome dict :=
  match values with
  | VDict d => Ok d
  | _ => Raise AttributeError
  end.

(** [for v in prop_value] *)
Fixpoint chars (s : string) : list value :=
  match s with
  | EmptyString => []
  | String c r => VStr (String c EmptyString) :: chars r
  end.

Definition iterate (v : value) : outcome (list value) :=
  match v with
  | VList xs | VTuple xs => Ok xs
  | VDict d => Ok (List.map VStr (keys d))
  | VStr s => Ok (chars s)
  | _ => Raise TypeError
  end.

(** [re.search] for a dot, decimal digits, [Z] and the end of the string
    (the pattern of [__from_dict]): the text before the match, the digits,
    and the text after the match (empty, or the final newline before which
    [$] also matches). *)
Fixpoint search_subseconds (s : string) : option (string * string * string) :=
  match s with
  | EmptyString => None
  | String c r =>
      let here :=
        if Ascii.eqb c "."
        then match Str.span_digits r with
             | (ds, String z rest) =>
                 if Ascii.eqb z "Z"
                    && (String.eqb rest EmptyString
                        || String.eqb rest (String "010" EmptyString))
                 then Some (EmptyString, ds, rest)
                 else None
             | _ => None
             end
        else None in
      match here with
      | Some m => Some m
      | None =>
          match search_subseconds r with
          | Some (pre, ds, post) => Some (String c pre, ds, post)
          | None => None
          end
      end
  end.

(** The fractional seconds of a string ending in [Z] cut to six digits:
    [re.sub(matcher.re, '.{}Z'.format(sub_seconds[:6]), prop_value)] when
    there are more. *)
Definition truncate_subseconds (s : string) : string :=
  match search_subseconds s with
  | Some (pre, sub_seconds, post) =>
      if (6 <? String.length sub_seconds)%nat
      then pre ++ "." ++ Str.take 6 sub_seconds ++ "Z" ++ post
      else s
  | None => s
  end.

(** [d.date()]: the day of the wall clock, in days since the epoch. *)
Definition date_of (d : datetime) : Z :=
  let wall := match dt_tz d with Some off => (dt_us d + off)%Z | None => dt_us d end in
  (wall / 86400000000)%Z.

Section FromDict.

Variable L : library.
Variable E : env.

(** [cls.from_dict] of a class given by name, for the nested calls. *)
Variable nested_from_dict : string -> value -> M value.

(** The coercion of a required argument in [Base._from_dict]. *)
Definition coerce_required (prop_type : option pyclass) (v : value) : M value :=
  match prop_type with
  | Some (CBase c) =>
      match v with
      | VDict _ => nested_from_dict c v
      | _ => ret v
      end
  | Some (CEnum ed) => get_enum_value E ed v
  | _ => ret v
  end.

(** [args] of [Base._from_dict]: the parameters without a default, but for
    [kwargs] and the first one. *)
Definition required_args (cd : class_decl) : list string :=
  List.tl (List.map p_name
             (List.filter (fun p => negb (String.eqb (p_name p) "kwargs")
                                    && negb (is_some (p_default p)))
                          (cd_init cd))).

(** The loop of [Base._from_dict] that fills [required] and pops from
    [values]. *)
Fixpoint collect_required (cd : class_decl) (args : list string)
  (required : dict) (values : value) : M (dict * value) :=
  match args with
  | [] => ret (required, values)
  | arg :: r =>
      let prop_name := prop_name_of arg in
      prop_type <- lift (prop_type cd prop_name) ;;
      ' (v, values') <- lift (pop_default values arg) ;;
      v' <- coerce_required prop_type v ;;
      collect_required cd r (dict_set arg v' required) values'
  end.

(** The date-time branch of [Base.__from_dict]. *)
Definition coerce_datetime (prop_value : value) : outcome value :=
  match prop_value with
  | VInt n =>
      obind (fromtimestamp_ms L n) (fun d => Ok (VStr (isoformat L d)))
  | VBool b =>
      obind (fromtimestamp_ms L (if b then 1 else 0)%Z)
            (fun d => Ok (VStr (isoformat L d)))
  | VStr s =>
      obind (isoparse L (truncate_subseconds s)) (fun d => Ok (VDatetime d))
  | _ => Raise TypeError
  end.

(** The date branch of [Base.__from_dict]. *)
Definition coerce_date (prop_value : value) : outcome value :=
  match prop_value with
  | VStr s => obind (isoparse L s) (fun d => Ok (VDate (date_of d)))
  | _ => Raise TypeError
  end.

Definition is_domain_value (v : value) : bool :=
  match v with
  | VObj _ _ _ | VEnum _ _ => true
  | _ => false
  end.

(** The collection branch of [Base.__from_dict]. *)
Definition coerce_items (cd : class_decl) (prop : string) (prop_value : value)
  : M value :=
  item_type0 <- lift (prop_item_type cd prop) ;;
  item_type <- lift (resolve_item_type item_type0) ;;
  items <- lift (iterate prop_value) ;;
  match item_type with
  | CBase c =>
      vs <- mapM (fun v => if is_domain_value v then ret v else nested_from_dict c v)
                 items ;;
      ret (VTuple vs)
  | CEnum ed =>
      vs <- mapM (get_enum_value E ed) items ;;
      ret (VTuple vs)
  | _ => ret (VTuple items)
  end.

(** The value [Base.__from_dict] assigns to [prop] for a raw value that is
    not [None]. *)
Definition coerce_prop (cd : class_decl) (prop : string) (prop_value : value)
  : M value :=
  prop_type <- lift (prop_type cd prop) ;;
  match prop_type with
  | None => ret prop_value
  | Some CDatetime => lift (coerce_datetime prop_value)
  | Some CDate => lift (coerce_date prop_value)
  | Some (CEnum ed) => get_enum_value E ed prop_value
  | Some (CBase c) =>
      match prop_value with
      | VObj _ _ _ => ret prop_value
      | _ => nested_from_dict c prop_value
      end
  | Some CList | Some CTuple => coerce_items cd prop prop_value
  | Some (CPlain _) => ret prop_value
  end.

(** [Base.__from_dict]: the loop over the properties. *)
Fixpoint __from_dict (cd : class_decl) (props : list string) (self : value)
  (values : value) : M value :=
  match props with
  | [] => ret self
  | prop :: r =>
      d <- lift (get_method values) ;;
      camel <- lift (match Inflection.camelize prop with
                     | Some c => Ok c
                     | None => Raise IndexError
                     end) ;;
      let prop_value := dict_get prop d (dict_get camel d VNone) in
      if is_none prop_value then __from_dict cd r self values
      else
        v <- coerce_prop cd prop prop_value ;;
        __from_dict cd r (Base__setattr__ E self prop v) values
  end.

(** [Base._from_dict]: the instance, and [values] as the call leaves it.
    The dictionaries nested in [values] are values here: what a nested
    construction pops from its own dictionary is not written back. *)
Definition _from_dict (cd : class_decl) (values : value) : M (value * value) :=
  ' (required, values') <- collect_required cd (required_args cd) [] values ;;
  instance <- lift (BaseMeta__call__ cd required) ;;
  instance' <- __from_dict cd (properties_of cd) instance values' ;;
  ret (instance', values').

(** The registry: [d[k] = c] and [d.get(k)] on keys that are pairs. *)
Definition registry := list ((value * value) * string).

Definition key_eqb (k k' : value * value) : bool :=
  py_eq E (fst k) (fst k') && py_eq E (snd k) (snd k').

Fixpoint registry_set (k : value * value) (c : string) (reg : registry) : registry :=
  match reg with
  | [] => [(k, c)]
  | (k', c') :: r =>
      if key_eqb k k' then (k', c) :: r else (k', c') :: registry_set k c r
  end.

Definition registry_get (reg : registry) (k : value * value)
  : outcome (option string) :=
  obind (py_hash (lib_hasher L) E (VTuple [fst k; snd k])) (fun _ =>
    Ok (match List.find (fun e => key_eqb k (fst e)) reg with
        | Some (_, c) => Some c
        | None => None
        end)).

(** [Instrument.asset_class_and_type_to_instrument] *)
Definition asset_class_and_type_to_instrument : registry :=
  fold_left
    (fun reg i => registry_set (in_asset_class i, in_type i) (in_class i) reg)
    (env_instruments E)
    [((VEnum (en_name (env_AssetClass E)) "Cash",
       VEnum (en_name (env_AssetType E)) "Currency"), "Forward")].

(** [Instrument.from_dict]: the result, and [values] as the call leaves it. *)
Definition Instrument_from_dict (values : value) : M (value * value) :=
  if negb (truthy values) then ret (VNone, values)
  else
    let reg := asset_class_and_type_to_instrument in
    ' (ac_raw, values1) <- lift (pop values "asset_class") ;;
    ac <- get_enum_value E (env_AssetClass E) ac_raw ;;
    ' (ty_raw, values2) <- lift (pop values1 "type") ;;
    ty <- get_enum_value E (env_AssetType E) ty_raw ;;
    instrument_type <- lift (registry_get reg (ac, ty)) ;;
    match instrument_type with
    | Some c =>
        match find_class E c with
        | Some cd => _from_dict cd values2
        | None => raise AttributeError
        end
    | None => env_security_from_dict E values2
    end.

(** [cls.from_dict(values)]: [Instrument.from_dict] for an instrument
    class, [Base.from_dict] otherwise. *)
Definition from_dict_of (cd : class_decl) (values : value) : M (value * value) :=
  if cd_instrument cd then Instrument_from_dict values else _from_dict cd values.

End FromDict.

(** [cls.from_dict] by the name of the class; the fuel bounds the depth of
    nested constructions, and running out of it is [RecursionError].  A
    class that is not declared has no [from_dict]. *)
Fixpoint from_dict_named (fuel : nat) (L : library) (E : env) (cls : string)
  (values : value) : M value :=
  match fuel with
  | O => raise RecursionError
  | S n =>
      match find_class E cls with
      | Some cd =>
          r <- from_dict_of L E (from_dict_named n L E) cd values ;;
          ret (fst r)
      | None => raise AttributeError
      end
  end.

(** [cls.from_dict(values)] *)
Definition from_dict (fuel : nat) (L : library) (E : env) (cd : class_decl)
  (values : value) : M (value * value) :=
  from_dict_of L E (from_dict_named fuel L E) cd values.

(** ** A sample program

    A reference library (UTC as the local zone, a fixed ISO-8601 profile)
    and a few domain declarations, on which the definitions above run. *)

Module Sample.

Definition digit (n : Z) : ascii := ascii_of_nat (48 + Z.to_nat (n mod 10)).

(** [n] in [k] decimal digits, zero padded. *)
Fixpoint pad (k : nat) (n : Z) : string :=
  match k with
  | O => EmptyString
  | S k' => pad k' (n / 10) ++ String (digit n) EmptyString
  end.

(** Year, month and day of a day number (days since 1970-01-01). *)
Definition civil_from_days (z0 : Z) : Z * Z * Z :=
  let z := (z0 + 719468)%Z in
  let era := (z / 146097)%Z in
  let doe := (z - era * 146097)%Z in
  let yoe := ((doe - doe / 1460 + doe / 36524 - doe / 146096) / 365)%Z in
  let doy := (doe - (365 * yoe + yoe / 4 - yoe / 100))%Z in
  let mp := ((5 * doy + 2) / 153)%Z in
  let d := (doy - (153 * mp + 2) / 5 + 1)%Z in
  let m := (if mp <? 10 then mp + 3 else mp - 9)%Z in
  ((yoe + era * 400 + (if m <=? 2 then 1 else 0))%Z, m, d).

Definition days_from_civil (y0 m d : Z) : Z :=
  let y := (if m <=? 2 then y0 - 1 else y0)%Z in
  let era := (y / 400)%Z in
  let yoe := (y - era * 400)%Z in
  let doy := ((153 * (if 2 <? m then m - 3 else m + 9) + 2) / 5 + d - 1)%Z in
  let doe := (yoe * 365 + yoe / 4 - yoe / 100 + doy)%Z in
  (era * 146097 + doe - 719468)%Z.

Definition isoformat (d : datetime) : string :=
  let us := dt_us d in
  let day := (us / 86400000000)%Z in
  let rest := (us mod 86400000000)%Z in
  let '(y, m, dd) := civil_from_days day in
  let secs := (rest / 1000000)%Z in
  let frac := (rest mod 1000000)%Z in
  pad 4 y ++ "-" ++ pad 2 m ++ "-" ++ pad 2 dd ++ "T"
  ++ pad 2 (secs / 3600) ++ ":" ++ pad 2 ((secs / 60) mod 60) ++ ":"
  ++ pad 2 (secs mod 60)
  ++ (if Z.eqb frac 0 then EmptyString else "." ++ pad 6 frac).

(** The number a string of decimal digits denotes. *)
Fixpoint number (acc : Z) (s : string) : option Z :=
  match s with
  | EmptyString => Some acc
  | String c r =>
      if Str.is_digit c
      then number (acc * 10 + Z.of_nat (nat_of_ascii c - 48)) r
      else None
  end.

Definition field (from len : nat) (s : string) : option Z :=
  let t := String.substring from len s in
  if Nat.eqb (String.length t) len then number 0 t else None.

Definition char_at (n : nat) (s : string) (c : ascii) : bool :=
  match String.get n s with
  | Some c' => Ascii.eqb c c'
  | None => false
  end.

(** [YYYY-MM-DDTHH:MM:SS], then at most six fractional digits after a dot,
    then an optional [Z]; anything else is a [ValueError]. *)
Definition isoparse (s : string) : outcome datetime :=
  let bad := Raise (ValueError "invalid ISO-8601 string") in
  match field 0 4 s, field 5 2 s, field 8 2 s,
        field 11 2 s, field 14 2 s, field 17 2 s with
  | Some y, Some m, Some d, Some hh, Some mm, Some ss =>
      if char_at 4 s "-" && char_at 7 s "-" && char_at 10 s "T"
         && char_at 13 s ":" && char_at 16 s ":"
      then
        let tail := String.substring 19 (String.length s - 19) s in
        let '(frac, zone) :=
          match tail with
          | String "." r =>
              let '(ds, rest) := Str.span_digits r in
              (if (String.length ds <=? 6)%nat && negb (String.eqb ds EmptyString)
               then match number 0 ds with
                    | Some n => Some (n * 10 ^ Z.of_nat (6 - String.length ds))%Z
                    | None => None
                    end
               else None, rest)
          | _ => (Some 0%Z, tail)
          end in
        let tz :=
          if String.eqb zone "Z" then Some (Some 0%Z)
          else if String.eqb zone EmptyString then Some None
          else None in
        match frac, tz with
        | Some f, Some z =>
            Ok (mk_datetime
                  ((days_from_civil y m d * 86400 + hh * 3600 + mm * 60 + ss)
                   * 1000000 + f)%Z z)
        | _, _ => bad
        end
      else bad
  | _, _, _, _, _, _ => bad
  end.

Definition hashes : hasher :=
  mk_hasher 1741
    (fun q => (Qnum q * 31 + Zpos (Qden q))%Z)
    (fun s => List.fold_left (fun a c => a * 31 + Z.of_N (N_of_ascii c))%Z
                (list_ascii_of_string s) 7%Z)
    (fun hs => List.fold_left (fun a h => Z.lxor (a * 1000003) h) hs 3430008%Z)
    (fun aware us => if aware then (us + 1)%Z else us)
    (fun day => day).

Definition runtime : library :=
  mk_library hashes
    (fun ms => Ok (mk_datetime (ms * 1000) None))
    isoformat
    isoparse.

Definition str_members (names : list string) : list (string * value) :=
  List.map (fun n => (n, VStr n)) names.

Definition PayReceive : enum_decl :=
  mk_enum "PayReceive" (str_members ["Pay"; "Receive"; "Straddle"]).

Definition AssetClass : enum_decl :=
  mk_enum "AssetClass" (str_members ["Cash"; "Commod"; "Credit"; "Equity"; "FX"; "Rates"]).

Definition AssetType : enum_decl :=
  mk_enum "AssetType" (str_members ["Cap"; "Currency"; "Forward"; "Swap"; "Swaption"]).

Definition float_or_str : hint := HUnion [HClass (CPlain "float"); HClass (CPlain "str")].

Definition Swap : class_decl :=
  mk_class "Swap" true
    [ mk_param "self" None; mk_param "pay_or_receive" None;
      mk_param "fixed_rate" (Some VNone); mk_param "notional_amount" (Some VNone) ]
    [ ("fixed_rate", float_or_str);
      ("notional_amount", HClass (CPlain "float"));
      ("pay_or_receive", HUnion [HClass (CEnum PayReceive); HClass (CPlain "str")]) ].

Definition Forward : class_decl :=
  mk_class "Forward" true
    [ mk_param "self" None; mk_param "currency" (Some VNone) ]
    [ ("currency", HClass (CPlain "str")) ].

(** A type outside the instrument hierarchy, with a date-time field. *)
Definition Observation : class_decl :=
  mk_class "Observation" false
    [ mk_param "self" None; mk_param "asset_id" None;
      mk_param "time" (Some VNone); mk_param "bid_price" (Some VNone);
      mk_param "side" (Some VNone) ]
    [ ("asset_id", HClass (CPlain "str"));
      ("bid_price", HClass (CPlain "float"));
      ("side", HClass (CEnum PayReceive));
      ("time", HClass CDatetime) ].

(** The same without the date-time field. *)
Definition Quote : class_decl :=
  mk_class "Quote" false
    [ mk_param "self" None; mk_param "asset_id" None;
      mk_param "bid_price" (Some VNone); mk_param "side" (Some VNone) ]
    [ ("asset_id", HClass (CPlain "str"));
      ("bid_price", HClass (CPlain "float"));
      ("side", HClass (CEnum PayReceive)) ].

(** A type with a collection field. *)
Definition Basket : class_decl :=
  mk_class "Basket" false
    [ mk_param "self" None; mk_param "name" None; mk_param "ids" (Some VNone) ]
    [ ("ids", HGeneric CTuple [HClass (CPlain "str")]);
      ("name", HClass (CPlain "str")) ].

(** A type with a field that holds an object. *)
Definition Position : class_decl :=
  mk_class "Position" false
    [ mk_param "self" None; mk_param "quote" (Some VNone);
      mk_param "quantity" (Some VNone) ]
    [ ("quantity", HClass (CPlain "float"));
      ("quote", HClass (CBase "Quote")) ].

Definition program : env :=
  mk_env [Swap; Forward; Observation; Quote; Basket; Position] AssetClass AssetType
    [ mk_instrument "Forward" (VEnum "AssetClass" "FX") (VEnum "AssetType" "Forward");
      mk_instrument "Swap" (VEnum "AssetClass" "Rates") (VEnum "AssetType" "Swap") ]
    (fun values => ret (VObj "Security" [] None, values)).

End Sample.

(** ** Round trips

    A value that construction from a dictionary stores as it is for a
    property of this declared type: anything but [None] where the type is
    not one the binding layer coerces, a member of the enum, an object, a
    tuple whose items are not coerced. *)
Definition passes_through (cd : class_decl) (prop : string) (v : value) : bool :=
  negb (is_none v)
  && match prop_type cd prop with
     | Ok None => true
     | Ok (Some (CPlain _)) => true
     | Ok (Some (CEnum ed)) => is_member ed v
     | Ok (Some (CBase _)) => match v with VObj _ _ _ => true | _ => false end
     | Ok (Some CList) | Ok (Some CTuple) =>
         match v, prop_item_type cd prop with
         | VTuple _, Ok h =>
             match resolve_item_type h with
             | Ok c => negb (is_domain_class c)
             | Raise _ => false
             end
         | _, _ => false
         end
     | _ => false
     end.

(** The wire name of a property. *)
Definition wire_name (prop : string) : string :=
  match Inflection.camelize prop with
  | Some c => c
  | None => prop
  end.

(** The name [as_dict] gives a property. *)
Definition spelling (as_camel_case : bool) (p : string) : string :=
  if as_camel_case then wire_name p else p.

(** The entries [as_dict] writes for an object with no field unset: the
    properties under the names [nm] gives them, with the values [g] reads. *)
Definition entries (nm : string -> string) (g : string -> value)
  (props : list string) : dict :=
  List.map (fun p => (nm p, g p)) props.

(** The value [__from_dict] reads for a property: the one under its
    canonical name, else the one under its wire name. *)
Definition read (d : dict) (p : string) : value :=
  dict_get p d (dict_get (wire_name p) d VNone).

(** A declaration as the generator writes it: [self] comes first, every
    other parameter of [__init__] is named after the property it
    initialises, in snake_case, and is not a reserved word; and the wire
    names of the properties are distinct from one another and from the
    canonical name of any other property. *)
Record regular (cd : class_decl) : Prop := mk_regular {
  reg_self : exists rest, cd_init cd = mk_param "self" None :: rest;
  reg_params_distinct : NoDup (List.map p_name (List.tl (cd_init cd)));
  reg_params :
    forall a, In a (List.map p_name (List.tl (cd_init cd))) ->
      In a (properties_of cd)
      /\ prop_name_of a = a
      /\ a <> "kwargs"
      /\ iskeyword a || mem a builtin_names = false
      /\ Inflection.underscore a = a;
  reg_props_distinct : NoDup (properties_of cd);
  reg_wire_defined :
    forall p, In p (properties_of cd) -> Inflection.camelize p <> None;
  reg_wire_distinct :
    forall p q, In p (properties_of cd) -> In q (properties_of cd) ->
      wire_name p = wire_name q -> p = q;
  reg_wire_apart :
    forall p q, In p (properties_of cd) -> In q (properties_of cd) ->
      wire_name q = p -> q = p
}.

(** An enum whose members all have string values, as the generated enums do. *)
Definition string_enum (name : string) (members : list (string * string)) : enum_decl :=
  mk_enum name (List.map (fun m => (fst m, VStr (snd m))) members).

(** ** The payloads of the scenarios *)

(** The input of Scenario 1, with wire (camelCase) keys. *)
Definition scenario1 : value :=
  VDict [("assetClass", VStr "Rates"); ("type", VStr "Swap");
         ("fixedRate", VFloat (1 # 100))].

(** The same payload with the discriminant under its canonical key. *)
Definition scenario1_canonical : value :=
  VDict [("asset_class", VStr "Rates"); ("type", VStr "Swap");
         ("fixedRate", VFloat (1 # 100))].

(** A payload with wire keys whose discriminant is registered nowhere. *)
Definition unknown_payload : value :=
  VDict [("assetClass", VStr "Weather"); ("type", VStr "Rainfall")].

(** ** Attribute access *)

(** [object.__getattribute__(self, name)]: a property is read through its
    getter, any other name among the instance attributes.  (Methods and
    class attributes are not values of this model.) *)
Definition object__getattribute__ (E : env) (self : value) (name : string)
  : outcome value :=
  match self with
  | VObj c f _ =>
      if mem name (properties E c) then Ok (getattr f name)
      else match assoc name f with
           | Some v => Ok v
           | None => Raise AttributeError
           end
  | _ => Raise AttributeError
  end.

(** [Base.__getattr__] *)
Definition Base__getattr__ (E : env) (self : value) (item : string)
  : outcome value :=
  match self with
  | VObj c _ _ =>
      let snake_case_item := Inflection.underscore item in
      if mem snake_case_item (properties E c)
      then object__getattribute__ E self snake_case_item
      else object__getattribute__ E self item
  | _ => Raise AttributeError
  end.

(** [self.item]: the interpreter calls [__getattr__] when the regular
    lookup has raised [AttributeError]. *)
Definition attribute (E : env) (self : value) (item : string) : outcome value :=
  match object__getattribute__ E self item with
  | Raise AttributeError => Base__getattr__ E self item
  | r => r
  end.

(** ** [Base.default_instance] *)

(** [args] of [Base.default_instance]: the parameters without a default,
    but for the first one. *)
Definition default_args (cd : class_decl) : list string :=
  List.tl (List.map p_name
             (List.filter (fun p => negb (is_some (p_default p))) (cd_init cd))).

(** [Base.default_instance] *)
Definition default_instance (cd : class_decl) : outcome value :=
  BaseMeta__call__ cd
    (dict_of_pairs (List.map (fun a => (a, VNone)) (default_args cd))).

(** A name [_normalise_arg] changes: a keyword or a name of [builtins]. *)
Definition reserved (s : string) : bool := iskeyword s || mem s builtin_names.

(** The name under which the loop of [BaseMeta.__call__] stores the value
    of a keyword argument. *)
Definition normalised_name (arg0 : string) : string :=
  let arg := _normalise_arg arg0 in
  if Str.isupper arg then arg else Inflection.underscore arg.

(** A class whose property [time] is annotated [Optional[dt.datetime]]. *)
Definition Tick : class_decl :=
  mk_class "Tick" false
    [ mk_param "self" None; mk_param "time" (Some VNone) ]
    [ ("time", HUnion [HClass CDatetime; HClass (CPlain "NoneType")]) ].

(** A string none of whose characters is an upper-case letter or a dash:
    what [inflection.underscore] returns. *)
Definition snake (s : string) : bool :=
  Str.forallb (fun c => negb (Str.is_upper c) && negb (Ascii.eqb c "-")) s.

(** An instrument class whose default instance reports members of enums
    as its asset class and type. *)
Definition enum_keyed (i : instrument_decl) : bool :=
  match in_asset_class i, in_type i with
  | VEnum _ _, VEnum _ _ => true
  | _, _ => false
  end.

(** A key of the registry made of two enum members. *)
Definition enum_pair (k : value * value) : Prop :=
  exists ea ma et mt, k = (VEnum ea ma, VEnum et mt).

(** The class a registry holds for a key: what [dict.get] finds. *)
Definition registered (E : env) (reg : registry) (k : value * value) : option string :=
  match List.find (fun e => key_eqb E k (fst e)) reg with
  | Some (_, c) => Some c
  | None => None
  end.

(** * gs_quant.api.gs.data: [GsDataApi], a caller of the binding layer

    The functions of [gs_quant/api/gs/data.py] that compute on strings,
    dictionaries and column labels.  The session is a parameter: what it
    answers to a request, by the path ([get_definition]), or the bodies it
    answers with, in order ([get_coverage]).  A data frame is the list of
    its columns, each with its label. *)

Module GsDataApi.

(** What these functions raise: [MqValueError], a [KeyError] on a key that
    is not a string, or an exception of the binding layer. *)
Inductive error : Type :=
| MqValueError (msg : string)
| MissingKey (key : value)
| Python (e : exn).

Inductive result (A : Type) : Type :=
| Done (a : A)
| Fail (e : error).
Arguments Done {A} a.
Arguments Fail {A} e.

Definition of_outcome {A} (o : outcome A) : result A :=
  match o with
  | Ok a => Done a
  | Raise e => Fail (Python e)
  end.

Definition rbind {A B} (r : result A) (k : A -> result B) : result B :=
  match r with
  | Done a => k a
  | Fail e => Fail e
  end.

(** [ch in s] for a character. *)
Definition has (ch : ascii) (s : string) : bool :=
  Str.existsb (fun c => Ascii.eqb c ch) s.

(** [s.rsplit(".", 1)] when [s] has a dot: what stands before the last
    dot, and what stands after it. *)
Fixpoint rsplit_dot (s : string) : option (string * string) :=
  match s with
  | EmptyString => None
  | String c r =>
      match rsplit_dot r with
      | Some (a, b) => Some (String c a, b)
      | None => if Ascii.eqb c "." then Some (EmptyString, r) else None
      end
  end.

(** [s.rsplit(".", 1)] *)
Definition rsplit1 (s : string) : list string :=
  match rsplit_dot s with
  | Some (a, b) => [a; b]
  | None => [s]
  end.

(** [s.split(sep)] for a separator of one character. *)
Fixpoint split (sep : ascii) (s : string) : list string :=
  match s with
  | EmptyString => [EmptyString]
  | String c r =>
      if Ascii.eqb c sep then EmptyString :: split sep r
      else match split sep r with
           | w :: ws => String c w :: ws
           | [] => [String c EmptyString]
           end
  end.

(** [s or None] *)
Definition or_None (s : string) : value :=
  if String.eqb s EmptyString then VNone else VStr s.

(** [tuple(items) or None] *)
Definition tuple_or_None (items : list value) : value :=
  match items with
  | [] => VNone
  | _ :: _ => VTuple items
  end.

(** The keyword arguments [_coordinate_from_str] builds. *)
Definition _coordinate_kwargs (coordinate_str : string) : result dict :=
  let tmp := rsplit1 coordinate_str in
  let dimensions := split "_" (List.hd EmptyString tmp) in
  if (length dimensions <? 2)%nat
  then Fail (MqValueError ("invalid coordinate " ++ coordinate_str))
  else
    let kwargs :=
      [ ("mkt_type", VStr (List.nth 0 dimensions EmptyString));
        ("mkt_asset", or_None (List.nth 1 dimensions EmptyString));
        ("mkt_quoting_style",
         if (1 <? length tmp)%nat then VStr (List.last tmp EmptyString) else VNone) ] in
    let kwargs :=
      if (2 <? length dimensions)%nat
      then dict_set "mkt_class" (or_None (List.nth 2 dimensions EmptyString)) kwargs
      else kwargs in
    let kwargs :=
      if (3 <? length dimensions)%nat
      then dict_set "mkt_point"
             (tuple_or_None (List.map VStr (List.skipn 3 dimensions))) kwargs
      else kwargs in
    Done kwargs.

(** [GsDataApi._coordinate_from_str]; [MarketDataCoordinate] is a class of
    [gs_quant.markets], given by its declaration. *)
Definition _coordinate_from_str (MarketDataCoordinate : class_decl)
  (coordinate_str : string) : result value :=
  rbind (_coordinate_kwargs coordinate_str)
        (fun kwargs => of_outcome (BaseMeta__call__ MarketDataCoordinate kwargs)).

(** A declaration of [MarketDataCoordinate] to run the examples on: the
    five fields of a coordinate, each optional. *)
Definition Coordinate : class_decl :=
  mk_class "MarketDataCoordinate" false
    [ mk_param "self" None; mk_param "mkt_type" (Some VNone);
      mk_param "mkt_asset" (Some VNone); mk_param "mkt_class" (Some VNone);
      mk_param "mkt_point" (Some VNone); mk_param "mkt_quoting_style" (Some VNone) ]
    [ ("mkt_asset", HClass (CPlain "str"));
      ("mkt_class", HClass (CPlain "str"));
      ("mkt_point", HGeneric CTuple [HClass (CPlain "str")]);
      ("mkt_quoting_style", HClass (CPlain "str"));
      ("mkt_type", HClass (CPlain "str")) ].







(** [by] of [_sort_coordinate_data], by default. *)
Definition default_by : list string :=
  [ "date"; "time"; "mktType"; "mktAsset"; "mktClass"; "mktPoint";
    "mktQuotingStyle"; "value" ].

(** [field_order] of [_sort_coordinate_data]: the generator that extends
    the list tests each column against the list as it grows. *)
Definition field_order (by_ columns : list string) : list string :=
  fold_left (fun order f => if mem f order then order else order ++ [f])
            columns
            (List.filter (fun f => mem f columns) by_).

(** [df[labels]]: the columns with these labels, in this order. *)
Definition select {A} (labels : list string) (df : list (string * A))
  : list (string * A) :=
  List.flat_map (fun l => List.filter (fun col => String.eqb (fst col) l) df) labels.

(** [GsDataApi._sort_coordinate_data] *)
Definition _sort_coordinate_data {A} (df : list (string * A)) (by_ : list string)
  : list (string * A) :=
  select (field_order by_ (keys df)) df.

(** [GsDataApi.get_definition]: the definition, and the cache
    [__definitions] as the call leaves it.  [fetch] is the request
    [GsSession.current._get('/data/datasets/{}'.format(dataset_id),
    cls=DataSetEntity)], by the path. *)
Definition get_definition (fetch : string -> value) (definitions : dict)
  (dataset_id : string) : result value * dict :=
  let definition := dict_get dataset_id definitions VNone in
  if negb (truthy definition) then
    let definition := fetch ("/data/datasets/" ++ dataset_id)%string in
    if negb (truthy definition)
    then (Fail (MqValueError ("Unknown dataset " ++ dataset_id)), definitions)
    else (Done definition, dict_set dataset_id definition definitions)
  else (Done definition, definitions).

(** [GsDataApi.DEFAULT_SCROLL] *)
Definition DEFAULT_SCROLL : value := VStr "30s".

(** [len(v)] *)
Definition len (v : value) : outcome nat :=
  match v with
  | VList xs | VTuple xs => Ok (length xs)
  | VStr s => Ok (String.length s)
  | VDict d => Ok (length d)
  | _ => Raise TypeError
  end.

(** [a + b] on what has a length *)
Definition add (a b : value) : outcome value :=
  match a, b with
  | VList xs, VList ys => Ok (VList (xs ++ ys))
  | VTuple xs, VTuple ys => Ok (VTuple (xs ++ ys))
  | VStr s, VStr t => Ok (VStr (s ++ t))
  | _, _ => Raise TypeError
  end.

(** The query parameters [get_coverage] sends, and [limit] as it leaves
    the defaulting. *)
Definition coverage_params (scroll scroll_id limit offset fields : value)
  : dict * value :=
  let params := [] in
  let params := if truthy scroll then dict_set "scroll" scroll params else params in
  let params := if truthy scroll_id then dict_set "scrollId" scroll_id params else params in
  let limit := if negb (truthy limit) then VInt 4000 else limit in
  let params := dict_set "limit" limit params in
  let params := if truthy offset then dict_set "offset" offset params else params in
  let params := if truthy fields then dict_set "fields" fields params else params in
  (params, limit).

(** ['/data/{}/coverage'.format(dataset_id)] *)
Definition coverage_path (dataset_id : string) : string :=
  "/data/" ++ dataset_id ++ "/coverage".

(** A request of the session: the path and the payload. *)
Definition request : Type := (string * dict)%type.

(** [GsDataApi.get_coverage].  The session answers the requests with the
    bodies of [responses], in order; the result comes with the requests
    sent, and is [None] when the session has no body left for a request. *)
Fixpoint get_coverage (responses : list value) (dataset_id : string)
  (scroll scroll_id limit offset fields : value)
  : option (result value) * list request :=
  let '(params, limit) := coverage_params scroll scroll_id limit offset fields in
  let sent := (coverage_path dataset_id, params) in
  match responses with
  | [] => (None, [sent])
  | VDict body :: later =>
      match assoc "results" body with
      | Some results =>
          match len results with
          | Ok n =>
              if (0 <? n)%nat && is_some (assoc "scrollId" body) then
                let next :=
                  get_coverage later dataset_id DEFAULT_SCROLL
                    (dict_get "scrollId" body VNone) limit VNone VNone in
                (match fst next with
                 | Some (Done rest) => Some (of_outcome (add results rest))
                 | other => other
                 end, sent :: snd next)
              else (Some (Done results), [sent])
          | Raise e => (Some (Fail (Python e)), [sent])
          end
      | None => (Some (Fail (Python (KeyError "results"))), [sent])
      end
  | _ :: _ => (Some (Fail (Python TypeError)), [sent])
  end.

(** The body of a page of coverage that has a continuation: the results
    and the scroll id. *)
Definition page_body (page : list value * string) : value :=
  VDict [("results", VList (fst page)); ("scrollId", VStr (snd page))].

(** The body of the last page: the results, and no scroll id. *)
Definition last_body (results : list value) : value :=
  VDict [("results", VList results)].

End GsDataApi.

(** * Properties *)

(** ** Dictionaries and fields *)

Lemma assoc_dict_set_same {A} (k : string) (v : A) (l : list (string * A)) :
  assoc k (dict_set k v l) = Some v.
Proof.
  induction l as [|[k' v'] r IH]; simpl.
  - now rewrite String.eqb_refl.
  - destruct (String.eqb k k') eqn:Hk; simpl.
    + now rewrite String.eqb_refl.
    + now rewrite Hk.
Qed.

Lemma assoc_dict_set_other {A} (k p : string) (v : A) (l : list (string * A)) :
  p <> k -> assoc p (dict_set k v l) = assoc p l.
Proof.
  intros Hne. induction l as [|[k' v'] r IH]; simpl.
  - destruct (String.eqb p k) eqn:Hp; [apply String.eqb_eq in Hp; contradiction | reflexivity].
  - destruct (String.eqb k k') eqn:Hk; simpl.
    + apply String.eqb_eq in Hk. subst k'.
      destruct (String.eqb p k) eqn:Hp; [apply String.eqb_eq in Hp; contradiction | reflexivity].
    + destruct (String.eqb p k'); [reflexivity | exact IH].
Qed.

Lemma getattr_dict_set_same (k : string) (v : value) f :
  getattr (dict_set k v f) k = v.
Proof. unfold getattr. now rewrite assoc_dict_set_same. Qed.

Lemma getattr_dict_set_other (k p : string) (v : value) f :
  p <> k -> getattr (dict_set k v f) p = getattr f p.
Proof. intros H. unfold getattr. now rewrite assoc_dict_set_other. Qed.

Lemma mem_In (s : string) (l : list string) : mem s l = true <-> In s l.
Proof.
  unfold mem. rewrite List.existsb_exists. split.
  - intros [x [Hx He]]. apply String.eqb_eq in He. now subst.
  - intros H. exists s. split; [exact H | apply String.eqb_refl].
Qed.

Lemma mem_false_not_In (s : string) (l : list string) : mem s l = false <-> ~ In s l.
Proof.
  rewrite <- mem_In. destruct (mem s l); split; intro H; try reflexivity;
    try discriminate; exfalso; now apply H.
Qed.

(** ** Polymorphic construction *)

(** C2: on the dictionary of Scenario 1, [Instrument.from_dict] raises
    [KeyError('asset_class')], whatever the registry holds: it pops the
    discriminant under its canonical key only, and the payload carries it
    as [assetClass]. *)
Theorem scenario1_raises_KeyError :
  forall L E nested log,
    Instrument_from_dict L E nested scenario1 log
    = (Raise (KeyError "asset_class"), log).
Proof. reflexivity. Qed.

(** With the discriminant spelled [asset_class] the same payload resolves
    to [Swap], and the wire-spelled [fixedRate] sets [fixed_rate]. *)
Example scenario1_canonical_resolves :
  exists o rest,
    from_dict 1 Sample.runtime Sample.program Sample.Swap scenario1_canonical []
    = (Ok (VObj "Swap" o None, rest), [])
    /\ getattr o "fixed_rate" = VFloat (1 # 100).
Proof. eexists. eexists. split; [vm_compute; reflexivity | reflexivity]. Qed.

(** C3: on a non-empty dictionary with an unregistered discriminant given
    under the wire key [assetClass], [Instrument.from_dict] raises
    [KeyError('asset_class')] instead of falling back. *)
Theorem unknown_payload_raises_KeyError :
  forall L E nested log,
    Instrument_from_dict L E nested unknown_payload log
    = (Raise (KeyError "asset_class"), log).
Proof. reflexivity. Qed.

(** When both discriminants are present under their canonical keys and
    their pair is not registered, [Instrument.from_dict] is
    [Security.from_dict] on what is left of the dictionary. *)
Lemma Instrument_from_dict_fallback :
  forall L E nested d a t ac ty log log1 log2,
    d <> [] ->
    assoc "asset_class" d = Some a ->
    assoc "type" (remove_key "asset_class" d) = Some t ->
    get_enum_value E (env_AssetClass E) a log = (Ok ac, log1) ->
    get_enum_value E (env_AssetType E) t log1 = (Ok ty, log2) ->
    registry_get L E (asset_class_and_type_to_instrument E) (ac, ty) = Ok None ->
    Instrument_from_dict L E nested (VDict d) log
    = env_security_from_dict E
        (VDict (remove_key "type" (remove_key "asset_class" d))) log2.
Proof.
  intros L E nested d a t ac ty log log1 log2 Hd Ha Ht Hac Hty Hreg.
  unfold Instrument_from_dict.
  destruct d as [|kv d']; [contradiction|].
  cbn [truthy length Nat.eqb negb].
  unfold bind, lift, pop, dict_pop. rewrite Ha. cbn [obind fst snd].
  rewrite Hac. rewrite Ht. cbn [obind fst snd]. rewrite Hty.
  rewrite Hreg. reflexivity.
Qed.

(** When their pair is registered, [Instrument.from_dict] is [_from_dict]
    of the registered class on what is left of the dictionary. *)
Lemma Instrument_from_dict_registered :
  forall L E nested d a t ac ty c cd log log1 log2,
    d <> [] ->
    assoc "asset_class" d = Some a ->
    assoc "type" (remove_key "asset_class" d) = Some t ->
    get_enum_value E (env_AssetClass E) a log = (Ok ac, log1) ->
    get_enum_value E (env_AssetType E) t log1 = (Ok ty, log2) ->
    registry_get L E (asset_class_and_type_to_instrument E) (ac, ty) = Ok (Some c) ->
    find_class E c = Some cd ->
    Instrument_from_dict L E nested (VDict d) log
    = _from_dict L E nested cd
        (VDict (remove_key "type" (remove_key "asset_class" d))) log2.
Proof.
  intros L E nested d a t ac ty c cd log log1 log2 Hd Ha Ht Hac Hty Hreg Hcd.
  unfold Instrument_from_dict.
  destruct d as [|kv d']; [contradiction|].
  cbn [truthy length Nat.eqb negb].
  unfold bind, lift, pop, dict_pop. rewrite Ha. cbn [obind fst snd].
  rewrite Hac. rewrite Ht. cbn [obind fst snd]. rewrite Hty.
  rewrite Hreg, Hcd. reflexivity.
Qed.

Example unknown_discriminant_falls_back :
  from_dict 1 Sample.runtime Sample.program Sample.Swap
    (VDict [("asset_class", VStr "Weather"); ("type", VStr "Rainfall");
            ("station", VStr "KNYC")]) []
  = (Ok (VObj "Security" [] None, VDict [("station", VStr "KNYC")]),
     [(VStr "Weather", "AssetClass"); (VStr "Rainfall", "AssetType")]).
Proof. vm_compute. reflexivity. Qed.

(** C10: [Instrument.from_dict] on the empty dictionary returns [None]; it
    neither constructs an object nor raises, and logs nothing.  The same
    holds for [None] in place of the dictionary. *)
Theorem Instrument_from_dict_empty :
  forall L E nested log,
    Instrument_from_dict L E nested (VDict []) log = (Ok (VNone, VDict []), log)
    /\ Instrument_from_dict L E nested VNone log = (Ok (VNone, VNone), log).
Proof. intros. split; reflexivity. Qed.

(** ** Enum coercion *)

Lemma find_exact_member (E : env) (ms : list (string * string)) (s : string) :
  List.find (fun m => py_eq E (snd m) (VStr s))
            (List.map (fun m => (fst m, VStr (snd m))) ms)
  = option_map (fun m => (fst m, VStr (snd m)))
               (List.find (fun m => String.eqb (snd m) s) ms).
Proof.
  induction ms as [|[n v] r IH]; simpl; [reflexivity|].
  destruct (String.eqb v s); [reflexivity | exact IH].
Qed.

Lemma _missing_string_members (ms : list (string * string)) (s : string) :
  _missing_ (List.map (fun m => (fst m, VStr (snd m))) ms) (VStr s)
  = Ok (option_map fst
          (List.find (fun m => String.eqb (Str.lower (snd m)) (Str.lower s)) ms)).
Proof.
  induction ms as [|[n v] r IH]; simpl; [reflexivity|].
  destruct (String.eqb (Str.lower v) (Str.lower s)); [reflexivity | exact IH].
Qed.

(** C4 (as amended): for an enum whose member values are strings,
    [get_enum_value] never raises on [None], on a member of the enum or on
    a string.  [None] and the string ['None'] give [None] and log nothing;
    a member is returned as it is; any other string gives the member with
    exactly that value, else the first member whose value is the same in
    lower case, else the string itself with one warning logged. *)
Theorem get_enum_value_on_strings :
  forall (E : env) (name : string) (ms : list (string * string)) (log : list warning),
    get_enum_value E (string_enum name ms) VNone log = (Ok VNone, log)
    /\ (forall m, get_enum_value E (string_enum name ms) (VEnum name m) log
                  = (Ok (VEnum name m), log))
    /\ (forall s,
          get_enum_value E (string_enum name ms) (VStr s) log
          = if String.eqb s "None" then (Ok VNone, log)
            else match List.find (fun m => String.eqb (snd m) s) ms with
                 | Some m => (Ok (VEnum name (fst m)), log)
                 | None =>
                     match List.find
                             (fun m => String.eqb (Str.lower (snd m)) (Str.lower s)) ms with
                     | Some m => (Ok (VEnum name (fst m)), log)
                     | None => (Ok (VStr s), log ++ [(VStr s, name)])
                     end
                 end).
Proof.
  intros E name ms log. split; [reflexivity | split].
  - intros m. unfold get_enum_value. cbn [py_eq orb is_member string_enum en_name].
    now rewrite String.eqb_refl.
  - intros s. unfold get_enum_value. cbn [py_eq orb is_member].
    destruct (String.eqb s "None"); [reflexivity|].
    unfold enum_call, string_enum. cbn [en_members en_name].
    rewrite find_exact_member, _missing_string_members.
    destruct (List.find (fun m => String.eqb (snd m) s) ms) as [[n v]|]; [reflexivity|].
    cbn [option_map].
    destruct (List.find (fun m => String.eqb (Str.lower (snd m)) (Str.lower s)) ms)
      as [[n v]|]; reflexivity.
Qed.

(** C4, as stated, fails: the string ['None'] matches no member of
    [PayReceive], yet it is not returned unchanged and no warning is
    logged; and an [int] that matches no member makes [_missing_] raise
    [AttributeError], which [get_enum_value] does not catch. *)
Lemma get_enum_value_not_always_raw :
  get_enum_value Sample.program Sample.PayReceive (VStr "None") [] = (Ok VNone, [])
  /\ enum_call Sample.program Sample.PayReceive (VStr "None")
     = Raise (ValueError "not a valid member")
  /\ get_enum_value Sample.program Sample.PayReceive (VInt 5) []
     = (Raise AttributeError, []).
Proof. repeat split; reflexivity. Qed.

(** Scenario 4: an unknown string is assigned verbatim, with a warning. *)
Example scenario4 :
  get_enum_value Sample.program Sample.PayReceive (VStr "SomeFutureValue") []
  = (Ok (VStr "SomeFutureValue"), [(VStr "SomeFutureValue", "PayReceive")]).
Proof. reflexivity. Qed.

(** ** Date-time coercion *)

Lemma append_assoc (a b c : string) : ((a ++ b) ++ c)%string = (a ++ (b ++ c))%string.
Proof. induction a as [|x a IH]; simpl; [reflexivity | now rewrite IH]. Qed.










(** ** Both spellings of a field *)





(** ** [clone] *)

Lemma nth_error_heap_update_other (a b : nat) (f : value -> value) (hp : heap) :
  a <> b -> nth_error (heap_update a f hp) b = nth_error hp b.
Proof.
  revert a b. induction hp as [|o r IH]; intros a b Hne.
  - destruct a; reflexivity.
  - destruct a as [|a], b as [|b]; simpl; try reflexivity.
    + congruence.
    + apply IH. congruence.
Qed.

Lemma nth_error_heap_update_same (a : nat) (f : value -> value) (hp : heap) (o : value) :
  nth_error hp a = Some o -> nth_error (heap_update a f hp) a = Some (f o).
Proof.
  revert a. induction hp as [|x r IH]; intros [|a] H; simpl in *; try discriminate.
  - now inversion H.
  - now apply IH.
Qed.

Lemma clone_loop_frame (E : env) (props : list string) (kwargs : dict) (a b : nat) :
  a <> b ->
  forall hp, nth_error (snd (clone_loop E props kwargs a hp)) b = nth_error hp b.
Proof.
  intros Hne. induction kwargs as [|[k v] r IH]; intros hp; simpl; [reflexivity|].
  destruct (mem k props); [|reflexivity].
  rewrite IH. now apply nth_error_heap_update_other.
Qed.

Lemma clone_loop_invalid (E : env) (props : list string) (kwargs : dict) (a : nat) :
  (exists k, In k (keys kwargs) /\ mem k props = false) ->
  forall hp,
    fst (clone_loop E props kwargs a hp)
    = Raise (ValueError "Only properties may be passed as kwargs").
Proof.
  induction kwargs as [|[k v] r IH]; intros [k0 [Hin Hk0]] hp.
  - contradiction.
  - simpl. destruct (mem k props) eqn:Hk; [|reflexivity].
    apply IH. exists k0. split; [|exact Hk0].
    destruct Hin as [Heq | Hin]; [|exact Hin].
    cbn [fst] in Heq. subst k0. congruence.
Qed.

(** C9 (as amended): [clone] with a key that is not the name of a
    property, and so with the wire spelling of one, raises [ValueError];
    [clone] with one property under its canonical name returns a new
    object at a fresh address whose field of that name is the override,
    whose other fields are those of the original and whose cached hash is
    cleared; and in every case each object the heap held before, the
    original among them, is left as it was. *)
Theorem clone_spec :
  forall (E : env) (hp : heap) (self : nat) (c : string) f h,
    nth_error hp self = Some (VObj c f h) ->
    (forall kwargs,
        (exists k, In k (keys kwargs) /\ mem k (properties E c) = false) ->
        fst (clone E hp self kwargs)
        = Raise (ValueError "Only properties may be passed as kwargs"))
    /\ (forall key v,
          mem key (properties E c) = true ->
          exists f',
            clone E hp self [(key, v)] = (Ok (length hp), hp ++ [VObj c f' None])
            /\ getattr f' key = v
            /\ (forall p, p <> key -> getattr f' p = getattr f p))
    /\ (forall kwargs a,
          a < length hp ->
          nth_error (snd (clone E hp self kwargs)) a = nth_error hp a).
Proof.
  intros E hp self c f h Hself. repeat split.
  - intros kwargs Hbad. unfold clone. rewrite Hself.
    pose proof (clone_loop_invalid E (properties E c) kwargs (length hp) Hbad
                  (hp ++ [VObj c f h])) as Hr.
    destruct (clone_loop E (properties E c) kwargs (length hp) (hp ++ [VObj c f h]))
      as [[u|e] hp']; cbn [fst] in *; [discriminate | now inversion Hr].
  - intros key v Hkey. exists (dict_set key v f). repeat split.
    + unfold clone. rewrite Hself. cbn [clone_loop]. rewrite Hkey.
      assert (Hupd : heap_update (length hp)
                       (fun o => Base__setattr__ E o key v) (hp ++ [VObj c f h])
                     = hp ++ [VObj c (dict_set key v f) None]).
      { clear Hself. induction hp as [|x r IH]; simpl.
        - unfold Base__setattr__, object__setattr__. rewrite Hkey.
          cbn [negb]. rewrite Bool.andb_false_r. reflexivity.
        - now rewrite IH. }
      rewrite Hupd. reflexivity.
    + apply getattr_dict_set_same.
    + intros p Hp. now apply getattr_dict_set_other.
  - intros kwargs a Ha. unfold clone. rewrite Hself.
    pose proof (clone_loop_frame E (properties E c) kwargs (length hp) a
                  ltac:(lia) (hp ++ [VObj c f h])) as Hr.
    destruct (clone_loop E (properties E c) kwargs (length hp) (hp ++ [VObj c f h]))
      as [[u|e] hp']; cbn [snd] in *; rewrite Hr; now apply nth_error_app1.
Qed.

(** Scenario 3 on a [Swap] holding a cached hash: [notAField] is refused,
    [fixed_rate] is overridden in the copy, and the original keeps its
    fields and its hash. *)
Lemma clone_spec_witness :
  let swap := VObj "Swap" [("fixed_rate", VFloat (1 # 100));
                           ("notional_amount", VInt 1000000);
                           ("pay_or_receive", VEnum "PayReceive" "Pay")] (Some 42%Z) in
  fst (clone Sample.program [swap] 0 [("notAField", VInt 1)])
  = Raise (ValueError "Only properties may be passed as kwargs")
  /\ clone Sample.program [swap] 0 [("fixed_rate", VFloat (2 # 100))]
     = (Ok 1, [swap; VObj "Swap" [("fixed_rate", VFloat (2 # 100));
                                  ("notional_amount", VInt 1000000);
                                  ("pay_or_receive", VEnum "PayReceive" "Pay")] None])
  /\ nth_error (snd (clone Sample.program [swap] 0 [("fixed_rate", VFloat (2 # 100))])) 0
     = Some swap.
Proof.
  intro swap.
  pose proof (clone_spec Sample.program [swap] 0 "Swap" _ _ eq_refl) as [Hbad [_ Hframe]].
  split; [|split].
  - apply Hbad. exists "notAField". split; [simpl; tauto | reflexivity].
  - reflexivity.
  - apply (Hframe [("fixed_rate", VFloat (2 # 100))] 0). simpl. lia.
Defined.

(** C9, as stated, fails: the wire spelling [fixedRate] of the declared
    field [fixed_rate] is refused like any name that is not a property. *)
Lemma clone_refuses_wire_spelling :
  mem "fixed_rate" (properties Sample.program "Swap") = true
  /\ Inflection.underscore "fixedRate" = "fixed_rate"
  /\ fst (clone Sample.program
            [VObj "Swap" [("fixed_rate", VFloat (1 # 100));
                          ("notional_amount", VInt 1000000);
                          ("pay_or_receive", VEnum "PayReceive" "Pay")] None]
            0 [("fixedRate", VFloat (2 # 100))])
     = Raise (ValueError "Only properties may be passed as kwargs").
Proof. repeat split; reflexivity. Qed.

(** ** Required arguments in [_from_dict] *)

Lemma assoc_remove_key_other {A} (k p : string) (l : list (string * A)) :
  p <> k -> assoc p (remove_key k l) = assoc p l.
Proof.
  intros Hne. induction l as [|[k' v] r IH]; simpl; [reflexivity|].
  destruct (String.eqb k k') eqn:Hk; simpl.
  - apply String.eqb_eq in Hk. subst k'.
    destruct (String.eqb p k) eqn:Hp; [apply String.eqb_eq in Hp; contradiction | reflexivity].
  - destruct (String.eqb p k'); [reflexivity | exact IH].
Qed.

Lemma remove_key_absent {A} (k : string) (l : list (string * A)) :
  assoc k l = None -> remove_key k l = l.
Proof.
  induction l as [|[k' v] r IH]; simpl; [reflexivity|].
  destruct (String.eqb k k'); [discriminate|]. intros H. now rewrite IH.
Qed.

Lemma coerce_required_None E nested (pt : option pyclass) (log : list warning) :
  coerce_required E nested pt VNone log = (Ok VNone, log).
Proof. destruct pt as [[| |ed|c| | |n]|]; reflexivity. Qed.

Lemma collect_required_absent E nested cd (d : dict) :
  forall args required log,
    (forall a, In a args -> assoc a d = None) ->
    (forall a, In a args -> exists pt, prop_type cd (prop_name_of a) = Ok pt) ->
    collect_required E nested cd args required (VDict d) log
    = (Ok (fold_left (fun r a => dict_set a VNone r) args required, VDict d), log).
Proof.
  induction args as [|a r IH]; intros required log Habs Hty; [reflexivity|].
  cbn [collect_required fold_left].
  destruct (Hty a (or_introl eq_refl)) as [pt Hpt].
  unfold bind at 1. unfold lift at 1. rewrite Hpt.
  unfold bind at 1. unfold lift at 1. cbn [pop_default].
  unfold dict_pop_default, dict_get. rewrite (Habs a (or_introl eq_refl)).
  rewrite (remove_key_absent a d (Habs a (or_introl eq_refl))). cbn [fst snd].
  unfold bind at 1. rewrite coerce_required_None.
  apply IH; intros b Hb; [apply Habs | apply Hty]; now right.
Qed.





(** ** Equality and hash *)

Lemma field_hash_getattr (H : hasher) (E : env) (p : string) f :
  field_hash (py_hash H E) (hash_none H) p f = py_hash H E (getattr f p).
Proof.
  unfold getattr. induction f as [|[k v] r IH]; simpl; [reflexivity|].
  destruct (String.eqb p k); [reflexivity | exact IH].
Qed.

Lemma py_eq_None_l (E : env) (w : value) :
  py_eq E VNone w = match w with VNone => true | _ => false end.
Proof. destruct w; reflexivity. Qed.

Lemma field_eqb_getattr (E : env) (p : string) f (w : value) :
  field_eqb (py_eq E) p f w = py_eq E (getattr f p) w.
Proof.
  unfold getattr. induction f as [|[k v] r IH]; simpl.
  - destruct w; reflexivity.
  - destruct (String.eqb p k); [reflexivity | exact IH].
Qed.

(** On objects, [==] is [Base.__eq__]. *)
Lemma py_eq_objects (E : env) (c c' : string) f f' h h' :
  py_eq E (VObj c f h) (VObj c' f' h') = Base__eq__ E (VObj c f h) (VObj c' f' h').
Proof.
  cbn [py_eq Base__eq__]. f_equal.
  induction (properties E c) as [|p r IH]; simpl; [reflexivity|].
  now rewrite field_eqb_getattr, IH.
Qed.

Lemma xor_fields_ext (fh fh' : string -> outcome Z) (props : list string) :
  (forall p, In p props -> fh p = fh' p) ->
  forall start, xor_fields fh props start = xor_fields fh' props start.
Proof.
  unfold xor_fields. induction props as [|p r IH]; intros Hext start; [reflexivity|].
  assert (Hgen : forall acc,
             fold_left (fun acc p => obind acc (fun a => obind (fh p) (fun h => Ok (Z.lxor a h))))
                       (p :: r) acc
             = fold_left (fun acc p => obind acc (fun a => obind (fh' p) (fun h => Ok (Z.lxor a h))))
                         (p :: r) acc).
  { clear start. revert Hext. generalize (p :: r). clear.
    induction l as [|q l IHl]; intros Hext acc; [reflexivity|].
    cbn [fold_left]. rewrite (Hext q (or_introl eq_refl)).
    apply IHl. intros x Hx. apply Hext. now right. }
  apply Hgen.
Qed.

Lemma calc_hash_ext (fh fh' : string -> outcome Z) (props : list string) :
  (forall p, In p props -> fh p = fh' p) ->
  calc_hash fh props = calc_hash fh' props.
Proof.
  destruct props as [|p r]; intros Hext; [reflexivity|].
  cbn [calc_hash]. rewrite (Hext p (or_introl eq_refl)).
  destruct (match p with EmptyString => Ok 1%Z | String _ _ => fh' p end); [|reflexivity].
  cbn [obind]. apply xor_fields_ext. intros x Hx. apply Hext. now right.
Qed.

(** Under the invariant the hash of an object is the hash of its fields,
    cached or not. *)
Lemma py_hash_coherent_object (H : hasher) (E : env) (c : string) f h :
  coherent H E (VObj c f h) = true ->
  py_hash H E (VObj c f h)
  = obind (calc_hash (fun p => py_hash H E (getattr f p)) (properties E c))
          (fun x => Ok (hash_result x)).
Proof.
  intros Hco. cbn [coherent] in Hco. apply andb_prop in Hco. destruct Hco as [_ Hh].
  cbn [py_hash].
  rewrite (calc_hash_ext _ (fun p => py_hash H E (getattr f p)))
    by (intros; apply field_hash_getattr).
  destruct h as [x|]; [|reflexivity].
  destruct (calc_hash (fun p => py_hash H E (getattr f p)) (properties E c)) as [y|e];
    [|discriminate].
  apply Z.eqb_eq in Hh. subst y. reflexivity.
Qed.

Lemma Base_hash_coherent (H : hasher) (E : env) (c : string) f h :
  coherent H E (VObj c f h) = true ->
  hash_of (Base__hash__ H E (VObj c f h))
  = calc_hash (fun p => py_hash H E (getattr f p)) (properties E c).
Proof.
  intros Hco. cbn [coherent] in Hco. apply andb_prop in Hco. destruct Hco as [_ Hh].
  unfold hash_of. cbn [Base__hash__].
  destruct h as [x|].
  - destruct (calc_hash (fun p => py_hash H E (getattr f p)) (properties E c)) as [y|e];
      [|discriminate].
    apply Z.eqb_eq in Hh. subst y. reflexivity.
  - destruct (calc_hash (fun p => py_hash H E (getattr f p)) (properties E c));
      reflexivity.
Qed.

Lemma coherent_getattr (H : hasher) (E : env) f (p : string) :
  List.forallb (fun kv => coherent H E (snd kv)) f = true ->
  coherent H E (getattr f p) = true.
Proof.
  unfold getattr. induction f as [|[k v] r IH]; simpl; intros Hf; [reflexivity|].
  apply andb_prop in Hf. destruct Hf as [Hv Hr].
  destruct (String.eqb p k); [exact Hv | now apply IH].
Qed.

Lemma Forall_getattr (P : value -> Prop) f (p : string) :
  P VNone -> Forall (fun kv => P (snd kv)) f -> P (getattr f p).
Proof.
  intros Hn Hf. unfold getattr. induction Hf as [|[k v] r Hv Hr IH]; simpl; [exact Hn|].
  destruct (String.eqb p k); [exact Hv | exact IH].
Qed.

Lemma numeric_hash (H : hasher) (E : env) (v : value) (q : Q) :
  num_of v = Some q -> py_hash H E v = Ok (hash_num H (Qred q)).
Proof. destruct v; simpl; intros Hq; inversion Hq; reflexivity. Qed.

Lemma numeric_eq_hash (H : hasher) (E : env) (v w : value) (q : Q) :
  num_of v = Some q ->
  match num_of w with Some r => Qeq_bool q r | None => false end = true ->
  py_hash H E v = py_hash H E w.
Proof.
  intros Hv Hw. destruct (num_of w) as [r|] eqn:Hr; [|discriminate].
  rewrite (numeric_hash H E v q Hv), (numeric_hash H E w r Hr).
  apply Qeq_bool_eq in Hw. now rewrite (Qred_complete _ _ Hw).
Qed.

Lemma hash_items_eq (H : hasher) (E : env) (xs : list value) :
  Forall (fun v => forall w, coherent H E v = true -> coherent H E w = true ->
                             py_eq E v w = true -> py_hash H E v = py_hash H E w) xs ->
  forall ys,
    List.forallb (coherent H E) xs = true ->
    List.forallb (coherent H E) ys = true ->
    list_eqb (py_eq E) xs ys = true ->
    hash_items (py_hash H E) xs = hash_items (py_hash H E) ys.
Proof.
  induction 1 as [|x xs Hx Hxs IH]; intros [|y ys] Hcx Hcy Heq; simpl in *;
    try discriminate; [reflexivity|].
  apply andb_prop in Hcx, Hcy, Heq.
  destruct Hcx as [Hcx Hcxs], Hcy as [Hcy Hcys], Heq as [Heq Heqs].
  rewrite (Hx y Hcx Hcy Heq), (IH ys Hcxs Hcys Heqs). reflexivity.
Qed.

(** Values that compare equal hash alike (so do those that cannot be
    hashed: both raise [TypeError]). *)
Lemma py_eq_hash (H : hasher) (E : env) :
  forall v w,
    coherent H E v = true -> coherent H E w = true ->
    py_eq E v w = true -> py_hash H E v = py_hash H E w.
Proof.
  induction v as [|b|n|q|s|d|d|e m|xs IH|xs IH|d IH|c f h IH] using value_nested_ind;
    intros w Hv Hw Heq.
  - destruct w; try discriminate. reflexivity.
  - apply (numeric_eq_hash H E (VBool b) w (if b then 1 else 0)%Q); [reflexivity|].
    destruct w; try discriminate; exact Heq.
  - apply (numeric_eq_hash H E (VInt n) w (inject_Z n)); [reflexivity|].
    destruct w; try discriminate; exact Heq.
  - apply (numeric_eq_hash H E (VFloat q) w q); [reflexivity|].
    destruct w; try discriminate; exact Heq.
  - destruct w; try discriminate. cbn in Heq. apply String.eqb_eq in Heq. now subst.
  - destruct w as [| | | | |d'| | | | | |]; try discriminate. cbn in Heq.
    unfold datetime_eqb in Heq. apply andb_prop in Heq. destruct Heq as [Hus Htz].
    apply Z.eqb_eq in Hus. apply Bool.eqb_prop in Htz. cbn [py_hash]. now rewrite Hus, Htz.
  - destruct w; try discriminate. cbn in Heq. apply Z.eqb_eq in Heq. now subst.
  - destruct w; try discriminate. cbn in Heq. apply andb_prop in Heq.
    destruct Heq as [_ Hm]. apply String.eqb_eq in Hm. now subst.
  - destruct w; try discriminate. reflexivity.
  - destruct w as [| | | | | | | | |ys| |]; try discriminate.
    cbn [py_eq coherent py_hash] in *.
    now rewrite (hash_items_eq H E xs IH ys Hv Hw Heq).
  - destruct w; try discriminate. reflexivity.
  - destruct w as [| | | | | | | | | | |c' f' h']; try discriminate.
    rewrite (py_hash_coherent_object H E c f h Hv).
    rewrite (py_hash_coherent_object H E c' f' h' Hw).
    cbn [py_eq] in Heq. apply andb_prop in Heq. destruct Heq as [Heq Hfields].
    apply andb_prop in Heq. destruct Heq as [Hc _].
    apply String.eqb_eq in Hc. subst c'.
    cbn [coherent] in Hv, Hw. apply andb_prop in Hv, Hw.
    destruct Hv as [Hfv _], Hw as [Hfw _].
    rewrite List.forallb_forall in Hfields.
    f_equal. apply calc_hash_ext. intros p Hp.
    specialize (Hfields p Hp). rewrite field_eqb_getattr in Hfields.
    apply (Forall_getattr
             (fun v => forall w, coherent H E v = true -> coherent H E w = true ->
                                 py_eq E v w = true -> py_hash H E v = py_hash H E w));
      try assumption.
    + intros w _ _ Hn. destruct w; try discriminate. reflexivity.
    + now apply coherent_getattr.
    + now apply coherent_getattr.
Qed.

Lemma xor_fields_all_ok (fh : string -> outcome Z) :
  forall props hs start,
    List.map fh props = List.map Ok hs ->
    xor_fields fh props start = Ok (fold_left Z.lxor hs start).
Proof.
  unfold xor_fields.
  induction props as [|p r IH]; intros [|h hs] start Hmap; simpl in *;
    try discriminate; [reflexivity|].
  inversion Hmap as [[Hp Hr]]. rewrite Hp. cbn [obind]. now apply IH.
Qed.

Lemma calc_hash_xor (fh : string -> outcome Z) (props : list string) (hs : list Z) :
  ~ In EmptyString props ->
  List.map fh props = List.map Ok hs ->
  calc_hash fh props = Ok (xor_all hs).
Proof.
  destruct props as [|p r]; intros Hne Hmap; destruct hs as [|h0 hs];
    simpl in *; try discriminate; [reflexivity|].
  inversion Hmap as [[Hp Hr]].
  destruct p as [|x p]; [exfalso; apply Hne; now left|].
  rewrite Hp. cbn [obind]. now apply xor_fields_all_ok.
Qed.

(** C8 (as amended): two objects whose cached hashes are current, at every
    depth, and that [Base.__eq__] finds equal have the same [__hash__],
    and so the same [hash]; and the [__hash__] of an object with no cached
    hash is the XOR, in the order of the property list, of the hashes of
    its fields, and 1 when it has no property. *)
Theorem equal_objects_hash_alike :
  forall (H : hasher) (E : env) (a b : value),
    coherent H E a = true ->
    coherent H E b = true ->
    Base__eq__ E a b = true ->
    hash_of (Base__hash__ H E a) = hash_of (Base__hash__ H E b)
    /\ py_hash H E a = py_hash H E b
    /\ (forall c f hs,
          a = VObj c f None ->
          ~ In EmptyString (properties E c) ->
          List.map (fun p => py_hash H E (getattr f p)) (properties E c)
          = List.map Ok hs ->
          hash_of (Base__hash__ H E a) = Ok (xor_all hs)).
Proof.
  intros H E a b Ha Hb Heq.
  destruct a as [| | | | | | | | | | |c f h]; try discriminate.
  destruct b as [| | | | | | | | | | |c' f' h']; try discriminate.
  assert (Hpy : py_eq E (VObj c f h) (VObj c' f' h') = true)
    by now rewrite py_eq_objects.
  pose proof (py_eq_hash H E _ _ Ha Hb Hpy) as Hhash.
  split; [|split; [exact Hhash|]].
  - rewrite (Base_hash_coherent H E c f h Ha), (Base_hash_coherent H E c' f' h' Hb).
    cbn [Base__eq__] in Heq. apply andb_prop in Heq. destruct Heq as [Heq Hfields].
    apply andb_prop in Heq. destruct Heq as [Hc _].
    apply String.eqb_eq in Hc. subst c'.
    cbn [coherent] in Ha, Hb. apply andb_prop in Ha, Hb.
    destruct Ha as [Hfa _], Hb as [Hfb _].
    rewrite List.forallb_forall in Hfields.
    apply calc_hash_ext. intros p Hp.
    apply py_eq_hash; [now apply coherent_getattr | now apply coherent_getattr|].
    now apply Hfields.
  - intros c0 f0 hs Hobj Hne Hmap. inversion Hobj; subst.
    rewrite (Base_hash_coherent H E c0 f0 None Ha). now apply calc_hash_xor.
Qed.


Lemma forallb_dict_set (P : value -> bool) (k : string) (v : value) f :
  List.forallb (fun kv => P (snd kv)) f = true ->
  P v = true ->
  List.forallb (fun kv => P (snd kv)) (dict_set k v f) = true.
Proof.
  intros Hf Hv. induction f as [|[k' v'] r IH]; simpl in *.
  - now rewrite Hv.
  - apply andb_prop in Hf. destruct Hf as [Hv' Hr].
    destruct (String.eqb k k'); simpl.
    + now rewrite Hv, Hr.
    + now rewrite Hv', IH.
Qed.

Lemma setattr_keeps_coherent (H : hasher) (E : env) (o v : value) (key : string) :
  coherent H E o = true ->
  coherent H E v = true ->
  coherent H E (Base__setattr__ E o key v) = true.
Proof.
  intros Ho Hv. destruct o as [| | | | | | | | | | |c f h]; try exact Ho.
  assert (Hset : forall name,
             coherent H E (object__setattr__ E (VObj c f h) name v) = true).
  { intros name. unfold object__setattr__.
    cbn [coherent] in Ho. apply andb_prop in Ho. destruct Ho as [Hf Hh].
    destruct (mem name (properties E c)) eqn:Hname; cbn [_property_changed coherent].
    - rewrite (forallb_dict_set (coherent H E) name v f Hf Hv). reflexivity.
    - rewrite (forallb_dict_set (coherent H E) name v f Hf Hv). cbn [andb].
      destruct h as [x|]; [|reflexivity].
      rewrite (calc_hash_ext _ (fun p => py_hash H E (getattr f p))); [exact Hh|].
      intros p Hp. rewrite getattr_dict_set_other; [reflexivity|].
      intros ->. apply mem_In in Hp. congruence. }
  unfold Base__setattr__.
  destruct (mem (Inflection.underscore key) (properties E c) && negb (mem key (properties E c)));
    apply Hset.
Qed.

Lemma forallb_assoc (P : value -> bool) (k : string) (v : value) (l : dict) :
  List.forallb (fun kv => P (snd kv)) l = true -> assoc k l = Some v -> P v = true.
Proof.
  induction l as [|[k' v'] r IH]; simpl; [discriminate|].
  intros Hl Hk. apply andb_prop in Hl. destruct Hl as [Hv' Hr].
  destruct (String.eqb k k'); [now inversion Hk; subst | now apply IH].
Qed.

Lemma forallb_remove_key (P : value -> bool) (k : string) (l : dict) :
  List.forallb (fun kv => P (snd kv)) l = true ->
  List.forallb (fun kv => P (snd kv)) (remove_key k l) = true.
Proof.
  induction l as [|[k' v'] r IH]; simpl; [reflexivity|].
  intros Hl. apply andb_prop in Hl. destruct Hl as [Hv' Hr].
  destruct (String.eqb k k'); [exact Hr|]. simpl. now rewrite Hv', IH.
Qed.

Lemma normalise_kwargs_keeps (P : value -> bool) (kwargs : dict) :
  forall todo acc n,
    normalise_kwargs kwargs todo acc = Ok n ->
    List.forallb (fun kv => P (snd kv)) todo = true ->
    List.forallb (fun kv => P (snd kv)) acc = true ->
    List.forallb (fun kv => P (snd kv)) n = true.
Proof.
  induction todo as [|[a v] r IH]; intros acc n Hn Htodo Hacc.
  - cbn in Hn. now inversion Hn; subst.
  - cbn [normalise_kwargs] in Hn. cbn [List.forallb snd] in Htodo.
    apply andb_prop in Htodo. destruct Htodo as [Hv Hr].
    destruct (negb (Str.isupper (_normalise_arg a))).
    + destruct (negb (String.eqb (Inflection.underscore (_normalise_arg a))
                                 (_normalise_arg a))).
      * destruct (mem (Inflection.underscore (_normalise_arg a)) (keys kwargs));
          [discriminate|].
        apply (IH _ _ Hn Hr). now apply forallb_dict_set.
      * apply (IH _ _ Hn Hr). now apply forallb_dict_set.
    + apply (IH _ _ Hn Hr). now apply forallb_dict_set.
Qed.

Lemma bind_params_keeps (P : value -> bool) :
  forall params kwargs bound,
    bind_params params kwargs = Ok bound ->
    List.forallb (fun kv => P (snd kv)) kwargs = true ->
    (forall p d, In p params -> p_default p = Some d -> P d = true) ->
    List.forallb (fun kv => P (snd kv)) bound = true.
Proof.
  induction params as [|p r IH]; intros kwargs bound Hb Hkw Hdef.
  - cbn in Hb. destruct kwargs; [now inversion Hb; subst | discriminate].
  - cbn [bind_params] in Hb.
    assert (Hdef' : forall q d, In q r -> p_default q = Some d -> P d = true)
      by (intros q d Hq; apply Hdef; now right).
    destruct (assoc (p_name p) kwargs) as [v|] eqn:Hv.
    + destruct (bind_params r (remove_key (p_name p) kwargs)) as [b|e] eqn:Hr;
        [|discriminate].
      cbn in Hb. inversion Hb; subst. cbn [List.forallb snd].
      rewrite (forallb_assoc P _ _ _ Hkw Hv).
      apply (IH _ _ Hr); [now apply forallb_remove_key | exact Hdef'].
    + destruct (p_default p) as [d|] eqn:Hd; [|discriminate].
      destruct (bind_params r kwargs) as [b|e] eqn:Hr; [|discriminate].
      cbn in Hb. inversion Hb; subst. cbn [List.forallb snd].
      rewrite (Hdef p d (or_introl eq_refl) Hd).
      now apply (IH _ _ Hr).
Qed.

(** An object the constructor builds from coherent arguments is coherent. *)
Lemma BaseMeta_call_coherent (H : hasher) (E : env) (cd : class_decl)
  (kwargs : dict) (o : value) :
  List.forallb (fun kv => coherent H E (snd kv)) kwargs = true ->
  (forall p d, In p (List.tl (cd_init cd)) -> p_default p = Some d ->
               coherent H E d = true) ->
  BaseMeta__call__ cd kwargs = Ok o ->
  coherent H E o = true.
Proof.
  intros Hkw Hdef Hcall. unfold BaseMeta__call__ in Hcall.
  destruct (normalise_kwargs kwargs kwargs []) as [n|e] eqn:Hn; [|discriminate].
  cbn [obind] in Hcall. unfold generated__init__ in Hcall.
  destruct (bind_params (List.tl (cd_init cd)) n) as [b|e] eqn:Hb; [|discriminate].
  cbn [obind] in Hcall. inversion Hcall; subst. clear Hcall. cbn [coherent].
  rewrite Bool.andb_true_r.
  pose proof (normalise_kwargs_keeps (coherent H E) kwargs kwargs [] n Hn Hkw eq_refl) as Hcn.
  pose proof (bind_params_keeps (coherent H E) _ _ _ Hb Hcn Hdef) as Hcb.
  assert (Hinit : forall props,
             List.forallb (fun kv => coherent H E (snd kv))
               (List.map (fun p : string => (p, VNone)) props) = true).
  { induction props as [|p r IH]; [reflexivity | exact IH]. }
  specialize (Hinit (properties_of cd)).
  revert Hinit. generalize (List.map (fun p : string => (p, VNone)) (properties_of cd)).
  clear Hb. induction b as [|[k v] r IH]; intros init Hinit; [exact Hinit|].
  cbn [List.forallb snd] in Hcb. apply andb_prop in Hcb. destruct Hcb as [Hv Hr].
  cbn [fold_left fst snd]. apply (IH Hr). now apply forallb_dict_set.
Qed.

Lemma equal_objects_hash_alike_witness :
  let fields := [("asset_id", VStr "SPX"); ("bid_price", VInt 1); ("side", VNone)] in
  let a := VObj "Quote" fields None in
  let b := VObj "Quote" fields (Some 292569%Z) in
  coherent Sample.hashes Sample.program a = true
  /\ coherent Sample.hashes Sample.program b = true
  /\ Base__eq__ Sample.program a b = true
  /\ hash_of (Base__hash__ Sample.hashes Sample.program a)
     = hash_of (Base__hash__ Sample.hashes Sample.program b)
  /\ hash_of (Base__hash__ Sample.hashes Sample.program a) = Ok 292569%Z.
Proof.
  intros fields a b.
  assert (Ha : coherent Sample.hashes Sample.program a = true) by reflexivity.
  assert (Hb : coherent Sample.hashes Sample.program b = true) by reflexivity.
  assert (Hab : Base__eq__ Sample.program a b = true) by reflexivity.
  destruct (equal_objects_hash_alike Sample.hashes Sample.program a b Ha Hb Hab)
    as [Hhash [_ Hxor]].
  split; [exact Ha | split; [exact Hb | split; [exact Hab | split; [exact Hhash|]]]].
  exact (Hxor "Quote" fields [hash_str Sample.hashes "SPX";
                              hash_num Sample.hashes (Qred (inject_Z 1));
                              hash_none Sample.hashes]
              eq_refl
              ltac:(simpl; intros [H|[H|[H|[]]]]; discriminate)
              eq_refl).
Defined.

(** C8, as stated, fails: a [Position] is hashed, which caches its hash;
    then a field of the quote it holds is assigned, which clears the cache
    of the quote only.  The position now equals a fresh position built
    with the new quote, and their hashes differ. *)
Lemma stale_hash_after_nested_assignment :
  let quote bid :=
    VObj "Quote" [("asset_id", VStr "SPX"); ("bid_price", VInt bid); ("side", VNone)] None in
  let position q h := VObj "Position" [("quantity", VInt 10); ("quote", q)] h in
  Base__hash__ Sample.hashes Sample.program (position (quote 1%Z) None)
  = Ok (292846%Z, position (quote 1%Z) (Some 292846%Z))
  /\ setattr_at Sample.program ["quote"] (position (quote 1%Z) (Some 292846%Z))
       "bid_price" (VInt 2)
     = position (quote 2%Z) (Some 292846%Z)
  /\ Base__eq__ Sample.program (position (quote 2%Z) (Some 292846%Z))
                          (position (quote 2%Z) None) = true
  /\ hash_of (Base__hash__ Sample.hashes Sample.program (position (quote 2%Z) (Some 292846%Z)))
     = Ok 292846%Z
  /\ hash_of (Base__hash__ Sample.hashes Sample.program (position (quote 2%Z) None))
     = Ok 292849%Z.
Proof. repeat split; reflexivity. Qed.

(** ** Round trip through [as_dict] and [from_dict] *)

Lemma keys_app {A} (l l' : list (string * A)) : keys (l ++ l') = keys l ++ keys l'.
Proof. unfold keys. apply List.map_app. Qed.

Lemma dict_set_fresh {A} (k : string) (v : A) (l : list (string * A)) :
  ~ In k (keys l) -> dict_set k v l = l ++ [(k, v)].
Proof.
  induction l as [|[k' v'] r IH]; simpl; intros Hk; [reflexivity|].
  destruct (String.eqb k k') eqn:He.
  - apply String.eqb_eq in He. exfalso. apply Hk. now left.
  - rewrite IH; [reflexivity|]. intros Hin. apply Hk. now right.
Qed.

Lemma fold_dict_set_distinct {A} (l acc : list (string * A)) :
  NoDup (keys (acc ++ l)) ->
  fold_left (fun d kv => dict_set (fst kv) (snd kv) d) l acc = acc ++ l.
Proof.
  revert acc. induction l as [|[k v] r IH]; intros acc Hnd; simpl.
  - now rewrite List.app_nil_r.
  - rewrite dict_set_fresh.
    + rewrite IH; rewrite <- List.app_assoc; [reflexivity | exact Hnd].
    + rewrite keys_app in Hnd. simpl in Hnd.
      apply List.NoDup_remove_2 in Hnd. intros Hin. apply Hnd.
      apply List.in_or_app. now left.
Qed.

Lemma dict_of_pairs_distinct {A} (l : list (string * A)) :
  NoDup (keys l) -> dict_of_pairs l = l.
Proof. intros Hnd. unfold dict_of_pairs. now rewrite fold_dict_set_distinct. Qed.

Lemma assoc_None_not_key {A} (k : string) (l : list (string * A)) :
  assoc k l = None <-> ~ In k (keys l).
Proof.
  induction l as [|[k' v] r IH]; simpl.
  - split; [intros _ [] | reflexivity].
  - destruct (String.eqb k k') eqn:He.
    + apply String.eqb_eq in He. split; [discriminate|]. intros H. exfalso. apply H. now left.
    + apply String.eqb_neq in He. rewrite IH. split.
      * intros H [Hk | Hk]; [congruence | contradiction].
      * intros H Hk. apply H. now right.
Qed.

Section Named.

Variable nm : string -> string.
Variable g : string -> value.

Lemma keys_entries (props : list string) : keys (entries nm g props) = List.map nm props.
Proof. unfold keys, entries. rewrite List.map_map. reflexivity. Qed.

Lemma assoc_entries (props : list string) (p : string) :
  (forall q, In q props -> nm q = nm p -> q = p) ->
  In p props ->
  assoc (nm p) (entries nm g props) = Some (g p).
Proof.
  induction props as [|q r IH]; intros Hinj Hin; [contradiction|].
  simpl. destruct (String.eqb (nm p) (nm q)) eqn:He.
  - apply String.eqb_eq in He. rewrite (Hinj q (or_introl eq_refl) (eq_sym He)). reflexivity.
  - destruct Hin as [-> | Hin]; [now rewrite String.eqb_refl in He|].
    apply IH; [|exact Hin]. intros x Hx. apply Hinj. now right.
Qed.

Lemma assoc_entries_None (props : list string) (k : string) :
  (forall q, In q props -> nm q <> k) -> assoc k (entries nm g props) = None.
Proof.
  intros H. apply assoc_None_not_key. rewrite keys_entries.
  intros Hin. apply List.in_map_iff in Hin. destruct Hin as [q [Hq Hin]].
  exact (H q Hin Hq).
Qed.

End Named.

Lemma camelize_all_defined (props : list string) :
  (forall p, In p props -> Inflection.camelize p <> None) ->
  camelize_all props = Ok (List.map wire_name props).
Proof.
  induction props as [|p r IH]; intros H; [reflexivity|].
  simpl. unfold wire_name at 1.
  destruct (Inflection.camelize p) eqn:Hp; [|exfalso; now apply (H p (or_introl eq_refl))].
  rewrite IH; [reflexivity|]. intros q Hq. apply H. now right.
Qed.

Lemma NoDup_map_injective {A B} (f : A -> B) (l : list A) :
  (forall x y, In x l -> In y l -> f x = f y -> x = y) ->
  NoDup l -> NoDup (List.map f l).
Proof.
  induction l as [|a r IH]; intros Hinj Hnd; simpl; [constructor|].
  inversion Hnd as [|? ? Ha Hr]; subst. constructor.
  - intros Hin. apply List.in_map_iff in Hin. destruct Hin as [x [Hx Hin]].
    apply Ha. rewrite <- (Hinj x a); [exact Hin | now right | now left | exact Hx].
  - apply IH; [|exact Hr]. intros x y Hx Hy. apply Hinj; now right.
Qed.




Lemma get_enum_value_member (E : env) (ed : enum_decl) (v : value) (log : list warning) :
  is_member ed v = true -> get_enum_value E ed v log = (Ok v, log).
Proof.
  intros Hm. destruct v; try discriminate.
  unfold get_enum_value. cbn [py_eq orb]. now rewrite Hm.
Qed.


Lemma coerce_required_passes E nested (cd : class_decl) (p : string) (v : value) pt log :
  prop_type cd p = Ok pt ->
  passes_through cd p v = true ->
  coerce_required E nested pt v log = (Ok v, log).
Proof.
  intros Hpt H. unfold passes_through in H. rewrite Hpt in H.
  apply andb_prop in H. destruct H as [_ H].
  destruct pt as [[| |ed|c| | |n]|]; try discriminate; cbn [coerce_required]; try reflexivity.
  - now apply get_enum_value_member.
  - destruct v; try discriminate. reflexivity.
Qed.

Lemma coerce_prop_passes L E nested (cd : class_decl) (p : string) (v : value) log :
  passes_through cd p v = true ->
  coerce_prop L E nested cd p v log = (Ok v, log).
Proof.
  intros H. unfold passes_through in H. apply andb_prop in H. destruct H as [_ H].
  unfold coerce_prop, bind, lift.
  destruct (prop_type cd p) as [[[| |ed|c| | |n]|]|e]; try discriminate; try reflexivity.
  - now apply get_enum_value_member.
  - destruct v; try discriminate. reflexivity.
  - destruct v as [| | | | | | | | |xs| |]; try discriminate.
    unfold coerce_items, bind, lift.
    destruct (prop_item_type cd p) as [h|e]; [|discriminate].
    destruct (resolve_item_type h) as [c|e]; [|discriminate].
    cbn [iterate]. destruct c; try discriminate; reflexivity.
  - destruct v as [| | | | | | | | |xs| |]; try discriminate.
    unfold coerce_items, bind, lift.
    destruct (prop_item_type cd p) as [h|e]; [|discriminate].
    destruct (resolve_item_type h) as [c|e]; [|discriminate].
    cbn [iterate]. destruct c; try discriminate; reflexivity.
Qed.

Lemma collect_required_passthrough E nested cd (val : string -> value) :
  forall args required (d : dict) log,
    NoDup args ->
    (forall a, In a args ->
       prop_name_of a = a
       /\ dict_get a d VNone = val a
       /\ exists pt, prop_type cd a = Ok pt
                     /\ forall log, coerce_required E nested pt (val a) log = (Ok (val a), log)) ->
    collect_required E nested cd args required (VDict d) log
    = (Ok (fold_left (fun r a => dict_set a (val a) r) args required,
           VDict (remove_keys args d)), log).
Proof.
  induction args as [|a r IH]; intros required d log Hnd Hargs; [reflexivity|].
  destruct (Hargs a (or_introl eq_refl)) as [Hname [Hval [pt [Hpt Hco]]]].
  inversion Hnd as [|? ? Hnotin Hnd']; subst.
  cbn [collect_required fold_left remove_keys]. rewrite Hname.
  unfold bind at 1. unfold lift at 1. rewrite Hpt.
  unfold bind at 1. unfold lift at 1. cbn [pop_default].
  unfold dict_pop_default. cbn [fst snd]. rewrite Hval.
  unfold bind at 1. rewrite Hco.
  apply IH; [exact Hnd'|].
  intros b Hb. destruct (Hargs b (or_intror Hb)) as [Hn [Hv Hrest]].
  split; [exact Hn | split; [|exact Hrest]].
  rewrite <- Hv. unfold dict_get. rewrite assoc_remove_key_other; [reflexivity|].
  intros ->. contradiction.
Qed.

Lemma fold_set_args (val : string -> value) :
  forall args acc,
    NoDup (keys acc ++ args) ->
    fold_left (fun r a => dict_set a (val a) r) args acc
    = acc ++ entries (fun a => a) val args.
Proof.
  induction args as [|a r IH]; intros acc Hnd; simpl.
  - now rewrite List.app_nil_r.
  - rewrite dict_set_fresh.
    + rewrite IH.
      * now rewrite <- List.app_assoc.
      * rewrite keys_app. simpl. now rewrite <- List.app_assoc.
    + apply List.NoDup_remove_2 in Hnd. intros Hin. apply Hnd.
      apply List.in_or_app. now left.
Qed.

Lemma normalise_kwargs_plain (kwargs : dict) :
  forall todo acc,
    (forall a, In a (keys todo) ->
       iskeyword a || mem a builtin_names = false /\ Inflection.underscore a = a) ->
    normalise_kwargs kwargs todo acc
    = Ok (fold_left (fun d kv => dict_set (fst kv) (snd kv) d) todo acc).
Proof.
  induction todo as [|[a v] r IH]; intros acc H; [reflexivity|].
  destruct (H a (or_introl eq_refl)) as [Hres Hsnake].
  cbn [normalise_kwargs fold_left fst snd]. unfold _normalise_arg. rewrite Hres, Hsnake.
  rewrite String.eqb_refl. cbn [negb].
  assert (Hr : forall b, In b (keys r) ->
                 iskeyword b || mem b builtin_names = false /\ Inflection.underscore b = b)
    by (intros b Hb; apply H; now right).
  destruct (negb (Str.isupper a)); now apply IH.
Qed.

Lemma keys_remove_key {A} (n k : string) (l : list (string * A)) :
  NoDup (keys l) ->
  (In k (keys (remove_key n l)) <-> In k (keys l) /\ k <> n).
Proof.
  induction l as [|[k' v] r IH]; intros Hnd; simpl.
  - tauto.
  - inversion Hnd as [|? ? Hk' Hr]; subst.
    destruct (String.eqb n k') eqn:He.
    + apply String.eqb_eq in He. subst k'. split.
      * intros Hin. split; [now right|]. intros ->. contradiction.
      * intros [[Hk | Hin] Hne]; [congruence | exact Hin].
    + apply String.eqb_neq in He. simpl. rewrite (IH Hr). split.
      * intros [Hk | [Hin Hne]]; [split; [now left | congruence] | tauto].
      * intros [[Hk | Hin] Hne]; [now left | right; tauto].
Qed.

Lemma NoDup_remove_key {A} (n : string) (l : list (string * A)) :
  NoDup (keys l) -> NoDup (keys (remove_key n l)).
Proof.
  induction l as [|[k' v] r IH]; intros Hnd; simpl; [constructor|].
  inversion Hnd as [|? ? Hk' Hr]; subst.
  destruct (String.eqb n k'); [exact Hr|].
  simpl. constructor; [|now apply IH].
  intros Hin. apply (keys_remove_key n k' r Hr) in Hin. tauto.
Qed.

Lemma bind_params_ok :
  forall params kwargs,
    NoDup (List.map p_name params) ->
    NoDup (keys kwargs) ->
    (forall k, In k (keys kwargs) -> In k (List.map p_name params)) ->
    (forall p, In p params -> assoc (p_name p) kwargs = None -> p_default p <> None) ->
    bind_params params kwargs
    = Ok (List.map (fun p => (p_name p, bound_value kwargs p)) params).
Proof.
  induction params as [|p r IH]; intros kwargs Hnames Hkeys Hsub Hdef.
  - destruct kwargs as [|[k v] kw]; [reflexivity|].
    exfalso. apply (Hsub k). now left.
  - inversion Hnames as [|? ? Hp Hr]; subst.
    cbn [bind_params List.map]. unfold bound_value at 1.
    destruct (assoc (p_name p) kwargs) as [v|] eqn:Hv.
    + rewrite (IH (remove_key (p_name p) kwargs)); try assumption.
      * cbn [obind]. do 2 f_equal. apply List.map_ext_in. intros q Hq.
        unfold bound_value. rewrite assoc_remove_key_other; [reflexivity|].
        intros Heq. apply Hp. rewrite <- Heq. now apply List.in_map.
      * now apply NoDup_remove_key.
      * intros k Hk. apply (keys_remove_key (p_name p) k kwargs Hkeys) in Hk.
        destruct Hk as [Hk Hne]. destruct (Hsub k Hk) as [Heq | Hin]; [congruence | exact Hin].
      * intros q Hq Hnone. apply Hdef; [now right|].
        rewrite assoc_remove_key_other in Hnone; [exact Hnone|].
        intros Heq. apply Hp. rewrite <- Heq. now apply List.in_map.
    + destruct (p_default p) as [d|] eqn:Hd.
      * rewrite (IH kwargs); try assumption; [reflexivity | |].
        -- intros k Hk. destruct (Hsub k Hk) as [Heq | Hin]; [|exact Hin].
           apply assoc_None_not_key in Hv. subst k. contradiction.
        -- intros q Hq. apply Hdef. now right.
      * exfalso. now apply (Hdef p (or_introl eq_refl) Hv).
Qed.

Lemma getattr_fold_set (bound : dict) :
  NoDup (keys bound) ->
  forall init x,
    getattr (fold_left (fun f av => dict_set (fst av) (snd av) f) bound init) x
    = match assoc x bound with
      | Some v => v
      | None => getattr init x
      end.
Proof.
  induction bound as [|[k v] r IH]; intros Hnd init x; [reflexivity|].
  inversion Hnd as [|? ? Hk Hr]; subst.
  cbn [fold_left fst snd assoc]. rewrite (IH Hr).
  destruct (String.eqb x k) eqn:He.
  - apply String.eqb_eq in He. subst x.
    apply assoc_None_not_key in Hk. rewrite Hk. apply getattr_dict_set_same.
  - apply String.eqb_neq in He. rewrite getattr_dict_set_other by exact He. reflexivity.
Qed.

Lemma required_args_regular (cd : class_decl) :
  regular cd ->
  required_args cd
  = List.map p_name
      (List.filter (fun p => negb (is_some (p_default p))) (List.tl (cd_init cd))).
Proof.
  intros Hreg. destruct (reg_self cd Hreg) as [rest Hinit].
  pose proof (reg_params cd Hreg) as Hparams. rewrite Hinit in Hparams |- *.
  unfold required_args. rewrite Hinit. cbn [List.filter p_name p_default is_some negb andb
                                            String.eqb Ascii.eqb Bool.eqb List.map List.tl].
  f_equal. apply List.filter_ext_in. intros p Hp.
  destruct (Hparams (p_name p) (List.in_map p_name _ _ Hp)) as [_ [_ [Hkw _]]].
  apply String.eqb_neq in Hkw. now rewrite Hkw.
Qed.

Lemma NoDup_map_filter {A B} (f : A -> B) (keep : A -> bool) (l : list A) :
  NoDup (List.map f l) -> NoDup (List.map f (List.filter keep l)).
Proof.
  induction l as [|a r IH]; intros Hnd; simpl; [constructor|].
  inversion Hnd as [|? ? Ha Hr]; subst.
  destruct (keep a); [|now apply IH].
  simpl. constructor; [|now apply IH].
  intros Hin. apply Ha. apply List.in_map_iff in Hin. destruct Hin as [x [Hx Hin]].
  apply List.filter_In in Hin. rewrite <- Hx. apply List.in_map. tauto.
Qed.

Lemma required_args_distinct (cd : class_decl) :
  regular cd -> NoDup (required_args cd).
Proof.
  intros Hreg. rewrite (required_args_regular cd Hreg).
  apply NoDup_map_filter. apply (reg_params_distinct cd Hreg).
Qed.

Lemma required_args_are_params (cd : class_decl) (a : string) :
  regular cd -> In a (required_args cd) ->
  In a (List.map p_name (List.tl (cd_init cd))).
Proof.
  intros Hreg Hin. rewrite (required_args_regular cd Hreg) in Hin.
  apply List.in_map_iff in Hin. destruct Hin as [p [Hp Hin]].
  apply List.filter_In in Hin. rewrite <- Hp. apply List.in_map. tauto.
Qed.

Lemma assoc_named {A} (h : param -> A) (params : list param) (p : param) :
  NoDup (List.map p_name params) ->
  In p params ->
  assoc (p_name p) (List.map (fun q => (p_name q, h q)) params) = Some (h p).
Proof.
  induction params as [|q r IH]; intros Hnd Hin; [contradiction|].
  inversion Hnd as [|? ? Hq Hr]; subst. simpl.
  destruct Hin as [-> | Hin]; [now rewrite String.eqb_refl|].
  destruct (String.eqb (p_name p) (p_name q)) eqn:He.
  - apply String.eqb_eq in He. exfalso. apply Hq. rewrite <- He. now apply List.in_map.
  - now apply IH.
Qed.

Lemma fold_left_ext_in {A B} (f f' : A -> B -> A) (l : list B) :
  (forall a b, In b l -> f a b = f' a b) ->
  forall acc, fold_left f l acc = fold_left f' l acc.
Proof.
  induction l as [|b r IH]; intros H acc; [reflexivity|].
  simpl. rewrite (H acc b (or_introl eq_refl)). apply IH.
  intros a x Hx. apply H. now right.
Qed.


Lemma is_none_true (v : value) : is_none v = true <-> v = VNone.
Proof. destruct v; simpl; split; intros H; try reflexivity; discriminate. Qed.

(** The loop of [__from_dict] when every value it reads passes through:
    the properties read as [None] keep their field, the others take the
    value read. *)
Lemma from_dict_loop L E nested (cd : class_decl) (name : string) (d : dict) :
  properties E name = properties_of cd ->
  forall props fcur log,
    NoDup props ->
    (forall p, In p props ->
       In p (properties_of cd)
       /\ Inflection.camelize p <> None
       /\ (read d p = VNone \/ passes_through cd p (read d p) = true)) ->
    exists f',
      __from_dict L E nested cd props (VObj name fcur None) (VDict d) log
      = (Ok (VObj name f' None), log)
      /\ (forall x, In x props -> read d x <> VNone -> getattr f' x = read d x)
      /\ (forall x, ~ In x props \/ read d x = VNone -> getattr f' x = getattr fcur x).
Proof.
  intros Hprops. induction props as [|p r IH]; intros fcur log Hnd Hall.
  - exists fcur. split; [reflexivity | split]; [intros x [] | reflexivity].
  - inversion Hnd as [|? ? Hp Hr]; subst.
    destruct (Hall p (or_introl eq_refl)) as [Hin [Hcam Hread]].
    assert (Hrest : forall q, In q r ->
              In q (properties_of cd)
              /\ Inflection.camelize q <> None
              /\ (read d q = VNone \/ passes_through cd q (read d q) = true))
      by (intros q Hq; apply Hall; now right).
    cbn [__from_dict]. unfold bind at 1. unfold lift at 1. cbn [get_method].
    assert (Hwire : Inflection.camelize p = Some (wire_name p)).
    { unfold wire_name. destruct (Inflection.camelize p); [reflexivity | contradiction]. }
    unfold bind at 1. unfold lift at 1. rewrite Hwire. fold (read d p).
    destruct (is_none (read d p)) eqn:Hnone.
    + apply is_none_true in Hnone.
      destruct (IH fcur log Hr Hrest) as [f' [Hrun [Hset Hkeep]]].
      exists f'. split; [exact Hrun | split].
      * intros x [Hx | Hx] Hne; [subst x; contradiction | now apply Hset].
      * intros x Hx. apply Hkeep. destruct Hx as [Hx | Hx]; [|now right].
        destruct (List.in_dec String.string_dec x r) as [Hxr | Hxr]; [|now left].
        right. destruct (String.string_dec x p) as [-> | Hne]; [exact Hnone|].
        exfalso. apply Hx. now right.
    + destruct Hread as [Hread | Hpass];
        [apply is_none_true in Hread; congruence|].
      unfold bind at 1. rewrite (coerce_prop_passes L E nested cd p _ log Hpass).
      assert (Hsetattr : Base__setattr__ E (VObj name fcur None) p (read d p)
                         = VObj name (dict_set p (read d p) fcur) None).
      { unfold Base__setattr__, object__setattr__. rewrite Hprops.
        apply mem_In in Hin. rewrite Hin. cbn [negb].
        rewrite Bool.andb_false_r. reflexivity. }
      rewrite Hsetattr.
      destruct (IH (dict_set p (read d p) fcur) log Hr Hrest) as [f' [Hrun [Hset Hkeep]]].
      exists f'. split; [exact Hrun | split].
      * intros x [Hx | Hx] Hne; [|now apply Hset].
        subst x. rewrite Hkeep by now left. apply getattr_dict_set_same.
      * intros x Hx.
        assert (Hxp : x <> p).
        { intros ->. destruct Hx as [Hx | Hx]; [apply Hx; now left|].
          apply is_none_true in Hx. congruence. }
        rewrite Hkeep.
        -- now apply getattr_dict_set_other.
        -- destruct Hx as [Hx | Hx]; [left | now right].
           intros Hxr. apply Hx. now right.
Qed.

Lemma assoc_remove_keys_other {A} (ks : list string) (k : string) :
  ~ In k ks -> forall l : list (string * A), assoc k (remove_keys ks l) = assoc k l.
Proof.
  induction ks as [|a r IH]; intros Hk l; [reflexivity|].
  cbn [remove_keys]. rewrite IH by (intros H; apply Hk; now right).
  apply assoc_remove_key_other. intros ->. apply Hk. now left.
Qed.

Lemma assoc_remove_keys_None {A} (ks : list string) (k : string) :
  forall l : list (string * A), assoc k l = None -> assoc k (remove_keys ks l) = None.
Proof.
  induction ks as [|a r IH]; intros l Hk; [exact Hk|].
  cbn [remove_keys]. apply IH.
  destruct (String.string_dec k a) as [-> | Hne].
  - apply assoc_None_not_key. apply assoc_None_not_key in Hk.
    induction l as [|[k' v] l' IHl]; simpl in *; [tauto|].
    destruct (String.eqb a k') eqn:He.
    + apply String.eqb_eq in He. subst. exfalso. apply Hk. now left.
    + simpl. intros [H | H]; [apply Hk; now left | apply IHl; [|exact H]].
      intros H'. apply Hk. now right.
  - now rewrite assoc_remove_key_other.
Qed.

Lemma assoc_remove_key_same {A} (k : string) (l : list (string * A)) :
  NoDup (keys l) -> assoc k (remove_key k l) = None.
Proof.
  intros Hnd. apply assoc_None_not_key. intros Hin.
  apply (keys_remove_key k k l Hnd) in Hin. tauto.
Qed.

Lemma assoc_remove_keys_removed {A} (ks : list string) (k : string) :
  In k ks ->
  forall l : list (string * A), NoDup (keys l) -> assoc k (remove_keys ks l) = None.
Proof.
  induction ks as [|a r IH]; intros Hk l Hnd; [contradiction|].
  cbn [remove_keys]. destruct (String.string_dec k a) as [-> | Hne].
  - apply assoc_remove_keys_None. now apply assoc_remove_key_same.
  - apply IH; [|now apply NoDup_remove_key].
    destruct Hk as [Hk | Hk]; [congruence | exact Hk].
Qed.

(** What the dictionary of [as_dict] holds for a property, under its own
    name and under its wire name, in either spelling. *)
Lemma entries_facts (cd : class_decl) (g : string -> value) (as_camel_case : bool) :
  regular cd ->
  let d := entries (spelling as_camel_case) g (properties_of cd) in
  NoDup (keys d)
  /\ forall p, In p (properties_of cd) ->
       (assoc p d = Some (g p) \/ assoc p d = None)
       /\ (assoc p d = None ->
           assoc (wire_name p) d = Some (g p) /\ ~ In (wire_name p) (properties_of cd))
       /\ (assoc p d <> None -> wire_name p = p \/ assoc (wire_name p) d = None).
Proof.
  intros Hreg d. split.
  - unfold d. rewrite keys_entries. apply NoDup_map_injective.
    + intros x y Hx Hy. destruct as_camel_case; cbn [spelling]; [|tauto].
      now apply (reg_wire_distinct cd Hreg).
    + apply (reg_props_distinct cd Hreg).
  - intros p Hp. destruct as_camel_case; cbn [spelling] in d.
    + destruct (String.string_dec (wire_name p) p) as [Hsame | Hdiff].
      * assert (Hfound : assoc p d = Some (g p)).
        { unfold d. rewrite <- Hsame at 1. apply assoc_entries; [|exact Hp].
          intros q Hq Hw. now apply (reg_wire_distinct cd Hreg). }
        split; [now left | split]; [rewrite Hfound; discriminate | now left].
      * assert (Hnone : assoc p d = None).
        { unfold d. apply assoc_entries_None. intros q Hq Hw.
          pose proof (reg_wire_apart cd Hreg p q Hp Hq Hw) as Heq. subst q. contradiction. }
        split; [now right | split]; [|rewrite Hnone; congruence].
        intros _. split.
        -- unfold d. apply assoc_entries; [|exact Hp].
           intros q Hq Hw. now apply (reg_wire_distinct cd Hreg).
        -- intros Hin. apply Hdiff. symmetry.
           now apply (reg_wire_apart cd Hreg (wire_name p) p Hin Hp).
    + assert (Hfound : assoc p d = Some (g p)).
      { unfold d. apply (assoc_entries (fun q => q) g); [|exact Hp]. intros q _ Hq. exact Hq. }
      split; [now left | split]; [rewrite Hfound; discriminate|].
      intros _. destruct (List.in_dec String.string_dec (wire_name p) (properties_of cd))
        as [Hin | Hout].
      * left. symmetry. now apply (reg_wire_apart cd Hreg (wire_name p) p Hin Hp).
      * right. unfold d. apply (assoc_entries_None (fun q => q) g).
        intros q Hq Heq. subst q. contradiction.
Qed.

(** After the required arguments are popped, [__from_dict] reads for each
    property the value of the field, or nothing if the property was popped. *)
Lemma read_after_pop (cd : class_decl) (g : string -> value) (as_camel_case : bool) :
  regular cd ->
  let d := entries (spelling as_camel_case) g (properties_of cd) in
  let d' := remove_keys (required_args cd) d in
  forall p, In p (properties_of cd) ->
    read d' p = g p
    \/ (read d' p = VNone /\ In p (required_args cd) /\ assoc p d = Some (g p)).
Proof.
  intros Hreg d d' p Hp.
  destruct (entries_facts cd g as_camel_case Hreg) as [Hnd Hfacts].
  fold d in Hnd, Hfacts.
  destruct (Hfacts p Hp) as [H1 [H2 H3]].
  assert (Hargs : forall a, In a (required_args cd) -> In a (properties_of cd)).
  { intros a Ha.
    now destruct (reg_params cd Hreg a (required_args_are_params cd a Hreg Ha)). }
  unfold read, dict_get.
  destruct (List.in_dec String.string_dec p (required_args cd)) as [Hin | Hout].
  - unfold d'. rewrite (assoc_remove_keys_removed _ p Hin d Hnd).
    destruct H1 as [Hsome | Hnone].
    + right. split; [|split; [exact Hin | exact Hsome]].
      destruct (H3 ltac:(rewrite Hsome; discriminate)) as [Hsame | Hw].
      * rewrite Hsame. now rewrite (assoc_remove_keys_removed _ p Hin d Hnd).
      * now rewrite (assoc_remove_keys_None _ _ d Hw).
    + left. destruct (H2 Hnone) as [Hw Hnot].
      rewrite assoc_remove_keys_other; [now rewrite Hw|].
      intros Hwin. apply Hnot. now apply Hargs.
  - unfold d'. rewrite (assoc_remove_keys_other _ p Hout).
    destruct H1 as [Hsome | Hnone].
    + left. now rewrite Hsome.
    + left. rewrite Hnone. destruct (H2 Hnone) as [Hw Hnot].
      rewrite assoc_remove_keys_other; [now rewrite Hw|].
      intros Hwin. apply Hnot. now apply Hargs.
Qed.


Lemma Quote_regular : regular Sample.Quote.
Proof.
  constructor.
  - eexists. reflexivity.
  - repeat constructor; simpl; intuition discriminate.
  - intros a [<- | [<- | [<- | []]]]; repeat split; try reflexivity;
      simpl; try tauto; discriminate.
  - repeat constructor; simpl; intuition discriminate.
  - intros p [<- | [<- | [<- | []]]]; discriminate.
  - intros p q [<- | [<- | [<- | []]]] [<- | [<- | [<- | []]]] H;
      try reflexivity; vm_compute in H; discriminate.
  - intros p q [<- | [<- | [<- | []]]] [<- | [<- | [<- | []]]] H;
      try reflexivity; vm_compute in H; discriminate.
Qed.



(** An instrument does not make the trip in the wire spelling: its
    dictionary has no key [asset_class] for [Instrument.from_dict] to pop. *)
Example instrument_wire_round_trip_raises :
  let fields := [("fixed_rate", VFloat (1 # 100)); ("notional_amount", VInt 1000000);
                 ("pay_or_receive", VEnum "PayReceive" "Pay")] in
  as_dict Sample.program (VObj "Swap" fields None) true
  = Ok [("fixedRate", VFloat (1 # 100)); ("notionalAmount", VInt 1000000);
        ("payOrReceive", VEnum "PayReceive" "Pay")]
  /\ from_dict 1 Sample.runtime Sample.program Sample.Swap
       (VDict [("fixedRate", VFloat (1 # 100)); ("notionalAmount", VInt 1000000);
               ("payOrReceive", VEnum "PayReceive" "Pay")]) []
     = (Raise (KeyError "asset_class"), []).
Proof. split; reflexivity. Qed.

(** * Further properties of the binding layer *)

(** ** Reserved names *)

Lemma reserved_names_checked :
  List.forallb
    (fun a => negb (reserved (a ++ "_")) && negb (iskeyword (a ++ "_")))
    (kwlist ++ builtin_names) = true.
Proof. vm_compute. reflexivity. Qed.

Lemma reserved_In (a : string) :
  reserved a = true -> In a (kwlist ++ builtin_names).
Proof.
  unfold reserved, iskeyword. intros H. apply List.in_or_app.
  apply Bool.orb_true_iff in H. destruct H as [H | H]; [left | right]; now apply mem_In.
Qed.

Lemma reserved_underscored (a : string) :
  reserved a = true ->
  reserved (a ++ "_") = false /\ iskeyword (a ++ "_") = false.
Proof.
  intros H. apply reserved_In in H.
  pose proof reserved_names_checked as Hall.
  rewrite List.forallb_forall in Hall. specialize (Hall a H).
  apply andb_prop in Hall. destruct Hall as [H1 H2].
  split; now apply Bool.negb_true_iff.
Qed.

Lemma ends_with_underscore_appended (a : string) :
  Str.ends_with_underscore (a ++ "_") = true.
Proof.
  induction a as [|c a IH]; [reflexivity|].
  cbn [append Str.ends_with_underscore].
  destruct (a ++ "_")%string eqn:Ha; [destruct a; discriminate | exact IH].
Qed.

Lemma drop_last_appended (a : string) : Str.drop_last (a ++ "_") = a.
Proof.
  induction a as [|c a IH]; [reflexivity|].
  cbn [append Str.drop_last].
  destruct (a ++ "_")%string eqn:Ha; [destruct a; discriminate|].
  now rewrite IH.
Qed.

(** X1: the name [_normalise_arg] returns is never a keyword nor a name of
    [builtins], so it can be a parameter of a generated [__init__]; it is
    the argument or the argument with one underscore appended, and
    normalising it again changes nothing. *)
Theorem _normalise_arg_is_not_reserved :
  forall a : string,
    reserved (_normalise_arg a) = false
    /\ (_normalise_arg a = a \/ _normalise_arg a = (a ++ "_")%string)
    /\ _normalise_arg (_normalise_arg a) = _normalise_arg a.
Proof.
  intros a.
  assert (Hn : forall b, _normalise_arg b = if reserved b then (b ++ "_")%string else b)
    by reflexivity.
  rewrite (Hn a). destruct (reserved a) eqn:Hr.
  - destruct (reserved_underscored a Hr) as [Hr' _].
    split; [exact Hr' | split; [now right|]].
    now rewrite Hn, Hr'.
  - split; [exact Hr | split; [now left|]].
    now rewrite Hn, Hr.
Qed.

(** X2: [_from_dict] recovers from a parameter of [__init__] the name of
    the property: for a name that does not end in an underscore, the
    property name of its normalised form is the name itself (so [type_]
    stands for [type]). *)
Theorem prop_name_of_normalised :
  forall a : string,
    Str.ends_with_underscore a = false ->
    prop_name_of (_normalise_arg a) = a.
Proof.
  intros a Ha. unfold _normalise_arg. fold (reserved a).
  destruct (reserved a) eqn:Hr.
  - destruct (reserved_underscored a Hr) as [_ Hk].
    unfold prop_name_of. rewrite ends_with_underscore_appended, Hk.
    cbn [negb andb]. apply drop_last_appended.
  - unfold prop_name_of. now rewrite Ha.
Qed.

Lemma prop_name_of_normalised_witness :
  Str.ends_with_underscore "type" = false
  /\ _normalise_arg "type" = "type_"
  /\ prop_name_of (_normalise_arg "type") = "type".
Proof.
  split; [reflexivity | split; [reflexivity|]].
  apply (prop_name_of_normalised "type"). reflexivity.
Defined.

(** ** Attribute access under both spellings *)

Lemma attribute_property (E : env) (c : string) f h (p : string) :
  mem p (properties E c) = true ->
  attribute E (VObj c f h) p = Ok (getattr f p).
Proof. intros Hp. unfold attribute, object__getattribute__. now rewrite Hp. Qed.

(** X3: assigning under a wire name (a name that is no property, whose
    snake_case form is one) stores the value in the property and clears
    the cached hash; the value is then read back under the wire name and
    under the canonical name alike, and no other attribute changes. *)
Theorem wire_name_assignment :
  forall (E : env) (c : string) f h (w : string) (v : value),
    mem (Inflection.underscore w) (properties E c) = true ->
    mem w (properties E c) = false ->
    assoc w f = None ->
    Base__setattr__ E (VObj c f h) w v
    = VObj c (dict_set (Inflection.underscore w) v f) None
    /\ attribute E (Base__setattr__ E (VObj c f h) w v) w = Ok v
    /\ attribute E (Base__setattr__ E (VObj c f h) w v) (Inflection.underscore w) = Ok v
    /\ (forall q,
          q <> Inflection.underscore w ->
          Inflection.underscore q <> Inflection.underscore w ->
          attribute E (Base__setattr__ E (VObj c f h) w v) q
          = attribute E (VObj c f h) q).
Proof.
  intros E c f h w v Hp Hw Hf.
  assert (Hset : Base__setattr__ E (VObj c f h) w v
                 = VObj c (dict_set (Inflection.underscore w) v f) None).
  { unfold Base__setattr__. rewrite Hp, Hw. cbn [negb andb].
    unfold object__setattr__. now rewrite Hp. }
  assert (Hne : w <> Inflection.underscore w) by (intros He; rewrite <- He in Hp; congruence).
  rewrite Hset. split; [reflexivity | split; [|split]].
  - unfold attribute, object__getattribute__. rewrite Hw.
    rewrite (assoc_dict_set_other _ w v f Hne), Hf.
    unfold Base__getattr__, object__getattribute__. rewrite Hp.
    now rewrite getattr_dict_set_same.
  - rewrite (attribute_property E c _ None _ Hp). now rewrite getattr_dict_set_same.
  - intros q Hq Hq'.
    unfold attribute, object__getattribute__, Base__getattr__, object__getattribute__.
    rewrite (getattr_dict_set_other _ q v f Hq), (assoc_dict_set_other _ q v f Hq).
    rewrite (getattr_dict_set_other _ _ v f Hq'), (assoc_dict_set_other _ _ v f Hq').
    reflexivity.
Qed.

Lemma wire_name_assignment_witness :
  let quote := VObj "Quote" [("asset_id", VStr "SPX"); ("bid_price", VNone); ("side", VNone)]
                    (Some 42%Z) in
  Base__setattr__ Sample.program quote "bidPrice" (VFloat (1 # 100))
  = VObj "Quote" [("asset_id", VStr "SPX"); ("bid_price", VFloat (1 # 100)); ("side", VNone)]
         None
  /\ attribute Sample.program
       (Base__setattr__ Sample.program quote "bidPrice" (VFloat (1 # 100))) "bidPrice"
     = Ok (VFloat (1 # 100)).
Proof.
  intro quote.
  destruct (wire_name_assignment Sample.program "Quote"
              [("asset_id", VStr "SPX"); ("bid_price", VNone); ("side", VNone)] (Some 42%Z)
              "bidPrice" (VFloat (1 # 100)) eq_refl eq_refl eq_refl)
    as [Hset [Hwire _]].
  split; [exact Hset | exact Hwire].
Defined.

(** ** The cached hash under assignment and hashing *)

(** X4: an assignment through [Base.__setattr__] keeps every cached hash
    current: if the object and the value assigned hold no stale hash at any
    depth, neither does the object afterwards; and when the name, or its
    snake_case form, is a property, the cached hash of the object is
    cleared. *)
Theorem assignment_keeps_cached_hash_current :
  forall (H : hasher) (E : env) (c : string) f h (key : string) (v : value),
    coherent H E (VObj c f h) = true ->
    coherent H E v = true ->
    coherent H E (Base__setattr__ E (VObj c f h) key v) = true
    /\ (mem key (properties E c) || mem (Inflection.underscore key) (properties E c) = true ->
        exists f', Base__setattr__ E (VObj c f h) key v = VObj c f' None).
Proof.
  intros H E c f h key v Ho Hv. split.
  - now apply setattr_keeps_coherent.
  - intros Hprop. unfold Base__setattr__, object__setattr__.
    destruct (mem key (properties E c)) eqn:Hk.
    + rewrite Bool.andb_false_r. eexists. reflexivity.
    + cbn [orb] in Hprop. rewrite Hprop. cbn [negb andb].
      eexists. reflexivity.
Qed.

Lemma assignment_keeps_cached_hash_current_witness :
  let quote := VObj "Quote" [("asset_id", VStr "SPX"); ("bid_price", VInt 1); ("side", VNone)]
                    (Some 292569%Z) in
  coherent Sample.hashes Sample.program quote = true
  /\ coherent Sample.hashes Sample.program
       (Base__setattr__ Sample.program quote "bidPrice" (VInt 2)) = true.
Proof.
  intro quote.
  assert (Hq : coherent Sample.hashes Sample.program quote = true) by reflexivity.
  split; [exact Hq|].
  exact (proj1 (assignment_keeps_cached_hash_current Sample.hashes Sample.program
                  "Quote" _ _ "bidPrice" (VInt 2) Hq eq_refl)).
Defined.



(** ** The default instance *)

Lemma fold_left_map {A B C} (f : A -> B -> A) (g : C -> B) (l : list C) (a : A) :
  fold_left f (List.map g l) a = fold_left (fun x c => f x (g c)) l a.
Proof. revert a. induction l as [|c r IH]; intros a; simpl; [reflexivity | apply IH]. Qed.

Lemma camelize_nonempty (p : string) :
  p <> EmptyString -> Inflection.camelize p <> None.
Proof. destruct p; [congruence | discriminate]. Qed.

Lemma from_dict_loop_empty L E nested (cd : class_decl) :
  forall props self log,
    ~ In EmptyString props ->
    __from_dict L E nested cd props self (VDict []) log = (Ok self, log).
Proof.
  induction props as [|p r IH]; intros self log Hne; [reflexivity|].
  cbn [__from_dict]. unfold bind at 1. unfold lift at 1. cbn [get_method].
  destruct p as [|x p]; [exfalso; apply Hne; now left|].
  cbn [Inflection.camelize]. unfold bind at 1. unfold lift at 1.
  cbn [dict_get assoc is_none].
  apply IH. intros Hin. apply Hne. now right.
Qed.

(** X6: for a class outside the instrument hierarchy, construction from
    the empty dictionary is [default_instance]: [None] is supplied for
    every required argument, nothing is assigned afterwards, and the empty
    dictionary is left empty. *)
Theorem from_empty_dict_is_default_instance :
  forall L E nested (cd : class_decl) (log : list warning),
    (forall p, In p (cd_init cd) -> p_name p <> "kwargs") ->
    (forall a, In a (required_args cd) ->
       exists pt, prop_type cd (prop_name_of a) = Ok pt) ->
    ~ In EmptyString (properties_of cd) ->
    _from_dict L E nested cd (VDict []) log
    = (obind (default_instance cd) (fun o => Ok (o, VDict [])), log).
Proof.
  intros L E nested cd log Hkw Hty Hne.
  assert (Hargs : required_args cd = default_args cd).
  { unfold required_args, default_args. do 2 f_equal.
    apply List.filter_ext_in. intros p Hp.
    destruct (String.eqb (p_name p) "kwargs") eqn:He.
    - apply String.eqb_eq in He. exfalso. exact (Hkw p Hp He).
    - reflexivity. }
  unfold _from_dict. unfold bind at 1.
  rewrite (collect_required_absent E nested cd [] (required_args cd) [] log);
    [|reflexivity | exact Hty].
  assert (Hreq : fold_left (fun r a => dict_set a VNone r) (required_args cd) []
                 = dict_of_pairs (List.map (fun a => (a, VNone)) (default_args cd))).
  { rewrite Hargs. unfold dict_of_pairs. now rewrite fold_left_map. }
  rewrite Hreq. fold (default_instance cd).
  unfold bind at 1. unfold lift at 1.
  destruct (default_instance cd) as [o|e]; [|reflexivity].
  unfold bind. rewrite (from_dict_loop_empty L E nested cd _ o log Hne). reflexivity.
Qed.

Lemma from_empty_dict_is_default_instance_witness :
  _from_dict Sample.runtime Sample.program
    (from_dict_named 0 Sample.runtime Sample.program) Sample.Quote (VDict []) []
  = (Ok (VObj "Quote" [("asset_id", VNone); ("bid_price", VNone); ("side", VNone)] None,
         VDict []), []).
Proof.
  apply (from_empty_dict_is_default_instance Sample.runtime Sample.program
           (from_dict_named 0 Sample.runtime Sample.program) Sample.Quote []).
  - intros p [<- | [<- | [<- | [<- | []]]]]; discriminate.
  - intros a [<- | []]. eexists. reflexivity.
  - intros [H | [H | [H | []]]]; discriminate.
Defined.

(** ** [as_dict] *)

Lemma filter_combine_maps {A B C} (f : A -> B) (g : A -> C) (keep : C -> bool)
  (l : list A) :
  List.filter (fun pv => keep (snd pv)) (List.combine (List.map f l) (List.map g l))
  = List.map (fun x => (f x, g x)) (List.filter (fun x => keep (g x)) l).
Proof.
  induction l as [|a r IH]; simpl; [reflexivity|].
  destruct (keep (g a)); simpl; now rewrite IH.
Qed.

Lemma NoDup_map_filter_sub {A B} (f : A -> B) (keep : A -> bool) (l : list A) :
  NoDup (List.map f l) -> NoDup (List.map f (List.filter keep l)).
Proof.
  induction l as [|a r IH]; simpl; intros Hnd; [constructor|].
  inversion Hnd as [|? ? Ha Hr]; subst.
  destruct (keep a); simpl; [|now apply IH].
  constructor; [|now apply IH].
  intros Hin. apply Ha. apply List.in_map_iff in Hin. destruct Hin as [x [Hx Hin]].
  apply List.in_map_iff. exists x. split; [exact Hx|].
  apply List.filter_In in Hin. tauto.
Qed.

Lemma as_dict_closed (E : env) (c : string) f h (as_camel_case : bool) :
  NoDup (List.map (spelling as_camel_case) (properties E c)) ->
  (as_camel_case = true -> ~ In EmptyString (properties E c)) ->
  as_dict E (VObj c f h) as_camel_case
  = Ok (List.map (fun p => (spelling as_camel_case p, getattr f p))
          (List.filter (fun p => negb (is_none (getattr f p))) (properties E c))).
Proof.
  intros Hnd Hne. unfold as_dict.
  assert (Hnames : (if as_camel_case then camelize_all (properties E c)
                    else Ok (properties E c))
                   = Ok (List.map (spelling as_camel_case) (properties E c))).
  { destruct as_camel_case; cbn [spelling].
    - apply camelize_all_defined. intros p Hp. apply camelize_nonempty.
      intros ->. now apply Hne.
    - now rewrite List.map_id. }
  rewrite Hnames. cbn [obind].
  rewrite (filter_combine_maps (spelling as_camel_case) (getattr f)
             (fun v => negb (is_none v))).
  rewrite dict_of_pairs_distinct; [reflexivity|].
  unfold keys. rewrite List.map_map. cbn [fst].
  now apply NoDup_map_filter_sub.
Qed.

(** X7: [as_dict] lists exactly the properties whose value is not [None],
    in the order of the property list, each under its name (its wire name
    when [as_camel_case] is set) with the value the object holds; the
    cached hash plays no part.  The names written must be distinct, and a
    wire name exists for a property whose name is not empty. *)
Theorem as_dict_lists_the_set_properties :
  forall (E : env) (c : string) f h (as_camel_case : bool),
    NoDup (List.map (spelling as_camel_case) (properties E c)) ->
    (as_camel_case = true -> ~ In EmptyString (properties E c)) ->
    as_dict E (VObj c f h) as_camel_case
    = Ok (List.map (fun p => (spelling as_camel_case p, getattr f p))
            (List.filter (fun p => negb (is_none (getattr f p))) (properties E c))).
Proof. intros. now apply as_dict_closed. Qed.

Lemma as_dict_lists_the_set_properties_witness :
  as_dict Sample.program
    (VObj "Swap" [("fixed_rate", VFloat (1 # 100)); ("notional_amount", VNone);
                  ("pay_or_receive", VEnum "PayReceive" "Pay")] (Some 42%Z)) true
  = Ok [("fixedRate", VFloat (1 # 100)); ("payOrReceive", VEnum "PayReceive" "Pay")].
Proof.
  apply (as_dict_lists_the_set_properties Sample.program "Swap"
           [("fixed_rate", VFloat (1 # 100)); ("notional_amount", VNone);
            ("pay_or_receive", VEnum "PayReceive" "Pay")] (Some 42%Z) true).
  - repeat constructor; simpl; intuition discriminate.
  - intros _ [H | [H | [H | []]]]; discriminate.
Defined.

(** ** The keywords [BaseMeta.__call__] passes on *)

Lemma lowered_char (c : ascii) :
  Str.is_upper (Str.to_lower (Inflection.dash_to_underscore c)) = false
  /\ Ascii.eqb (Str.to_lower (Inflection.dash_to_underscore c)) "-" = false.
Proof. destruct c as [[] [] [] [] [] [] [] []]; split; reflexivity. Qed.

Lemma underscore_is_snake (s : string) : snake (Inflection.underscore s) = true.
Proof.
  unfold Inflection.underscore, Str.lower.
  generalize (Inflection.word_pass None (Inflection.acronym_pass None s)).
  induction s0 as [|c r IH]; [reflexivity|].
  cbn [Str.map snake Str.forallb].
  destruct (lowered_char c) as [Hu Hd]. rewrite Hu, Hd. exact IH.
Qed.

Lemma acronym_pass_snake (s : string) :
  snake s = true -> forall prev, Inflection.acronym_pass prev s = s.
Proof.
  induction s as [|c r IH]; intros Hs prev; [reflexivity|].
  cbn [snake Str.forallb] in Hs. apply andb_prop in Hs. destruct Hs as [Hc Hr].
  apply andb_prop in Hc. destruct Hc as [Hu _]. apply Bool.negb_true_iff in Hu.
  cbn [Inflection.acronym_pass]. rewrite Hu, (IH Hr).
  destruct prev as [p|]; [|reflexivity].
  destruct r; [reflexivity|]. now rewrite Bool.andb_false_r.
Qed.

Lemma word_pass_snake (s : string) :
  snake s = true -> forall prev, Inflection.word_pass prev s = s.
Proof.
  induction s as [|c r IH]; intros Hs prev; [reflexivity|].
  cbn [snake Str.forallb] in Hs. apply andb_prop in Hs. destruct Hs as [Hc Hr].
  apply andb_prop in Hc. destruct Hc as [Hu _]. apply Bool.negb_true_iff in Hu.
  cbn [Inflection.word_pass]. rewrite Hu, (IH Hr).
  destruct prev as [p|]; [|reflexivity]. now rewrite Bool.andb_false_r.
Qed.

Lemma lower_snake (s : string) :
  snake s = true -> Str.lower (Str.map Inflection.dash_to_underscore s) = s.
Proof.
  unfold Str.lower. induction s as [|c r IH]; intros Hs; [reflexivity|].
  cbn [snake Str.forallb] in Hs. apply andb_prop in Hs. destruct Hs as [Hc Hr].
  apply andb_prop in Hc. destruct Hc as [Hu Hd].
  apply Bool.negb_true_iff in Hu, Hd.
  cbn [Str.map]. rewrite (IH Hr).
  unfold Inflection.dash_to_underscore. rewrite Hd.
  unfold Str.to_lower. now rewrite Hu.
Qed.

(** [inflection.underscore] leaves a snake_case string as it is, and so is
    idempotent. *)
Lemma underscore_fixes_snake (s : string) :
  snake s = true -> Inflection.underscore s = s.
Proof.
  intros Hs. unfold Inflection.underscore.
  rewrite (acronym_pass_snake s Hs), (word_pass_snake s Hs). now apply lower_snake.
Qed.

Lemma underscore_idempotent (s : string) :
  Inflection.underscore (Inflection.underscore s) = Inflection.underscore s.
Proof. apply underscore_fixes_snake, underscore_is_snake. Qed.

Lemma assoc_dict_set_inv {A} (k key : string) (v w : A) (l : list (string * A)) :
  assoc k (dict_set key v l) = Some w ->
  (k = key /\ w = v) \/ (k <> key /\ assoc k l = Some w).
Proof.
  intros H. destruct (String.eqb k key) eqn:He.
  - apply String.eqb_eq in He. subst k. rewrite assoc_dict_set_same in H.
    left. split; [reflexivity | congruence].
  - apply String.eqb_neq in He. rewrite (assoc_dict_set_other key k v l He) in H.
    now right.
Qed.

Lemma normalise_kwargs_entries (kwargs : dict) (P : string -> value -> Prop) :
  (forall a v k,
     (Str.isupper (_normalise_arg a) = true /\ k = _normalise_arg a)
     \/ (Str.isupper (_normalise_arg a) = false
         /\ k = Inflection.underscore (_normalise_arg a)) ->
     In (a, v) kwargs -> P k v) ->
  forall todo acc d,
    incl todo kwargs ->
    (forall k v, assoc k acc = Some v -> P k v) ->
    normalise_kwargs kwargs todo acc = Ok d ->
    forall k v, assoc k d = Some v -> P k v.
Proof.
  intros HP. induction todo as [|[a x] r IH]; intros acc d Hincl Hacc Hd k v Hk.
  - cbn in Hd. inversion Hd; subst. now apply Hacc.
  - cbn [normalise_kwargs] in Hd.
    assert (Hin : In (a, x) kwargs) by (apply Hincl; now left).
    assert (Hr : incl r kwargs) by (intros e He; apply Hincl; now right).
    assert (Hstep : forall key,
               (Str.isupper (_normalise_arg a) = true /\ key = _normalise_arg a)
               \/ (Str.isupper (_normalise_arg a) = false
                   /\ key = Inflection.underscore (_normalise_arg a)) ->
               forall k' v', assoc k' (dict_set key x acc) = Some v' -> P k' v').
    { intros key Hkey k' v' Hset.
      destruct (assoc_dict_set_inv _ _ _ _ _ Hset) as [[-> ->] | [_ Hold]].
      - apply (HP a x key Hkey Hin).
      - now apply Hacc. }
    destruct (Str.isupper (_normalise_arg a)) eqn:Hup; cbn [negb] in Hd.
    + apply (IH _ _ Hr (Hstep _ (or_introl (conj eq_refl eq_refl))) Hd k v Hk).
    + destruct (String.eqb (Inflection.underscore (_normalise_arg a)) (_normalise_arg a))
        eqn:He; cbn [negb] in Hd.
      * apply String.eqb_eq in He.
        apply (IH _ _ Hr (Hstep _ (or_intror (conj eq_refl (eq_sym He)))) Hd k v Hk).
      * destruct (mem (Inflection.underscore (_normalise_arg a)) (keys kwargs));
          [discriminate|].
        apply (IH _ _ Hr (Hstep _ (or_intror (conj eq_refl eq_refl))) Hd k v Hk).
Qed.

(** X8: the keyword arguments [BaseMeta.__call__] passes to [__init__]
    are canonical: each name is all upper case or in snake_case (a fixed
    point of [inflection.underscore]), and each entry carries the value of
    an argument given, under the normalised name of that argument or the
    snake_case form of it. *)
Theorem normalised_keywords_are_canonical :
  forall (kwargs d : dict),
    normalise_kwargs kwargs kwargs [] = Ok d ->
    forall k v,
      assoc k d = Some v ->
      (Str.isupper k = true \/ Inflection.underscore k = k)
      /\ exists a,
           In (a, v) kwargs
           /\ (k = _normalise_arg a \/ k = Inflection.underscore (_normalise_arg a)).
Proof.
  intros kwargs d Hd.
  apply (normalise_kwargs_entries kwargs
           (fun k v =>
              (Str.isupper k = true \/ Inflection.underscore k = k)
              /\ exists a,
                   In (a, v) kwargs
                   /\ (k = _normalise_arg a \/ k = Inflection.underscore (_normalise_arg a))))
    with (todo := kwargs) (acc := []).
  - intros a v k Hk Hin. split.
    + destruct Hk as [[Hup ->] | [_ ->]]; [now left | right; apply underscore_idempotent].
    + exists a. split; [exact Hin|]. destruct Hk as [[_ ->] | [_ ->]]; [now left | now right].
  - apply List.incl_refl.
  - intros k v Hk. discriminate.
  - exact Hd.
Qed.

Lemma normalised_keywords_are_canonical_witness :
  normalise_kwargs
    [("fixedRate", VFloat (1 # 100)); ("type", VStr "Swap"); ("USD", VInt 1)]
    [("fixedRate", VFloat (1 # 100)); ("type", VStr "Swap"); ("USD", VInt 1)] []
  = Ok [("fixed_rate", VFloat (1 # 100)); ("type_", VStr "Swap"); ("USD", VInt 1)]
  /\ (Str.isupper "fixed_rate" = true \/ Inflection.underscore "fixed_rate" = "fixed_rate").
Proof.
  assert (Hd : normalise_kwargs
                 [("fixedRate", VFloat (1 # 100)); ("type", VStr "Swap"); ("USD", VInt 1)]
                 [("fixedRate", VFloat (1 # 100)); ("type", VStr "Swap"); ("USD", VInt 1)] []
               = Ok [("fixed_rate", VFloat (1 # 100)); ("type_", VStr "Swap");
                     ("USD", VInt 1)]) by reflexivity.
  split; [exact Hd|].
  exact (proj1 (normalised_keywords_are_canonical _ _ Hd "fixed_rate" (VFloat (1 # 100))
                  eq_refl)).
Defined.

(** ** Collections *)

Lemma mapM_length {A B} (f : A -> M B) :
  forall (l : list A) log bs log',
    mapM f l log = (Ok bs, log') -> length bs = length l.
Proof.
  induction l as [|a r IH]; intros log bs log' H.
  - cbn in H. inversion H; subst. reflexivity.
  - cbn [mapM] in H. unfold bind at 1 in H.
    destruct (f a log) as [[b|e] log1]; [|discriminate].
    unfold bind at 1 in H.
    destruct (mapM f r log1) as [[bs'|e] log2] eqn:Hr; [|discriminate].
    cbn in H. inversion H; subst. cbn [length]. f_equal. exact (IH _ _ _ Hr).
Qed.

Lemma coerce_items_tuple E nested (cd : class_decl) (prop : string) (v : value)
  log r log' :
  coerce_items E nested cd prop v log = (Ok r, log') ->
  exists elems items,
    iterate v = Ok elems /\ r = VTuple items /\ length items = length elems
    /\ (forall h c,
          prop_item_type cd prop = Ok h -> resolve_item_type h = Ok c ->
          is_domain_class c = false -> items = elems /\ log' = log).
Proof.
  intros H. unfold coerce_items in H.
  unfold bind at 1 in H. unfold lift at 1 in H.
  destruct (prop_item_type cd prop) as [h0|e] eqn:Hi; [|discriminate].
  unfold bind at 1 in H. unfold lift at 1 in H.
  destruct (resolve_item_type h0) as [c0|e] eqn:Hres; [|discriminate].
  unfold bind at 1 in H. unfold lift at 1 in H.
  destruct (iterate v) as [elems|e]; [|discriminate].
  exists elems.
  assert (Hsame : forall h c, Ok h0 = Ok h -> resolve_item_type h = Ok c -> c = c0).
  { intros h c Hh Hc. inversion Hh; subst. congruence. }
  destruct c0 as [| |ed|c| | |n].
  1, 2, 5, 6, 7:
    cbn in H; inversion H; subst; exists elems;
    (split; [reflexivity | split; [reflexivity | split; [reflexivity|]]]);
    intros h c Hh Hc _; now split.
  - unfold bind at 1 in H.
    destruct (mapM (get_enum_value E ed) elems log) as [[vs|e] log1] eqn:Hm; [|discriminate].
    cbn in H. inversion H; subst. exists vs.
    split; [reflexivity | split; [reflexivity | split; [exact (mapM_length _ _ _ _ _ Hm)|]]].
    intros h c Hh Hc Hdom. rewrite (Hsame h c Hh Hc) in Hdom. discriminate.
  - unfold bind at 1 in H.
    destruct (mapM (fun v0 => if is_domain_value v0 then ret v0 else nested c v0) elems log)
      as [[vs|e] log1] eqn:Hm; [|discriminate].
    cbn in H. inversion H; subst. exists vs.
    split; [reflexivity | split; [reflexivity | split; [exact (mapM_length _ _ _ _ _ Hm)|]]].
    intros h c' Hh Hc Hdom. rewrite (Hsame h c' Hh Hc) in Hdom. discriminate.
Qed.

(** X9: whatever iterable the dictionary gives for a property declared as
    a list or a tuple, [__from_dict] assigns a tuple, with one item for
    each element the iteration yields (the characters, for a string); when
    the item type is neither a [Base] nor an enum class the items are those
    elements, unchanged, and nothing is logged. *)
Theorem collection_is_stored_as_a_tuple :
  forall L E nested (cd : class_decl) (prop : string) (v : value) log r log',
    (prop_type cd prop = Ok (Some CList) \/ prop_type cd prop = Ok (Some CTuple)) ->
    coerce_prop L E nested cd prop v log = (Ok r, log') ->
    exists elems items,
      iterate v = Ok elems /\ r = VTuple items /\ length items = length elems
      /\ (forall h c,
            prop_item_type cd prop = Ok h -> resolve_item_type h = Ok c ->
            is_domain_class c = false -> items = elems /\ log' = log).
Proof.
  intros L E nested cd prop v log r log' Hty H.
  unfold coerce_prop in H. unfold bind at 1 in H. unfold lift at 1 in H.
  destruct Hty as [Hty | Hty]; rewrite Hty in H;
    exact (coerce_items_tuple E nested cd prop v log r log' H).
Qed.

Lemma collection_is_stored_as_a_tuple_witness :
  let nested := from_dict_named 0 Sample.runtime Sample.program in
  coerce_prop Sample.runtime Sample.program nested Sample.Basket "ids"
    (VList [VStr "SPX"; VStr "NDX"]) []
  = (Ok (VTuple [VStr "SPX"; VStr "NDX"]), [])
  /\ coerce_prop Sample.runtime Sample.program nested Sample.Basket "ids" (VStr "SPX") []
     = (Ok (VTuple [VStr "S"; VStr "P"; VStr "X"]), [])
  /\ exists elems items,
       iterate (VStr "SPX") = Ok elems
       /\ VTuple [VStr "S"; VStr "P"; VStr "X"] = VTuple items
       /\ length items = length elems.
Proof.
  intro nested.
  assert (Hs : coerce_prop Sample.runtime Sample.program nested Sample.Basket "ids"
                 (VStr "SPX") []
               = (Ok (VTuple [VStr "S"; VStr "P"; VStr "X"]), [])) by reflexivity.
  split; [reflexivity | split; [exact Hs|]].
  destruct (collection_is_stored_as_a_tuple Sample.runtime Sample.program nested
              Sample.Basket "ids" (VStr "SPX") [] _ [] (or_intror eq_refl) Hs)
    as [elems [items [H1 [H2 [H3 _]]]]].
  exists elems, items. split; [exact H1 | split; [exact H2 | exact H3]].
Defined.

(** ** Keys the class does not know *)

Lemma assoc_app_other {A} (k p : string) (v : A) (l : list (string * A)) :
  p <> k -> assoc p (l ++ [(k, v)]) = assoc p l.
Proof.
  intros Hne. induction l as [|[k' v'] r IH]; simpl.
  - destruct (String.eqb p k) eqn:He; [apply String.eqb_eq in He; contradiction | reflexivity].
  - destruct (String.eqb p k'); [reflexivity | exact IH].
Qed.

Lemma remove_key_app_other {A} (k a : string) (v : A) (l : list (string * A)) :
  a <> k -> remove_key a (l ++ [(k, v)]) = remove_key a l ++ [(k, v)].
Proof.
  intros Hne. induction l as [|[k' v'] r IH]; simpl.
  - destruct (String.eqb a k) eqn:He; [apply String.eqb_eq in He; contradiction | reflexivity].
  - destruct (String.eqb a k'); [reflexivity | now rewrite IH].
Qed.

Lemma collect_required_appended E nested (cd : class_decl) (k : string) (v : value) :
  forall args required (d : dict) log req vals log',
    ~ In k args ->
    collect_required E nested cd args required (VDict d) log = (Ok (req, vals), log') ->
    exists d',
      vals = VDict d'
      /\ collect_required E nested cd args required (VDict (d ++ [(k, v)])) log
         = (Ok (req, VDict (d' ++ [(k, v)])), log').
Proof.
  induction args as [|a r IH]; intros required d log req vals log' Hk H.
  - cbn in H. inversion H; subst. exists d. split; reflexivity.
  - assert (Hak : a <> k) by (intros ->; apply Hk; now left).
    cbn [collect_required] in H |- *.
    unfold bind at 1 in H. unfold lift at 1 in H.
    unfold bind at 1. unfold lift at 1.
    destruct (prop_type cd (prop_name_of a)) as [pt|e]; [|discriminate].
    unfold bind at 1 in H. unfold lift at 1 in H.
    unfold bind at 1. unfold lift at 1.
    cbn [pop_default] in H |- *. unfold dict_pop_default in H |- *.
    cbn [fst snd] in H |- *.
    unfold dict_get. rewrite (assoc_app_other k a v d Hak).
    rewrite (remove_key_app_other k a v d Hak).
    unfold dict_get in H.
    unfold bind at 1 in H. unfold bind at 1.
    destruct (coerce_required E nested pt
                (match assoc a d with Some v0 => v0 | None => VNone end) log)
      as [[x|e] log1]; [|discriminate].
    apply (IH _ _ _ _ _ _ (fun Hin => Hk (or_intror Hin)) H).
Qed.

Lemma from_dict_loop_appended L E nested (cd : class_decl) (d : dict) (k : string)
  (v : value) :
  forall props self log,
    (forall p, In p props -> p <> k /\ Inflection.camelize p <> Some k) ->
    __from_dict L E nested cd props self (VDict (d ++ [(k, v)])) log
    = __from_dict L E nested cd props self (VDict d) log.
Proof.
  induction props as [|p r IH]; intros self log Hp; [reflexivity|].
  destruct (Hp p (or_introl eq_refl)) as [Hpk Hck].
  assert (Hr : forall q, In q r -> q <> k /\ Inflection.camelize q <> Some k)
    by (intros q Hq; apply Hp; now right).
  cbn [__from_dict]. unfold bind, lift. cbn [get_method].
  destruct (Inflection.camelize p) as [camel|]; [|reflexivity].
  assert (Hcamel : camel <> k) by (intros ->; now apply Hck).
  unfold dict_get.
  rewrite (assoc_app_other k p v d Hpk), (assoc_app_other k camel v d Hcamel).
  destruct (is_none match assoc p d with
                    | Some v0 => v0
                    | None => match assoc camel d with Some v0 => v0 | None => VNone end
                    end).
  - now apply IH.
  - destruct (coerce_prop L E nested cd p
                match assoc p d with
                | Some v0 => v0
                | None => match assoc camel d with Some v0 => v0 | None => VNone end
                end log) as [[x|e] log1]; [|reflexivity].
    now apply IH.
Qed.

(** X10: an entry whose key is neither a required argument, nor a
    property, nor the wire name of a property has no effect on
    construction: [_from_dict] returns the same object and logs the same
    warnings with the entry as without it, and leaves the entry in the
    dictionary. *)
Theorem unknown_key_is_ignored :
  forall L E nested (cd : class_decl) (d : dict) (k : string) (v : value)
         log o rest log',
    ~ In k (required_args cd) ->
    ~ In k (properties_of cd) ->
    (forall p, In p (properties_of cd) -> Inflection.camelize p <> Some k) ->
    _from_dict L E nested cd (VDict d) log = (Ok (o, rest), log') ->
    exists d',
      rest = VDict d'
      /\ _from_dict L E nested cd (VDict (d ++ [(k, v)])) log
         = (Ok (o, VDict (d' ++ [(k, v)])), log').
Proof.
  intros L E nested cd d k v log o rest log' Hreq Hprop Hwire H.
  unfold _from_dict in H |- *. unfold bind at 1 in H. unfold bind at 1.
  destruct (collect_required E nested cd (required_args cd) [] (VDict d) log)
    as [[[req vals]|e] log1] eqn:Hc; [|discriminate].
  destruct (collect_required_appended E nested cd k v _ _ _ _ _ _ _ Hreq Hc)
    as [d' [Hvals Hc']].
  rewrite Hc'. subst vals.
  unfold bind at 1 in H. unfold lift at 1 in H.
  unfold bind at 1. unfold lift at 1.
  destruct (BaseMeta__call__ cd req) as [instance|e]; [|discriminate].
  unfold bind at 1 in H. unfold bind at 1.
  rewrite (from_dict_loop_appended L E nested cd d' k v).
  - destruct (__from_dict L E nested cd (properties_of cd) instance (VDict d') log1)
      as [[instance'|e] log2]; [|discriminate].
    cbn in H |- *. inversion H; subst. exists d'. split; reflexivity.
  - intros p Hp. split; [|now apply Hwire]. intros ->. contradiction.
Qed.

Lemma unknown_key_is_ignored_witness :
  let nested := from_dict_named 0 Sample.runtime Sample.program in
  exists d',
    VDict [("bidPrice", VFloat (1 # 100))] = VDict d'
    /\ _from_dict Sample.runtime Sample.program nested Sample.Quote
         (VDict ([("asset_id", VStr "SPX"); ("bidPrice", VFloat (1 # 100))]
                 ++ [("venue", VStr "XNYS")])) []
       = (Ok (VObj "Quote" [("asset_id", VStr "SPX"); ("bid_price", VFloat (1 # 100));
                            ("side", VNone)] None,
              VDict (d' ++ [("venue", VStr "XNYS")])), []).
Proof.
  intro nested.
  apply (unknown_key_is_ignored Sample.runtime Sample.program nested Sample.Quote
           [("asset_id", VStr "SPX"); ("bidPrice", VFloat (1 # 100))]
           "venue" (VStr "XNYS") []).
  - intros [H | []]. discriminate.
  - intros [H | [H | [H | []]]]; discriminate.
  - intros p [<- | [<- | [<- | []]]]; discriminate.
  - reflexivity.
Defined.

(** ** Enum coercion, again *)

Lemma enum_call_member (E : env) (ed : enum_decl) (v r : value) :
  enum_call E ed v = Ok r -> exists m, r = VEnum (en_name ed) m.
Proof.
  unfold enum_call.
  destruct (List.find (fun m => py_eq E (snd m) v) (en_members ed)) as [[n x]|].
  - intros H. inversion H. now exists n.
  - destruct (_missing_ (en_members ed) v) as [[n|]|e]; intros H; inversion H.
    now exists n.
Qed.

(** X11: enum coercion is idempotent: what [get_enum_value] returns is
    returned unchanged when it is coerced again ([None], a member, or the
    raw value that matched no member). *)
Theorem get_enum_value_is_idempotent :
  forall (E : env) (ed : enum_decl) (v r : value) log log1,
    get_enum_value E ed v log = (Ok r, log1) ->
    exists log2, get_enum_value E ed r log1 = (Ok r, log2).
Proof.
  intros E ed v r log log1 H. unfold get_enum_value in H.
  destruct (py_eq E v VNone || py_eq E v (VStr "None")) eqn:Hn.
  - cbn in H. inversion H; subst. exists log1. reflexivity.
  - destruct (is_member ed v) eqn:Hm.
    + cbn in H. inversion H; subst. exists log1.
      unfold get_enum_value. now rewrite Hn, Hm.
    + destruct (enum_call E ed v) as [x|e] eqn:Hc.
      * cbn in H. inversion H; subst.
        destruct (enum_call_member E ed v r Hc) as [m ->]. exists log1.
        unfold get_enum_value. cbn [py_eq orb is_member]. now rewrite String.eqb_refl.
      * destruct e; try (cbn in H; discriminate).
        cbn in H. inversion H; subst.
        eexists. unfold get_enum_value. rewrite Hn, Hm, Hc. reflexivity.
Qed.

Lemma get_enum_value_is_idempotent_witness :
  get_enum_value Sample.program Sample.PayReceive (VStr "pay") []
  = (Ok (VEnum "PayReceive" "Pay"), [])
  /\ exists log2,
       get_enum_value Sample.program Sample.PayReceive (VEnum "PayReceive" "Pay") []
       = (Ok (VEnum "PayReceive" "Pay"), log2).
Proof.
  assert (H : get_enum_value Sample.program Sample.PayReceive (VStr "pay") []
              = (Ok (VEnum "PayReceive" "Pay"), [])) by reflexivity.
  split; [exact H|].
  exact (get_enum_value_is_idempotent _ _ _ _ _ _ H).
Defined.

(** ** The discriminant registry *)

Lemma key_eqb_enum (E : env) (ea ma et mt ea' ma' et' mt' : string) :
  key_eqb E (VEnum ea ma, VEnum et mt) (VEnum ea' ma', VEnum et' mt') = true
  <-> (VEnum ea ma, VEnum et mt) = (VEnum ea' ma', VEnum et' mt').
Proof.
  unfold key_eqb. cbn [fst snd py_eq]. split.
  - intros H. apply andb_prop in H. destruct H as [H1 H2].
    apply andb_prop in H1, H2. destruct H1 as [Ha Hb], H2 as [Hc Hd].
    apply String.eqb_eq in Ha, Hb, Hc, Hd. now subst.
  - intros H. inversion H; subst. now rewrite !String.eqb_refl.
Qed.

Lemma key_eqb_pairs (E : env) (k k' : value * value) :
  enum_pair k -> enum_pair k' -> (key_eqb E k k' = true <-> k = k').
Proof.
  intros [ea [ma [et [mt ->]]]] [ea' [ma' [et' [mt' ->]]]]. apply key_eqb_enum.
Qed.

Lemma registered_set_same (E : env) (k : value * value) (c : string) (reg : registry) :
  enum_pair k -> registered E (registry_set E k c reg) k = Some c.
Proof.
  intros Hk. unfold registered.
  assert (Hrefl : key_eqb E k k = true) by now apply (key_eqb_pairs E k k Hk Hk).
  induction reg as [|[k' c'] r IH]; cbn [registry_set List.find fst].
  - now rewrite Hrefl.
  - destruct (key_eqb E k k') eqn:He; cbn [List.find fst]; rewrite He; [reflexivity | exact IH].
Qed.

Lemma registered_set_other (E : env) (k k1 : value * value) (c : string) (reg : registry) :
  enum_pair k -> enum_pair k1 -> Forall (fun e => enum_pair (fst e)) reg ->
  k1 <> k ->
  registered E (registry_set E k c reg) k1 = registered E reg k1.
Proof.
  intros Hk Hk1 Hreg Hne. unfold registered.
  assert (Hkk : key_eqb E k1 k = false).
  { destruct (key_eqb E k1 k) eqn:He; [|reflexivity].
    apply (key_eqb_pairs E k1 k Hk1 Hk) in He. contradiction. }
  induction Hreg as [|[k' c'] r Hk' Hr IH]; cbn [registry_set List.find fst].
  - now rewrite Hkk.
  - cbn [fst] in Hk'. destruct (key_eqb E k k') eqn:He; cbn [List.find fst].
    + apply (key_eqb_pairs E k k' Hk Hk') in He. subst k'. now rewrite Hkk.
    + destruct (key_eqb E k1 k'); [reflexivity | exact IH].
Qed.

Lemma registry_set_keys (E : env) (k : value * value) (c : string) (reg : registry) :
  enum_pair k -> Forall (fun e => enum_pair (fst e)) reg ->
  Forall (fun e => enum_pair (fst e)) (registry_set E k c reg).
Proof.
  intros Hk Hreg. induction Hreg as [|[k' c'] r Hk' Hr IH]; cbn [registry_set].
  - now repeat constructor.
  - destruct (key_eqb E k k'); constructor; assumption.
Qed.

Lemma enum_keyed_pair (i : instrument_decl) :
  enum_keyed i = true -> enum_pair (in_asset_class i, in_type i).
Proof.
  unfold enum_keyed, enum_pair.
  destruct (in_asset_class i); try discriminate.
  destruct (in_type i); try discriminate.
  intros _. now repeat eexists.
Qed.

Lemma find_last {A} (f : A -> bool) (l : list A) (a : A) :
  List.find f (List.rev (a :: l))
  = match List.find f (List.rev l) with
    | Some x => Some x
    | None => if f a then Some a else None
    end.
Proof.
  cbn [List.rev]. generalize (List.rev l). intros m.
  induction m as [|x m IH]; simpl; [reflexivity|].
  destruct (f x); [reflexivity | exact IH].
Qed.

Lemma registered_fold (E : env) (k : value * value) :
  enum_pair k ->
  forall (instruments : list instrument_decl) (reg : registry),
    List.forallb enum_keyed instruments = true ->
    Forall (fun e => enum_pair (fst e)) reg ->
    registered E
      (fold_left (fun reg i => registry_set E (in_asset_class i, in_type i) (in_class i) reg)
                 instruments reg) k
    = match List.find (fun i => key_eqb E k (in_asset_class i, in_type i))
                      (List.rev instruments) with
      | Some i => Some (in_class i)
      | None => registered E reg k
      end.
Proof.
  intros Hk. induction instruments as [|i r IH]; intros reg Hall Hreg; [reflexivity|].
  cbn [List.forallb] in Hall. apply andb_prop in Hall. destruct Hall as [Hi Hr].
  pose proof (enum_keyed_pair i Hi) as Hki.
  cbn [fold_left]. rewrite (IH _ Hr (registry_set_keys E _ _ reg Hki Hreg)).
  rewrite find_last.
  destruct (List.find (fun i0 => key_eqb E k (in_asset_class i0, in_type i0)) (List.rev r));
    [reflexivity|].
  destruct (key_eqb E k (in_asset_class i, in_type i)) eqn:He.
  - apply (key_eqb_pairs E k _ Hk Hki) in He. subst k. now apply registered_set_same.
  - apply registered_set_other; try assumption.
    intros ->. rewrite (proj2 (key_eqb_pairs E _ _ Hki Hki) eq_refl) in He. discriminate.
Qed.

Lemma registry_get_enum_pair :
  forall L E (ea ma et mt : string),
    List.forallb enum_keyed (env_instruments E) = true ->
    registry_get L E (asset_class_and_type_to_instrument E) (VEnum ea ma, VEnum et mt)
    = Ok (match List.find
                  (fun i => key_eqb E (VEnum ea ma, VEnum et mt) (in_asset_class i, in_type i))
                  (List.rev (env_instruments E)) with
          | Some i => Some (in_class i)
          | None =>
              if key_eqb E (VEnum ea ma, VEnum et mt)
                   (VEnum (en_name (env_AssetClass E)) "Cash",
                    VEnum (en_name (env_AssetType E)) "Currency")
              then Some "Forward" else None
          end).
Proof.
  intros L E ea ma et mt Hall.
  unfold registry_get. cbn [fst snd py_hash hash_items obind]. f_equal.
  fold (registered E (asset_class_and_type_to_instrument E) (VEnum ea ma, VEnum et mt)).
  unfold asset_class_and_type_to_instrument.
  rewrite registered_fold; [| now repeat eexists | exact Hall |].
  - destruct (List.find _ (List.rev (env_instruments E))); [reflexivity|].
    unfold registered. cbn [List.find fst].
    destruct (key_eqb E (VEnum ea ma, VEnum et mt)
                (VEnum (en_name (env_AssetClass E)) "Cash",
                 VEnum (en_name (env_AssetType E)) "Currency")); reflexivity.
  - repeat constructor. cbn [fst]. now repeat eexists.
Qed.


(** X12: the registry [asset_class_and_type_to_instrument] builds holds,
    for a pair of enum members, the class of the last instrument class (in
    the order of [inspect.getmembers]) whose default instance reports that
    pair; when no class reports it, [Forward] for the pair (Cash, Currency)
    and nothing for any other pair. *)
Theorem registry_lookup :
  forall L E (ea ma et mt : string),
    List.forallb enum_keyed (env_instruments E) = true ->
    registry_get L E (asset_class_and_type_to_instrument E) (VEnum ea ma, VEnum et mt)
    = Ok (match List.find
                  (fun i => key_eqb E (VEnum ea ma, VEnum et mt) (in_asset_class i, in_type i))
                  (List.rev (env_instruments E)) with
          | Some i => Some (in_class i)
          | None =>
              if key_eqb E (VEnum ea ma, VEnum et mt)
                   (VEnum (en_name (env_AssetClass E)) "Cash",
                    VEnum (en_name (env_AssetType E)) "Currency")
              then Some "Forward" else None
          end).
Proof. intros. now apply registry_get_enum_pair. Qed.

Lemma registry_lookup_witness :
  List.forallb enum_keyed (env_instruments Sample.program) = true
  /\ registry_get Sample.runtime Sample.program
       (asset_class_and_type_to_instrument Sample.program)
       (VEnum "AssetClass" "Rates", VEnum "AssetType" "Swap")
     = Ok (Some "Swap")
  /\ registry_get Sample.runtime Sample.program
       (asset_class_and_type_to_instrument Sample.program)
       (VEnum "AssetClass" "Cash", VEnum "AssetType" "Currency")
     = Ok (Some "Forward").
Proof.
  split; [reflexivity | split].
  - apply (registry_lookup Sample.runtime Sample.program "AssetClass" "Rates"
             "AssetType" "Swap" eq_refl).
  - apply (registry_lookup Sample.runtime Sample.program "AssetClass" "Cash"
             "AssetType" "Currency" eq_refl).
Defined.



Lemma get_enum_value_exact (E : env) (name : string) (ms : list (string * string))
  (s m : string) (log : list warning) :
  s <> "None" ->
  List.find (fun e => String.eqb (snd e) s) ms = Some (m, s) ->
  get_enum_value E (string_enum name ms) (VStr s) log = (Ok (VEnum name m), log).
Proof.
  intros Hs Hfind. unfold get_enum_value. cbn [py_eq orb is_member].
  apply String.eqb_neq in Hs. rewrite Hs.
  unfold enum_call, string_enum. cbn [en_members en_name].
  now rewrite find_exact_member, Hfind.
Qed.

(** X14: polymorphic construction by the canonical discriminants.  When
    the asset classes and types are enums of strings, a dictionary that
    holds under [asset_class] and [type] the exact values of two members
    is constructed by [_from_dict] of the instrument class registered for
    that pair of members (the last class whose default instance reports
    it), on the dictionary without the two entries; nothing is logged on
    the way. *)
Theorem canonical_discriminants_select_the_class :
  forall L E nested (class_name type_name : string)
         (classes types : list (string * string)) (d : dict)
         (sa st ma mt : string) (i : instrument_decl) (cd : class_decl)
         (log : list warning),
    env_AssetClass E = string_enum class_name classes ->
    env_AssetType E = string_enum type_name types ->
    List.forallb enum_keyed (env_instruments E) = true ->
    assoc "asset_class" d = Some (VStr sa) ->
    assoc "type" (remove_key "asset_class" d) = Some (VStr st) ->
    sa <> "None" ->
    st <> "None" ->
    List.find (fun e => String.eqb (snd e) sa) classes = Some (ma, sa) ->
    List.find (fun e => String.eqb (snd e) st) types = Some (mt, st) ->
    List.find
      (fun j => key_eqb E (VEnum class_name ma, VEnum type_name mt)
                        (in_asset_class j, in_type j))
      (List.rev (env_instruments E)) = Some i ->
    find_class E (in_class i) = Some cd ->
    Instrument_from_dict L E nested (VDict d) log
    = _from_dict L E nested cd
        (VDict (remove_key "type" (remove_key "asset_class" d))) log.
Proof.
  intros L E nested class_name type_name classes types d sa st ma mt i cd log
         Hclasses Htypes Hkeyed Ha Ht Hsa Hst Hma Hmt Hreg Hcd.
  unfold Instrument_from_dict.
  destruct d as [|kv d']; [discriminate|].
  cbn [truthy length Nat.eqb negb].
  unfold bind, lift, pop, dict_pop. rewrite Ha. cbn [obind fst snd].
  rewrite Hclasses, (get_enum_value_exact E class_name classes sa ma log Hsa Hma).
  rewrite Ht. cbn [obind fst snd].
  rewrite Htypes, (get_enum_value_exact E type_name types st mt log Hst Hmt).
  rewrite (registry_get_enum_pair L E class_name ma type_name mt Hkeyed).
  now rewrite Hreg, Hcd.
Qed.

Lemma canonical_discriminants_select_the_class_witness :
  Instrument_from_dict Sample.runtime Sample.program
    (from_dict_named 0 Sample.runtime Sample.program)
    (VDict [("fixedRate", VFloat (1 # 100)); ("type", VStr "Swap");
            ("asset_class", VStr "Rates")]) []
  = _from_dict Sample.runtime Sample.program
      (from_dict_named 0 Sample.runtime Sample.program) Sample.Swap
      (VDict [("fixedRate", VFloat (1 # 100))]) [].
Proof.
  apply (canonical_discriminants_select_the_class Sample.runtime Sample.program
           (from_dict_named 0 Sample.runtime Sample.program)
           "AssetClass" "AssetType"
           [("Cash", "Cash"); ("Commod", "Commod"); ("Credit", "Credit");
            ("Equity", "Equity"); ("FX", "FX"); ("Rates", "Rates")]
           [("Cap", "Cap"); ("Currency", "Currency"); ("Forward", "Forward");
            ("Swap", "Swap"); ("Swaption", "Swaption")]
           [("fixedRate", VFloat (1 # 100)); ("type", VStr "Swap");
            ("asset_class", VStr "Rates")]
           "Rates" "Swap" "Rates" "Swap"
           (mk_instrument "Swap" (VEnum "AssetClass" "Rates") (VEnum "AssetType" "Swap"))
           Sample.Swap []);
    try reflexivity; discriminate.
Defined.

(** ** [clone] and the cached hash *)

Lemma heap_update_Forall (P : value -> Prop) (g : value -> value) :
  (forall o, P o -> P (g o)) ->
  forall (a : nat) (hp : heap), Forall P hp -> Forall P (heap_update a g hp).
Proof.
  intros Hg a hp Hhp. revert a.
  induction Hhp as [|o r Ho Hr IH]; intros a; [destruct a; constructor|].
  destruct a as [|a]; cbn [heap_update]; constructor; auto.
Qed.

Lemma clone_loop_coherent (H : hasher) (E : env) (props : list string) (a : nat) :
  forall (kwargs : dict) (hp : heap),
    List.forallb (fun kv => coherent H E (snd kv)) kwargs = true ->
    Forall (fun o => coherent H E o = true) hp ->
    Forall (fun o => coherent H E o = true) (snd (clone_loop E props kwargs a hp)).
Proof.
  induction kwargs as [|[k v] r IH]; intros hp Hkw Hhp; [exact Hhp|].
  cbn [List.forallb snd] in Hkw. apply andb_prop in Hkw. destruct Hkw as [Hv Hr].
  cbn [clone_loop]. destruct (mem k props); [|exact Hhp].
  apply (IH _ Hr). apply heap_update_Forall; [|exact Hhp].
  intros o Ho. now apply setattr_keeps_coherent.
Qed.

(** X15: [clone] leaves no stale cached hash: if no object of the heap
    holds one, at any depth, and neither do the values given as overrides,
    then no object holds one afterwards, the copy included, whether the
    call returns or raises. *)
Theorem clone_keeps_cached_hashes_current :
  forall (H : hasher) (E : env) (hp : heap) (self : nat) (kwargs : dict),
    Forall (fun o => coherent H E o = true) hp ->
    List.forallb (fun kv => coherent H E (snd kv)) kwargs = true ->
    Forall (fun o => coherent H E o = true) (snd (clone E hp self kwargs)).
Proof.
  intros H E hp self kwargs Hhp Hkw. unfold clone.
  destruct (nth_error hp self) as [o|] eqn:Hself; [|exact Hhp].
  destruct o as [| | | | | | | | | | |c f h]; try exact Hhp.
  assert (Hcopy : Forall (fun o => coherent H E o = true) (hp ++ [VObj c f h])).
  { apply List.Forall_app. split; [exact Hhp|]. constructor; [|constructor].
    rewrite List.Forall_forall in Hhp. apply Hhp. eapply List.nth_error_In. exact Hself. }
  pose proof (clone_loop_coherent H E (properties E c) (length hp) kwargs _ Hkw Hcopy) as Hr.
  destruct (clone_loop E (properties E c) kwargs (length hp) (hp ++ [VObj c f h]))
    as [[u|e] hp']; exact Hr.
Qed.

Lemma clone_keeps_cached_hashes_current_witness :
  let quote := VObj "Quote" [("asset_id", VStr "SPX"); ("bid_price", VInt 1); ("side", VNone)]
                    (Some 292569%Z) in
  clone Sample.program [quote] 0 [("bid_price", VInt 2)]
  = (Ok 1, [quote; VObj "Quote" [("asset_id", VStr "SPX"); ("bid_price", VInt 2);
                                 ("side", VNone)] None])
  /\ Forall (fun o => coherent Sample.hashes Sample.program o = true)
       (snd (clone Sample.program [quote] 0 [("bid_price", VInt 2)])).
Proof.
  intro quote. split; [reflexivity|].
  apply (clone_keeps_cached_hashes_current Sample.hashes Sample.program [quote] 0
           [("bid_price", VInt 2)]).
  - repeat constructor.
  - reflexivity.
Defined.

(** ** Keywords under their normalised names *)

Lemma normalise_kwargs_closed (kwargs : dict) :
  forall todo acc,
    (forall a, In a (keys todo) ->
       normalised_name a <> _normalise_arg a -> ~ In (normalised_name a) (keys kwargs)) ->
    normalise_kwargs kwargs todo acc
    = Ok (fold_left (fun d kv => dict_set (normalised_name (fst kv)) (snd kv) d) todo acc).
Proof.
  induction todo as [|[a v] r IH]; intros acc H; [reflexivity|].
  assert (Hr : forall b, In b (keys r) ->
                 normalised_name b <> _normalise_arg b ->
                 ~ In (normalised_name b) (keys kwargs))
    by (intros b Hb; apply H; now right).
  assert (Ha : normalised_name a <> _normalise_arg a ->
               ~ In (normalised_name a) (keys kwargs)) by (apply H; now left).
  assert (Hnn : normalised_name a
                = if Str.isupper (_normalise_arg a) then _normalise_arg a
                  else Inflection.underscore (_normalise_arg a)) by reflexivity.
  cbn [normalise_kwargs fold_left fst snd].
  destruct (Str.isupper (_normalise_arg a)); cbn [negb].
  - rewrite Hnn. now apply IH.
  - destruct (String.eqb (Inflection.underscore (_normalise_arg a)) (_normalise_arg a))
      eqn:He; cbn [negb].
    + apply String.eqb_eq in He. rewrite Hnn, He. now apply IH.
    + apply String.eqb_neq in He. rewrite Hnn in Ha |- *.
      destruct (mem (Inflection.underscore (_normalise_arg a)) (keys kwargs)) eqn:Hm.
      * apply mem_In in Hm. exfalso. exact (Ha He Hm).
      * now apply IH.
Qed.

(** X16: when no two keyword arguments have the same normalised name and
    no argument given under a wire name is also given under the snake_case
    form of it, [BaseMeta.__call__] raises nothing of its own and calls
    [__init__] with every argument, in order and with its value, under its
    normalised name: the name itself when it is all upper case, else its
    snake_case form, a reserved word first taking an underscore.  So a
    field may be given under its wire name or its canonical name alike. *)
Theorem keywords_are_passed_under_their_normalised_names :
  forall (cd : class_decl) (kwargs : dict),
    NoDup (List.map normalised_name (keys kwargs)) ->
    (forall a, In a (keys kwargs) ->
       normalised_name a <> _normalise_arg a -> ~ In (normalised_name a) (keys kwargs)) ->
    BaseMeta__call__ cd kwargs
    = generated__init__ cd
        (List.map (fun kv => (normalised_name (fst kv), snd kv)) kwargs).
Proof.
  intros cd kwargs Hnd Hfree. unfold BaseMeta__call__.
  rewrite (normalise_kwargs_closed kwargs kwargs [] Hfree). cbn [obind]. f_equal.
  rewrite <- (fold_left_map (fun d kv => dict_set (fst kv) (snd kv) d)
                (fun kv : string * value => (normalised_name (fst kv), snd kv))).
  rewrite fold_dict_set_distinct; [reflexivity|].
  cbn [List.app]. unfold keys in *. rewrite List.map_map. cbn [fst].
  now rewrite List.map_map in Hnd.
Qed.

Lemma keywords_are_passed_under_their_normalised_names_witness :
  BaseMeta__call__ Sample.Swap
    [("payOrReceive", VEnum "PayReceive" "Pay"); ("fixedRate", VFloat (1 # 100))]
  = BaseMeta__call__ Sample.Swap
      [("pay_or_receive", VEnum "PayReceive" "Pay"); ("fixed_rate", VFloat (1 # 100))].
Proof.
  rewrite (keywords_are_passed_under_their_normalised_names Sample.Swap
             [("payOrReceive", VEnum "PayReceive" "Pay"); ("fixedRate", VFloat (1 # 100))]).
  - reflexivity.
  - repeat constructor; simpl; intuition discriminate.
  - intros a [<- | [<- | []]] _ [H | [H | []]]; discriminate.
Defined.

(** ** Properties annotated with a union *)

Lemma first_domain_class_plain (args : list hint) :
  Forall (fun h => exists c, h = HClass c /\ is_domain_class c = false) args ->
  first_domain_class args = Ok None.
Proof.
  induction 1 as [|h r [c [-> Hc]] Hr IH]; [reflexivity|].
  cbn [first_domain_class]. now rewrite Hc.
Qed.

(** X17: a property whose annotation is a union of classes none of which
    derives from [Base] or [EnumBase] has no property type, and
    [__from_dict] assigns the raw value of the dictionary to it unchanged,
    logging nothing: an [Optional] date-time is not parsed, an [Optional]
    list is not made a tuple. *)
Theorem union_of_plain_classes_is_not_coerced :
  forall L E nested (cd : class_decl) (prop : string) (args : list hint)
         (v : value) (log : list warning),
    assoc prop (cd_props cd) = Some (HUnion args) ->
    Forall (fun h => exists c, h = HClass c /\ is_domain_class c = false) args ->
    prop_type cd prop = Ok None
    /\ coerce_prop L E nested cd prop v log = (Ok v, log).
Proof.
  intros L E nested cd prop args v log Hprop Hargs.
  assert (Hty : prop_type cd prop = Ok None).
  { unfold prop_type. rewrite Hprop. now apply first_domain_class_plain. }
  split; [exact Hty|].
  unfold coerce_prop, bind, lift. now rewrite Hty.
Qed.

Lemma union_of_plain_classes_is_not_coerced_witness :
  coerce_prop Sample.runtime Sample.program
    (from_dict_named 0 Sample.runtime Sample.program) Tick "time"
    (VStr "2020-01-01T00:00:00Z") []
  = (Ok (VStr "2020-01-01T00:00:00Z"), []).
Proof.
  apply (union_of_plain_classes_is_not_coerced Sample.runtime Sample.program
           (from_dict_named 0 Sample.runtime Sample.program) Tick "time"
           [HClass CDatetime; HClass (CPlain "NoneType")]).
  - reflexivity.
  - repeat constructor; eexists; split; reflexivity.
Defined.

(** ** The hash and the order of the properties *)

Lemma fold_lxor_start (hs : list Z) (a b : Z) :
  fold_left Z.lxor hs (Z.lxor a b) = Z.lxor a (fold_left Z.lxor hs b).
Proof.
  revert b. induction hs as [|h r IH]; intros b; [reflexivity|].
  cbn [fold_left]. rewrite <- IH. now rewrite Z.lxor_assoc.
Qed.

Lemma fold_lxor_from (hs : list Z) (a : Z) :
  fold_left Z.lxor hs a = Z.lxor a (fold_left Z.lxor hs 0%Z).
Proof. rewrite <- (Z.lxor_0_r a) at 1. apply fold_lxor_start. Qed.

Lemma fold_lxor_perm (hs hs' : list Z) :
  Permutation hs hs' -> fold_left Z.lxor hs 0%Z = fold_left Z.lxor hs' 0%Z.
Proof.
  induction 1 as [|x l l' Hp IH|x y l|l l' l'' H1 IH1 H2 IH2].
  - reflexivity.
  - cbn [fold_left]. rewrite (fold_lxor_from l), (fold_lxor_from l'). now rewrite IH.
  - cbn [fold_left]. rewrite !Z.lxor_0_l. now rewrite (Z.lxor_comm y x).
  - now rewrite IH1.
Qed.

Lemma xor_all_fold (h : Z) (hs : list Z) :
  xor_all (h :: hs) = fold_left Z.lxor (h :: hs) 0%Z.
Proof. cbn [xor_all fold_left]. now rewrite Z.lxor_0_l. Qed.

Lemma xor_all_perm (hs hs' : list Z) :
  Permutation hs hs' -> xor_all hs = xor_all hs'.
Proof.
  intros Hp. destruct hs as [|h r], hs' as [|h' r'].
  - reflexivity.
  - apply Permutation_nil in Hp. discriminate.
  - apply Permutation_sym, Permutation_nil in Hp. discriminate.
  - rewrite !xor_all_fold. now apply fold_lxor_perm.
Qed.

Lemma map_total (fh : string -> outcome Z) (props : list string) :
  (forall p, In p props -> exists z, fh p = Ok z) ->
  List.map fh props
  = List.map Ok (List.map (fun p => match fh p with Ok z => z | Raise _ => 0%Z end) props).
Proof.
  induction props as [|p r IH]; intros Hall; [reflexivity|].
  cbn [List.map]. destruct (Hall p (or_introl eq_refl)) as [z Hz]. rewrite Hz.
  f_equal. apply IH. intros q Hq. apply Hall. now right.
Qed.

(** X18: the hash [Base.__hash__] computes does not depend on the order
    in which the set of properties is iterated: for two orders of the same
    properties, whose fields can all be hashed, it is the same number. *)
Theorem hash_is_independent_of_the_property_order :
  forall (H : hasher) (E : env) f (props props' : list string),
    Permutation props props' ->
    ~ In EmptyString props ->
    (forall p, In p props -> exists z, py_hash H E (getattr f p) = Ok z) ->
    calc_hash (fun p => py_hash H E (getattr f p)) props
    = calc_hash (fun p => py_hash H E (getattr f p)) props'.
Proof.
  intros H E f props props' Hperm Hne Hall.
  set (fh := fun p => py_hash H E (getattr f p)) in *.
  set (h := fun p => match fh p with Ok z => z | Raise _ => 0%Z end).
  rewrite (calc_hash_xor fh props (List.map h props) Hne (map_total fh props Hall)).
  rewrite (calc_hash_xor fh props' (List.map h props')).
  - f_equal. apply xor_all_perm. now apply Permutation_map.
  - intros Hin. apply Hne. eapply Permutation_in; [apply Permutation_sym|]; eassumption.
  - apply map_total. intros p Hp. apply Hall.
    eapply Permutation_in; [apply Permutation_sym|]; eassumption.
Qed.

Lemma hash_is_independent_of_the_property_order_witness :
  let f := [("asset_id", VStr "SPX"); ("bid_price", VInt 1); ("side", VNone)] in
  let fh := fun p => py_hash Sample.hashes Sample.program (getattr f p) in
  calc_hash fh ["asset_id"; "bid_price"; "side"] = Ok 292569%Z
  /\ calc_hash fh ["side"; "asset_id"; "bid_price"] = Ok 292569%Z.
Proof.
  intros f fh. split; [reflexivity|]. unfold fh.
  rewrite <- (hash_is_independent_of_the_property_order Sample.hashes Sample.program f
                ["asset_id"; "bid_price"; "side"] ["side"; "asset_id"; "bid_price"]).
  - reflexivity.
  - apply Permutation_sym. apply (Permutation_cons_app ["asset_id"; "bid_price"] []).
    reflexivity.
  - intros [H | [H | [H | []]]]; discriminate.
  - intros p [<- | [<- | [<- | []]]]; eexists; reflexivity.
Defined.

(** ** The round trip of an object with unset fields *)

Lemma assoc_filter_set (l : dict) (k : string) :
  NoDup (keys l) ->
  assoc k (List.filter (fun kv => negb (is_none (snd kv))) l)
  = match assoc k l with
    | Some v => if is_none v then None else Some v
    | None => None
    end.
Proof.
  induction l as [|[k' v] r IH]; intros Hnd; [reflexivity|].
  cbn [keys List.map fst] in Hnd. inversion Hnd as [|? ? Hk' Hr]; subst.
  cbn [List.filter snd assoc]. destruct (is_none v) eqn:Hv; cbn [negb].
  - rewrite (IH Hr). destruct (String.eqb k k') eqn:He; [|reflexivity].
    apply String.eqb_eq in He. subst k'.
    apply assoc_None_not_key in Hk'. now rewrite Hk', Hv.
  - cbn [assoc]. destruct (String.eqb k k'); [now rewrite Hv | exact (IH Hr)].
Qed.

Lemma remove_key_filter {A} (keep : string * A -> bool) (k : string)
  (l : list (string * A)) :
  NoDup (keys l) ->
  remove_key k (List.filter keep l) = List.filter keep (remove_key k l).
Proof.
  induction l as [|[k' v] r IH]; intros Hnd; [reflexivity|].
  cbn [keys List.map fst] in Hnd. inversion Hnd as [|? ? Hk' Hr]; subst.
  cbn [List.filter remove_key]. destruct (String.eqb k k') eqn:He.
  - apply String.eqb_eq in He. subst k'. destruct (keep (k, v)).
    + cbn [remove_key]. now rewrite String.eqb_refl.
    + apply remove_key_absent. apply assoc_None_not_key. intros Hin. apply Hk'.
      unfold keys in *. apply List.in_map_iff in Hin. destruct Hin as [x [Hx Hin]].
      apply List.in_map_iff. exists x. split; [exact Hx|].
      apply List.filter_In in Hin. tauto.
  - cbn [List.filter]. destruct (keep (k', v)).
    + cbn [remove_key]. rewrite He. now rewrite (IH Hr).
    + exact (IH Hr).
Qed.

Lemma remove_keys_filter {A} (keep : string * A -> bool) (ks : list string) :
  forall l : list (string * A),
    NoDup (keys l) ->
    remove_keys ks (List.filter keep l) = List.filter keep (remove_keys ks l).
Proof.
  induction ks as [|k r IH]; intros l Hnd; [reflexivity|].
  cbn [remove_keys]. rewrite (remove_key_filter keep k l Hnd).
  apply IH. now apply NoDup_remove_key.
Qed.

Lemma NoDup_remove_keys {A} (ks : list string) :
  forall l : list (string * A), NoDup (keys l) -> NoDup (keys (remove_keys ks l)).
Proof.
  induction ks as [|k r IH]; intros l Hnd; [exact Hnd|].
  cbn [remove_keys]. apply IH. now apply NoDup_remove_key.
Qed.

(** Dropping the entries that hold [None] changes nothing of what
    [__from_dict] reads. *)
Lemma read_filtered (l : dict) (p : string) :
  NoDup (keys l) ->
  (assoc p l <> None -> wire_name p = p \/ assoc (wire_name p) l = None) ->
  read (List.filter (fun kv => negb (is_none (snd kv))) l) p = read l p.
Proof.
  intros Hnd Hwire. unfold read, dict_get.
  rewrite !(assoc_filter_set l _ Hnd).
  destruct (assoc p l) as [v|] eqn:Hp.
  - destruct (is_none v) eqn:Hv.
    + apply is_none_true in Hv. subst v.
      destruct (Hwire ltac:(discriminate)) as [Hsame | Hnone].
      * rewrite Hsame, Hp. reflexivity.
      * now rewrite Hnone.
    + reflexivity.
  - destruct (assoc (wire_name p) l) as [w|]; [|reflexivity].
    destruct (is_none w) eqn:Hw; [|reflexivity].
    apply is_none_true in Hw. now subst w.
Qed.

Lemma filter_entries (nm : string -> string) (g : string -> value)
  (props : list string) :
  List.filter (fun kv => negb (is_none (snd kv))) (entries nm g props)
  = entries nm g (List.filter (fun p => negb (is_none (g p))) props).
Proof.
  unfold entries. induction props as [|p r IH]; [reflexivity|].
  cbn [List.map List.filter snd]. destruct (is_none (g p)); cbn [negb List.map];
    now rewrite IH.
Qed.

Lemma getattr_unset (props : list string) (x : string) :
  getattr (List.map (fun p : string => (p, VNone)) props) x = VNone.
Proof.
  unfold getattr. induction props as [|p r IH]; [reflexivity|].
  cbn [List.map assoc]. destruct (String.eqb x p); [reflexivity | exact IH].
Qed.

Lemma assoc_map_named {A} (h : param -> A) (params : list param) (x : string) (v : A) :
  assoc x (List.map (fun p => (p_name p, h p)) params) = Some v ->
  exists p, In p params /\ p_name p = x /\ v = h p.
Proof.
  induction params as [|q r IH]; cbn [List.map assoc]; [discriminate|].
  destruct (String.eqb x (p_name q)) eqn:He.
  - intros Hv. inversion Hv; subst. apply String.eqb_eq in He.
    exists q. split; [now left | split; [now symmetry | reflexivity]].
  - intros Hv. destruct (IH Hv) as [p [Hp Hrest]].
    exists p. split; [now right | exact Hrest].
Qed.

(** The constructor of a regular class whose defaults are [None], called
    with its required arguments: the other fields are [None]. *)
Lemma construct_regular_defaults (cd : class_decl) (val : string -> value) :
  regular cd ->
  (forall p d, In p (List.tl (cd_init cd)) -> p_default p = Some d -> d = VNone) ->
  exists fields0,
    BaseMeta__call__ cd (entries (fun a => a) val (required_args cd))
    = Ok (VObj (cd_name cd) fields0 None)
    /\ (forall a, In a (required_args cd) -> getattr fields0 a = val a)
    /\ (forall x, ~ In x (required_args cd) -> getattr fields0 x = VNone).
Proof.
  intros Hreg Hdefaults.
  pose proof (required_args_distinct cd Hreg) as Hargs_nd.
  set (args := required_args cd) in *.
  set (kwargs := entries (fun a => a) val args).
  assert (Hkeys : keys kwargs = args).
  { unfold kwargs. rewrite keys_entries. apply List.map_id. }
  unfold BaseMeta__call__.
  rewrite normalise_kwargs_plain.
  2:{ intros a Ha. rewrite Hkeys in Ha.
      destruct (reg_params cd Hreg a (required_args_are_params cd a Hreg Ha))
        as [_ [_ [_ [Hres Hsnake]]]]. now split. }
  rewrite fold_dict_set_distinct by (cbn [app]; now rewrite Hkeys).
  cbn [app obind]. unfold generated__init__.
  rewrite bind_params_ok.
  - cbn [obind]. eexists. split; [reflexivity|].
    assert (Hfield : forall x,
               getattr
                 (fold_left (fun f av => dict_set (prop_name_of (fst av)) (snd av) f)
                    (List.map (fun p => (p_name p, bound_value kwargs p))
                              (List.tl (cd_init cd)))
                    (List.map (fun p : string => (p, VNone)) (properties_of cd))) x
               = match assoc x (List.map (fun p => (p_name p, bound_value kwargs p))
                                         (List.tl (cd_init cd))) with
                 | Some v => v
                 | None => VNone
                 end).
    { intros x.
      rewrite (fold_left_ext_in _ (fun f av => dict_set (fst av) (snd av) f)).
      2:{ intros f0 [k v] Hin. cbn [fst snd]. apply List.in_map_iff in Hin.
          destruct Hin as [p [Hp Hin]]. inversion Hp; subst.
          destruct (reg_params cd Hreg (p_name p) (List.in_map p_name _ _ Hin))
            as [_ [Hname _]]. now rewrite Hname. }
      rewrite getattr_fold_set.
      2:{ unfold keys. rewrite List.map_map. cbn [fst].
          apply (reg_params_distinct cd Hreg). }
      now rewrite getattr_unset. }
    split.
    + intros a Ha. rewrite Hfield.
      pose proof (required_args_are_params cd a Hreg Ha) as Hparam.
      apply List.in_map_iff in Hparam. destruct Hparam as [p [Hp Hin]]. subst a.
      rewrite (assoc_named (bound_value kwargs) _ p (reg_params_distinct cd Hreg) Hin).
      unfold bound_value, kwargs.
      rewrite (assoc_entries (fun a => a) val args (p_name p)); [reflexivity | | exact Ha].
      intros q _ Hq. exact Hq.
    + intros x Hx. rewrite Hfield.
      destruct (assoc x (List.map (fun p => (p_name p, bound_value kwargs p))
                                  (List.tl (cd_init cd)))) as [v|] eqn:Hv; [|reflexivity].
      pose proof (assoc_map_named (bound_value kwargs) _ x v Hv) as Hin.
      destruct Hin as [p [Hp [Hname ->]]]. unfold bound_value.
      assert (Hnone : assoc (p_name p) kwargs = None).
      { apply assoc_None_not_key. rewrite Hkeys, Hname. exact Hx. }
      rewrite Hnone. destruct (p_default p) as [d|] eqn:Hd; [|reflexivity].
      exact (Hdefaults p d Hp Hd).
  - apply (reg_params_distinct cd Hreg).
  - rewrite Hkeys. exact Hargs_nd.
  - intros k Hk. rewrite Hkeys in Hk. now apply required_args_are_params.
  - intros p Hp Hnone Hdef.
    assert (Ha : In (p_name p) args).
    { unfold args. rewrite (required_args_regular cd Hreg). apply List.in_map.
      apply List.filter_In. split; [exact Hp|]. now rewrite Hdef. }
    unfold kwargs in Hnone.
    rewrite (assoc_entries (fun a => a) val args (p_name p)) in Hnone;
      [discriminate | | exact Ha].
    intros q _ Hq. exact Hq.
Qed.

(** X19: the round trip holds for an object with unset fields too.  For a
    class outside the instrument hierarchy declared as the generator
    writes it, whose optional constructor parameters default to [None],
    and an object of it each field of which is unset ([None]) or holds a
    value that construction stores as it is, [as_dict], in either
    spelling, followed by [from_dict] gives, without raising or logging,
    an object of the class each field of which is that of the original:
    the unset fields, which [as_dict] leaves out, come back as [None]. *)
Theorem round_trip_keeps_unset_fields :
  forall (fuel : nat) (L : library) (E : env) (cd : class_decl) f h
         (as_camel_case : bool) (log : list warning),
    find_class E (cd_name cd) = Some cd ->
    cd_instrument cd = false ->
    regular cd ->
    (forall p d, In p (List.tl (cd_init cd)) -> p_default p = Some d -> d = VNone) ->
    (forall a, In a (required_args cd) -> exists pt, prop_type cd a = Ok pt) ->
    (forall p, In p (properties_of cd) ->
       getattr f p = VNone \/ passes_through cd p (getattr f p) = true) ->
    exists d f' rest,
      as_dict E (VObj (cd_name cd) f h) as_camel_case = Ok d
      /\ from_dict fuel L E cd (VDict d) log
         = (Ok (VObj (cd_name cd) f' None, rest), log)
      /\ (forall p, In p (properties_of cd) -> getattr f' p = getattr f p).
Proof.
  intros fuel L E cd f h as_camel_case log Hfind Hplain Hreg Hdefaults Htyped Hpass.
  set (props := properties_of cd) in *.
  set (g := getattr f).
  set (full := entries (spelling as_camel_case) g props).
  set (d := List.filter (fun kv => negb (is_none (snd kv))) full).
  set (args := required_args cd).
  set (val := fun a => dict_get a d VNone).
  destruct (entries_facts cd g as_camel_case Hreg) as [Hnd Hfacts].
  fold props in Hfacts. fold full in Hnd, Hfacts.
  assert (Hargs : forall a, In a args -> In a props).
  { intros a Ha.
    now destruct (reg_params cd Hreg a (required_args_are_params cd a Hreg Ha)). }
  assert (Hd' : remove_keys args d
                = List.filter (fun kv => negb (is_none (snd kv))) (remove_keys args full)).
  { unfold d. now apply remove_keys_filter. }
  assert (Hread : forall p, In p props ->
             read (remove_keys args d) p = read (remove_keys args full) p).
  { intros p Hp. rewrite Hd'. apply read_filtered.
    - now apply NoDup_remove_keys.
    - intros Hsome. destruct (Hfacts p Hp) as [_ [_ H3]].
      destruct (assoc p full) as [v|] eqn:Hv.
      + destruct (H3 ltac:(discriminate)) as [Hsame | Hnone]; [now left | right].
        now apply assoc_remove_keys_None.
      + exfalso. apply Hsome. now apply assoc_remove_keys_None. }
  assert (Hget : forall k, dict_get k d VNone = dict_get k full VNone).
  { intros k. unfold dict_get, d. rewrite (assoc_filter_set full k Hnd).
    destruct (assoc k full) as [v|]; [|reflexivity].
    destruct (is_none v) eqn:Hv; [|reflexivity].
    apply is_none_true in Hv. now subst v. }
  assert (Hval : forall a, In a args -> val a = g a \/ val a = VNone).
  { intros a Ha. unfold val. rewrite Hget. unfold dict_get.
    destruct (Hfacts a (Hargs a Ha)) as [[Hs | Hn] _]; [rewrite Hs | rewrite Hn]; tauto. }
  destruct (construct_regular_defaults cd val Hreg Hdefaults)
    as [fields0 [Hcons [Hfields0 Hunset]]].
  fold args in Hcons, Hfields0, Hunset.
  destruct (from_dict_loop L E (from_dict_named fuel L E) cd (cd_name cd)
              (remove_keys args d)
              ltac:(unfold properties; now rewrite Hfind) props fields0 log
              (reg_props_distinct cd Hreg)) as [f' [Hloop [Hset Hkeep]]].
  { intros p Hp. split; [exact Hp | split; [now apply (reg_wire_defined cd Hreg)|]].
    rewrite (Hread p Hp).
    destruct (read_after_pop cd g as_camel_case Hreg p Hp) as [Hr | [Hr _]];
      fold props in Hr; fold full in Hr; fold args in Hr.
    - rewrite Hr. apply (Hpass p Hp).
    - now left. }
  assert (Hsame : forall p, In p props -> getattr f' p = getattr f p).
  { intros p Hp.
    destruct (read_after_pop cd g as_camel_case Hreg p Hp) as [Hr | [Hr [Hin Hsome]]];
      fold props in Hr; fold full in Hr; fold args in Hr; rewrite <- (Hread p Hp) in Hr.
    - destruct (is_none (g p)) eqn:Hnone.
      + apply is_none_true in Hnone. rewrite Hkeep by (right; now rewrite Hr).
        fold (g p). rewrite Hnone.
        destruct (List.in_dec String.string_dec p args) as [Hin | Hout].
        * rewrite (Hfields0 p Hin).
          destruct (Hval p Hin) as [Hv | Hv]; rewrite Hv; [exact Hnone | reflexivity].
        * now apply Hunset.
      + rewrite Hset; [exact Hr | exact Hp|].
        rewrite Hr. intros Hn. rewrite Hn in Hnone. discriminate.
    - fold props in Hsome. fold full in Hsome. fold args in Hin.
      rewrite Hkeep by now right.
      rewrite (Hfields0 p Hin). unfold val. rewrite Hget. unfold dict_get.
      now rewrite Hsome. }
  exists d, f', (VDict (remove_keys args d)). split; [|split; [|exact Hsame]].
  - unfold d, full. rewrite filter_entries. unfold entries, g.
    replace props with (properties E (cd_name cd))
      by (unfold properties; now rewrite Hfind).
    apply as_dict_closed.
    + unfold properties. rewrite Hfind. apply NoDup_map_injective.
      * intros x y Hx Hy. destruct as_camel_case; cbn [spelling]; [|tauto].
        now apply (reg_wire_distinct cd Hreg).
      * apply (reg_props_distinct cd Hreg).
    + intros _ Hin. unfold properties in Hin. rewrite Hfind in Hin.
      now apply (reg_wire_defined cd Hreg EmptyString Hin).
  - unfold from_dict, from_dict_of. rewrite Hplain. unfold _from_dict.
    unfold bind at 1.
    rewrite (collect_required_passthrough E (from_dict_named fuel L E) cd val).
    + rewrite fold_set_args by (cbn [keys List.map app]; apply (required_args_distinct cd Hreg)).
      cbn [app]. unfold bind at 1. unfold lift at 1. fold args. rewrite Hcons.
      unfold bind at 1. fold props. rewrite Hloop. reflexivity.
    + apply (required_args_distinct cd Hreg).
    + intros a Ha. fold args in Ha.
      destruct (reg_params cd Hreg a (required_args_are_params cd a Hreg Ha))
        as [_ [Hname _]].
      split; [exact Hname | split; [reflexivity|]].
      destruct (Htyped a Ha) as [pt Hpt].
      exists pt. split; [exact Hpt|]. intros log0.
      destruct (Hval a Ha) as [Hv | Hv]; rewrite Hv.
      * destruct (Hpass a (Hargs a Ha)) as [Hn | Hp].
        -- fold (g a) in Hn. rewrite Hn. apply coerce_required_None.
        -- now apply (coerce_required_passes E _ cd a).
      * apply coerce_required_None.
Qed.

Lemma round_trip_keeps_unset_fields_witness :
  let quote := VObj "Quote" [("asset_id", VStr "SPX"); ("bid_price", VNone); ("side", VNone)]
                    (Some 7%Z) in
  as_dict Sample.program quote true = Ok [("assetId", VStr "SPX")]
  /\ exists d f' rest,
       as_dict Sample.program quote true = Ok d
       /\ from_dict 0 Sample.runtime Sample.program Sample.Quote (VDict d) []
          = (Ok (VObj "Quote" f' None, rest), [])
       /\ (forall p, In p (properties_of Sample.Quote) ->
             getattr f' p
             = getattr [("asset_id", VStr "SPX"); ("bid_price", VNone); ("side", VNone)] p).
Proof.
  intro quote. split; [reflexivity|].
  apply (round_trip_keeps_unset_fields 0 Sample.runtime Sample.program Sample.Quote
           [("asset_id", VStr "SPX"); ("bid_price", VNone); ("side", VNone)]
           (Some 7%Z) true []).
  - reflexivity.
  - reflexivity.
  - exact Quote_regular.
  - intros p d [<- | [<- | [<- | []]]] Hd; inversion Hd; reflexivity.
  - intros a [<- | []]. eexists. reflexivity.
  - intros p [<- | [<- | [<- | []]]]; [right | left | left]; reflexivity.
Defined.

(** ** Fractional seconds *)

Lemma span_digits_spec (r : string) :
  forall ds rest,
    Str.span_digits r = (ds, rest) ->
    r = (ds ++ rest)%string /\ Str.forallb Str.is_digit ds = true.
Proof.
  induction r as [|c r IH]; intros ds rest H.
  - cbn in H. inversion H; subst. now split.
  - cbn [Str.span_digits] in H. destruct (Str.is_digit c) eqn:Hc.
    + destruct (Str.span_digits r) as [ds' rest'] eqn:Hr. inversion H; subst.
      destruct (IH ds' rest eq_refl) as [Heq Hds]. split.
      * cbn [append]. now rewrite <- Heq.
      * cbn [Str.forallb]. now rewrite Hc, Hds.
    + inversion H; subst. now split.
Qed.

Lemma search_subseconds_sound (s : string) :
  forall pre ds post,
    search_subseconds s = Some (pre, ds, post) ->
    s = (pre ++ String "." (ds ++ String "Z" post))%string
    /\ Str.forallb Str.is_digit ds = true
    /\ (post = EmptyString \/ post = String "010" EmptyString).
Proof.
  induction s as [|c r IH]; intros pre ds post H; [discriminate|].
  cbn [search_subseconds] in H.
  destruct (Ascii.eqb c ".") eqn:Hc.
  - destruct (Str.span_digits r) as [ds0 rest0] eqn:Hspan.
    destruct rest0 as [|z rest].
    + destruct (search_subseconds r) as [[[pre' ds'] post']|] eqn:Hr; [|discriminate].
      inversion H; subst. destruct (IH _ _ _ eq_refl) as [Heq Hrest].
      split; [cbn [append]; now rewrite <- Heq | exact Hrest].
    + destruct (Ascii.eqb z "Z"
                && (String.eqb rest EmptyString
                    || String.eqb rest (String "010" EmptyString))) eqn:Hz.
      * inversion H; subst. apply andb_prop in Hz. destruct Hz as [Hz Hpost].
        apply Ascii.eqb_eq in Hc, Hz. subst c z.
        destruct (span_digits_spec r ds (String "Z" post) Hspan) as [Heq Hds].
        split; [cbn [append]; now rewrite <- Heq | split; [exact Hds|]].
        apply Bool.orb_true_iff in Hpost.
        destruct Hpost as [Hp | Hp]; apply String.eqb_eq in Hp; [now left | now right].
      * destruct (search_subseconds r) as [[[pre' ds'] post']|] eqn:Hr; [|discriminate].
        inversion H; subst. destruct (IH _ _ _ eq_refl) as [Heq Hrest].
        split; [cbn [append]; now rewrite <- Heq | exact Hrest].
  - destruct (search_subseconds r) as [[[pre' ds'] post']|] eqn:Hr; [|discriminate].
    inversion H; subst. destruct (IH _ _ _ eq_refl) as [Heq Hrest].
    split; [cbn [append]; now rewrite <- Heq | exact Hrest].
Qed.

(** X20: the truncation of fractional seconds in [__from_dict] changes a
    string only when the string ends in a dot, more than six decimal
    digits and [Z] (or that and a final newline), and then it only cuts
    the digits to the first six; every other string, one that ends in a
    UTC offset in place of [Z] among them, is passed to the parser as it
    is. *)
Theorem truncation_only_cuts_long_fractions :
  forall s : string,
    truncate_subseconds s = s
    \/ exists pre ds post,
         s = (pre ++ "." ++ ds ++ "Z" ++ post)%string
         /\ Str.forallb Str.is_digit ds = true
         /\ 6 < String.length ds
         /\ (post = EmptyString \/ post = String "010" EmptyString)
         /\ truncate_subseconds s = (pre ++ "." ++ Str.take 6 ds ++ "Z" ++ post)%string.
Proof.
  intros s. unfold truncate_subseconds.
  destruct (search_subseconds s) as [[[pre ds] post]|] eqn:Hs; [|now left].
  destruct (6 <? String.length ds)%nat eqn:Hlen; [|now left].
  right. exists pre, ds, post.
  destruct (search_subseconds_sound s pre ds post Hs) as [Heq [Hds Hpost]].
  split; [exact Heq | split; [exact Hds | split; [|split; [exact Hpost | reflexivity]]]].
  now apply Nat.ltb_lt.
Qed.

Example offset_is_not_truncated :
  truncate_subseconds "2020-01-01T00:00:00.1234567+00:00"
  = "2020-01-01T00:00:00.1234567+00:00".
Proof. reflexivity. Qed.

(** * Properties of [GsDataApi] *)

Import GsDataApi.

(** ** Coordinates from strings *)

Lemma rsplit_dot_none (q : string) : has "." q = false -> rsplit_dot q = None.
Proof.
  unfold has. induction q as [|c r IH]; [reflexivity|].
  cbn [Str.existsb rsplit_dot]. intros H. apply Bool.orb_false_iff in H.
  destruct H as [Hc Hr]. now rewrite (IH Hr), Hc.
Qed.

Lemma rsplit_dot_last (x q : string) :
  has "." q = false -> rsplit_dot (x ++ String "." q) = Some (x, q).
Proof.
  intros Hq. induction x as [|c r IH].
  - cbn [append rsplit_dot]. now rewrite (rsplit_dot_none q Hq).
  - cbn [append rsplit_dot]. now rewrite IH.
Qed.

Lemma split_nonempty (sep : ascii) (s : string) : split sep s <> [].
Proof.
  induction s as [|c r IH]; cbn [split]; [discriminate|].
  destruct (Ascii.eqb c sep); [discriminate|].
  destruct (split sep r); [contradiction | discriminate].
Qed.

Lemma split_word (sep : ascii) (s : string) :
  has sep s = false -> split sep s = [s].
Proof.
  unfold has. induction s as [|c r IH]; [reflexivity|].
  cbn [Str.existsb split]. intros H. apply Bool.orb_false_iff in H.
  destruct H as [Hc Hr]. now rewrite Hc, (IH Hr).
Qed.

Lemma split_words (sep : ascii) (s rest : string) :
  has sep s = false ->
  split sep (s ++ String sep rest) = s :: split sep rest.
Proof.
  unfold has. induction s as [|c r IH]; intros H.
  - cbn [append split]. now rewrite Ascii.eqb_refl.
  - cbn [Str.existsb] in H. apply Bool.orb_false_iff in H. destruct H as [Hc Hr].
    cbn [append split]. now rewrite Hc, (IH Hr).
Qed.

Lemma split_concat (sep : ascii) (ds : list string) :
  ds <> [] ->
  Forall (fun s => has sep s = false) ds ->
  split sep (String.concat (String sep EmptyString) ds) = ds.
Proof.
  intros Hne Hall. induction Hall as [|s r Hs Hr IH]; [contradiction|].
  destruct r as [|s' r'].
  - cbn [String.concat]. now apply split_word.
  - change (String.concat (String sep EmptyString) (s :: s' :: r'))
      with (s ++ String sep (String.concat (String sep EmptyString) (s' :: r')))%string.
    rewrite (split_words sep s _ Hs). f_equal. apply IH. discriminate.
Qed.

Lemma split_length (sep : ascii) (s : string) :
  (length (split sep s) <? 2)%nat = negb (has sep s).
Proof.
  unfold has. induction s as [|c r IH]; [reflexivity|].
  cbn [split Str.existsb].
  destruct (Ascii.eqb c sep); cbn [orb negb].
  - pose proof (split_nonempty sep r) as Hne.
    destruct (split sep r); [contradiction | reflexivity].
  - pose proof (split_nonempty sep r) as Hne.
    destruct (split sep r) as [|w ws]; [contradiction | exact IH].
Qed.

Lemma coordinate_kwargs_parsed (mkt_type mkt_asset : string) (more : list string)
  (style : string) :
  Forall (fun s => has "_" s = false) (mkt_type :: mkt_asset :: more) ->
  has "." style = false ->
  _coordinate_kwargs
    (String.concat "_" (mkt_type :: mkt_asset :: more) ++ String "." style)
  = Done ([ ("mkt_type", VStr mkt_type);
            ("mkt_asset", or_None mkt_asset);
            ("mkt_quoting_style", VStr style) ]
          ++ match more with
             | [] => []
             | mkt_class :: mkt_point =>
                 ("mkt_class", or_None mkt_class)
                 :: match mkt_point with
                    | [] => []
                    | _ :: _ => [("mkt_point", VTuple (List.map VStr mkt_point))]
                    end
             end).
Proof.
  intros Hdims Hstyle.
  unfold _coordinate_kwargs, rsplit1.
  rewrite (rsplit_dot_last _ style Hstyle). cbn [List.hd].
  rewrite (split_concat "_" (mkt_type :: mkt_asset :: more)); [|discriminate | exact Hdims].
  destruct more as [|c [|p ps]]; reflexivity.
Qed.

(** X21: [_coordinate_from_str] reads a coordinate written as its
    dimensions joined by underscores, then a dot and the quoting style: it
    constructs the coordinate whose market type is the first dimension,
    whose asset is the second, whose class is the third (if any) and whose
    point is the tuple of the remaining ones (if any); an empty asset or
    class is [None].  The dimensions hold no underscore and the quoting
    style no dot (a dimension may hold dots: the string is cut at its last
    dot). *)
Theorem coordinate_from_str_parses :
  forall (MarketDataCoordinate : class_decl) (mkt_type mkt_asset : string)
         (more : list string) (style : string),
    Forall (fun s => has "_" s = false) (mkt_type :: mkt_asset :: more) ->
    has "." style = false ->
    _coordinate_from_str MarketDataCoordinate
      (String.concat "_" (mkt_type :: mkt_asset :: more) ++ String "." style)
    = of_outcome
        (BaseMeta__call__ MarketDataCoordinate
           ([ ("mkt_type", VStr mkt_type);
              ("mkt_asset", or_None mkt_asset);
              ("mkt_quoting_style", VStr style) ]
            ++ match more with
               | [] => []
               | mkt_class :: mkt_point =>
                   ("mkt_class", or_None mkt_class)
                   :: match mkt_point with
                      | [] => []
                      | _ :: _ => [("mkt_point", VTuple (List.map VStr mkt_point))]
                      end
               end)).
Proof.
  intros MDC mkt_type mkt_asset more style Hdims Hstyle.
  unfold _coordinate_from_str.
  now rewrite (coordinate_kwargs_parsed mkt_type mkt_asset more style Hdims Hstyle).
Qed.

Lemma coordinate_from_str_parses_witness :
  _coordinate_from_str Coordinate "IR_USD_SWAP_2Y.ATMRate"
  = Done (VObj "MarketDataCoordinate"
            [ ("mkt_asset", VStr "USD"); ("mkt_class", VStr "SWAP");
              ("mkt_point", VTuple [VStr "2Y"]); ("mkt_quoting_style", VStr "ATMRate");
              ("mkt_type", VStr "IR") ] None).
Proof.
  apply (coordinate_from_str_parses Coordinate "IR" "USD" ["SWAP"; "2Y"] "ATMRate").
  - repeat constructor.
  - reflexivity.
Defined.

(** X22: [_coordinate_from_str] raises [MqValueError('invalid coordinate
    ...')] exactly when what stands before the last dot of the string (the
    whole string, when it has no dot) holds no underscore; an underscore
    after the last dot does not count. *)
Theorem coordinate_from_str_invalid :
  forall (MarketDataCoordinate : class_decl) (s : string),
    _coordinate_from_str MarketDataCoordinate s
    = Fail (MqValueError ("invalid coordinate " ++ s))
    <-> has "_" (List.hd EmptyString (rsplit1 s)) = false.
Proof.
  intros MDC s. unfold _coordinate_from_str, _coordinate_kwargs.
  rewrite split_length.
  destruct (has "_" (List.hd EmptyString (rsplit1 s))); cbn [negb rbind].
  - split; [|discriminate].
    destruct (BaseMeta__call__ MDC _); cbn [of_outcome]; discriminate.
  - split; reflexivity.
Qed.

Example coordinate_without_asset_is_invalid :
  forall MarketDataCoordinate,
    _coordinate_from_str MarketDataCoordinate "IR.USD_SWAP"
    = Fail (MqValueError "invalid coordinate IR.USD_SWAP").
Proof. reflexivity. Qed.

(** ** Rows of coordinate data *)






(** ** The order of the columns *)

Lemma mem_app (s : string) (l l' : list string) : mem s (l ++ l') = mem s l || mem s l'.
Proof. unfold mem. apply List.existsb_app. Qed.

Lemma field_order_extend (columns : list string) :
  NoDup columns ->
  forall order,
    fold_left (fun order f => if mem f order then order else order ++ [f]) columns order
    = order ++ List.filter (fun f => negb (mem f order)) columns.
Proof.
  induction 1 as [|f r Hf Hr IH]; intros order; cbn [fold_left List.filter].
  - now rewrite List.app_nil_r.
  - destruct (mem f order) eqn:Hm; cbn [negb]; [apply IH|].
    rewrite IH, <- List.app_assoc. cbn [List.app]. do 2 f_equal.
    apply List.filter_ext_in. intros x Hx. rewrite mem_app. cbn [mem List.existsb].
    destruct (String.eqb x f) eqn:He.
    + apply String.eqb_eq in He. subst x. contradiction.
    + now rewrite !Bool.orb_false_r.
Qed.

Lemma field_order_closed (by_ columns : list string) :
  NoDup columns ->
  field_order by_ columns
  = List.filter (fun f => mem f columns) by_
    ++ List.filter (fun f => negb (mem f by_)) columns.
Proof.
  intros Hnd. unfold field_order. rewrite (field_order_extend columns Hnd). f_equal.
  apply List.filter_ext_in. intros x Hx. f_equal.
  destruct (mem x by_) eqn:Hb.
  - apply mem_In. apply List.filter_In. split; [now apply mem_In | now apply mem_In].
  - destruct (mem x (List.filter (fun f => mem f columns) by_)) eqn:Hm; [|reflexivity].
    apply mem_In, List.filter_In in Hm. destruct Hm as [Hin _].
    apply mem_In in Hin. congruence.
Qed.

Lemma filter_label_absent {A} (l : string) (df : list (string * A)) :
  ~ In l (keys df) -> List.filter (fun col => String.eqb (fst col) l) df = [].
Proof.
  induction df as [|[k a] r IH]; intros Hl; [reflexivity|].
  cbn [List.filter fst]. destruct (String.eqb k l) eqn:He.
  - apply String.eqb_eq in He. exfalso. apply Hl. now left.
  - apply IH. intros Hin. apply Hl. now right.
Qed.

Lemma flat_map_ext_in {A B} (f g : A -> list B) (l : list A) :
  (forall a, In a l -> f a = g a) -> List.flat_map f l = List.flat_map g l.
Proof.
  induction l as [|a r IH]; intros Hfg; [reflexivity|].
  cbn [List.flat_map]. rewrite (Hfg a (or_introl eq_refl)), IH; [reflexivity|].
  intros x Hx. apply Hfg. now right.
Qed.

Lemma select_all {A} (df : list (string * A)) :
  NoDup (keys df) -> select (keys df) df = df.
Proof.
  unfold select. induction df as [|[k a] r IH]; intros Hnd; [reflexivity|].
  cbn [keys List.map fst] in Hnd. inversion Hnd as [|? ? Hk Hr]; subst.
  cbn [keys List.map fst List.flat_map List.filter]. rewrite String.eqb_refl.
  rewrite (filter_label_absent k r Hk). cbn [List.app]. f_equal.
  rewrite <- (IH Hr) at 2. apply flat_map_ext_in.
  intros l Hl. cbn [List.filter fst].
  destruct (String.eqb k l) eqn:He; [|reflexivity].
  apply String.eqb_eq in He. subst l. contradiction.
Qed.

(** X24: [_sort_coordinate_data] only reorders the columns: on a frame
    whose labels are distinct the result holds the same columns, none lost
    and none twice; the labels named in [by] come first, in the order of
    [by], and the others follow in the order they had. *)
Theorem sorted_columns_are_a_permutation :
  forall (A : Type) (df : list (string * A)) (by_ : list string),
    NoDup (keys df) ->
    NoDup by_ ->
    keys (_sort_coordinate_data df by_)
    = List.filter (fun f => mem f (keys df)) by_
      ++ List.filter (fun f => negb (mem f by_)) (keys df)
    /\ Permutation (_sort_coordinate_data df by_) df.
Proof.
  intros A df by_ Hdf Hby.
  assert (Hperm : Permutation (field_order by_ (keys df)) (keys df)).
  { rewrite (field_order_closed by_ (keys df) Hdf).
    apply NoDup_Permutation; [|exact Hdf|].
    - apply List.NoDup_app; try now apply List.NoDup_filter.
      intros a Ha Hb. apply List.filter_In in Ha, Hb.
      destruct Ha as [Ha _], Hb as [_ Hb]. apply mem_In in Ha. now rewrite Ha in Hb.
    - intros x. rewrite List.in_app_iff, !List.filter_In. split.
      + intros [[_ Hx] | [Hx _]]; [now apply mem_In | exact Hx].
      + intros Hx. destruct (mem x by_) eqn:Hb.
        * left. split; [now apply mem_In | now apply mem_In].
        * right. now split. }
  assert (Hsorted : Permutation (_sort_coordinate_data df by_) df).
  { unfold _sort_coordinate_data.
    apply Permutation_trans with (select (keys df) df).
    - unfold select. now apply Permutation_flat_map.
    - now rewrite (select_all df Hdf). }
  split; [|exact Hsorted].
  unfold _sort_coordinate_data.
  rewrite <- (field_order_closed by_ (keys df) Hdf).
  generalize (field_order by_ (keys df)) (Permutation_sym Hperm).
  intros labels Hlabels.
  assert (Hin : forall l, In l labels -> In l (keys df))
    by (intros l Hl; eapply Permutation_in; [apply Permutation_sym; exact Hlabels | exact Hl]).
  clear Hlabels Hperm Hsorted.
  induction labels as [|l r IH]; [reflexivity|].
  unfold select in *. cbn [List.flat_map]. rewrite keys_app.
  rewrite IH by (intros x Hx; apply Hin; now right). clear IH.
  assert (Hl : In l (keys df)) by (apply Hin; now left).
  replace (keys (List.filter (fun col => String.eqb (fst col) l) df)) with [l];
    [reflexivity|].
  clear Hin. induction df as [|[k a] d IH]; [contradiction|].
  cbn [keys List.map fst] in Hdf. inversion Hdf as [|? ? Hk Hd]; subst.
  cbn [List.filter fst]. destruct (String.eqb k l) eqn:He.
  - apply String.eqb_eq in He. subst k.
    now rewrite (filter_label_absent l d Hk).
  - apply IH; [exact Hd|]. destruct Hl as [Hl | Hl]; [|exact Hl].
    cbn [fst] in Hl. subst k. now rewrite String.eqb_refl in He.
Qed.

Lemma sorted_columns_are_a_permutation_witness :
  _sort_coordinate_data
    [("value", [1; 2]); ("mktAsset", [3; 4]); ("source", [5; 6]); ("date", [7; 8])]
    default_by
  = [("date", [7; 8]); ("mktAsset", [3; 4]); ("value", [1; 2]); ("source", [5; 6])]
  /\ Permutation
       (_sort_coordinate_data
          [("value", [1; 2]); ("mktAsset", [3; 4]); ("source", [5; 6]); ("date", [7; 8])]
          default_by)
       [("value", [1; 2]); ("mktAsset", [3; 4]); ("source", [5; 6]); ("date", [7; 8])].
Proof.
  split; [reflexivity|].
  apply (sorted_columns_are_a_permutation (list nat)).
  - repeat constructor; simpl; intuition discriminate.
  - repeat constructor; simpl; intuition discriminate.
Defined.

(** ** The cache of dataset definitions *)

(** X25: [get_definition] caches what it fetches.  When it returns a
    definition, that definition is not falsy, a second call returns it
    with no request to the session (whatever the session would answer) and
    leaves the cache as it is, and the entries of the other datasets are
    untouched; when the dataset is unknown it raises [MqValueError] and
    caches nothing. *)
Theorem definition_is_cached :
  forall (fetch : string -> value) (definitions : dict) (dataset_id : string),
    (forall definition definitions',
        get_definition fetch definitions dataset_id = (Done definition, definitions') ->
        truthy definition = true
        /\ (forall fetch',
              get_definition fetch' definitions' dataset_id = (Done definition, definitions'))
        /\ (forall other, other <> dataset_id ->
              assoc other definitions' = assoc other definitions))
    /\ (forall e definitions',
          get_definition fetch definitions dataset_id = (Fail e, definitions') ->
          e = MqValueError ("Unknown dataset " ++ dataset_id)
          /\ definitions' = definitions).
Proof.
  intros fetch definitions dataset_id. split.
  - intros definition definitions' Hget. unfold get_definition in Hget.
    destruct (truthy (dict_get dataset_id definitions VNone)) eqn:Hcached; cbn [negb] in Hget.
    + inversion Hget; subst. split; [exact Hcached | split].
      * intros fetch'. unfold get_definition. now rewrite Hcached.
      * reflexivity.
    + remember (fetch ("/data/datasets/" ++ dataset_id)%string) as fetched.
      destruct (truthy fetched) eqn:Hfetched; cbn [negb] in Hget; [|discriminate].
      injection Hget as <- <-. split; [exact Hfetched | split].
      * intros fetch'. unfold get_definition, dict_get.
        rewrite assoc_dict_set_same. cbn beta iota. now rewrite Hfetched.
      * intros other Hother. now apply assoc_dict_set_other.
  - intros e definitions' Hget. unfold get_definition in Hget.
    destruct (truthy (dict_get dataset_id definitions VNone)); cbn [negb] in Hget;
      [discriminate|].
    destruct (truthy (fetch ("/data/datasets/" ++ dataset_id)%string)); cbn [negb] in Hget;
      [discriminate|].
    inversion Hget; subst. now split.
Qed.

(** ** Paging through the coverage of a dataset *)

Lemma coverage_limit_truthy (scroll scroll_id limit offset fields : value) :
  truthy (snd (coverage_params scroll scroll_id limit offset fields)) = true.
Proof.
  unfold coverage_params. cbn [snd].
  destruct (truthy limit) eqn:Hl; cbn [negb]; [exact Hl | reflexivity].
Qed.

Lemma coverage_params_next (id : string) (limit : value) :
  id <> EmptyString ->
  truthy limit = true ->
  coverage_params DEFAULT_SCROLL (VStr id) limit VNone VNone
  = ([("scroll", DEFAULT_SCROLL); ("scrollId", VStr id); ("limit", limit)], limit).
Proof.
  intros Hid Hl. unfold coverage_params. cbn [truthy DEFAULT_SCROLL].
  rewrite Hl. cbn [negb].
  destruct (String.eqb id EmptyString) eqn:He; [apply String.eqb_eq in He; contradiction|].
  reflexivity.
Qed.

(** X26: [get_coverage] pages through the coverage.  When the session
    answers with pages that each hold results and a scroll id, and then
    with a page that has no scroll id, the call returns the results of all
    the pages, in order, in one list.  The first request carries the
    parameters given ([limit] being 4000 when none is given); each later
    request carries the default scroll, the scroll id of the page before
    and that same limit, and neither [offset] nor [fields]. *)
Theorem coverage_is_the_concatenation_of_the_pages :
  forall (pages : list (list value * string)) (last : list value)
         (dataset_id : string) (scroll scroll_id limit offset fields : value),
    Forall (fun page => fst page <> [] /\ snd page <> EmptyString) pages ->
    get_coverage (List.map page_body pages ++ [last_body last]) dataset_id
                 scroll scroll_id limit offset fields
    = (Some (Done (VList (List.concat (List.map fst pages) ++ last))),
       (coverage_path dataset_id,
        fst (coverage_params scroll scroll_id limit offset fields))
       :: List.map
            (fun page =>
               (coverage_path dataset_id,
                [ ("scroll", DEFAULT_SCROLL); ("scrollId", VStr (snd page));
                  ("limit", snd (coverage_params scroll scroll_id limit offset fields)) ]))
            pages).
Proof.
  intros pages last dataset_id.
  induction pages as [|[page id] rest IH];
    intros scroll scroll_id limit offset fields Hpages.
  - cbn [List.map List.app get_coverage last_body].
    destruct (coverage_params scroll scroll_id limit offset fields) as [params limit'].
    cbn [assoc String.eqb Ascii.eqb Bool.eqb len is_some andb fst snd List.concat List.app].
    rewrite Bool.andb_false_r. reflexivity.
  - inversion Hpages as [|? ? [Hpage Hid] Hrest]; subst. cbn [fst snd] in Hpage, Hid.
    pose proof (coverage_limit_truthy scroll scroll_id limit offset fields) as Hlimit.
    cbn [List.map List.app get_coverage page_body fst snd].
    destruct (coverage_params scroll scroll_id limit offset fields) as [params limit']
      eqn:Hparams.
    cbn [fst snd] in Hlimit |- *.
    cbn [assoc String.eqb Ascii.eqb Bool.eqb len is_some dict_get].
    destruct page as [|x page]; [contradiction|].
    cbn [length Nat.ltb Nat.leb andb].
    rewrite (IH DEFAULT_SCROLL (VStr id) limit' VNone VNone Hrest).
    rewrite (coverage_params_next id limit' Hid Hlimit).
    cbn [fst snd add of_outcome List.concat List.map List.app].
    rewrite <- List.app_assoc. reflexivity.
Qed.

Lemma coverage_is_the_concatenation_of_the_pages_witness :
  get_coverage
    [ VDict [("results", VList [VStr "a"; VStr "b"]); ("scrollId", VStr "s1")];
      VDict [("results", VList [VStr "c"])] ]
    "WEATHER" DEFAULT_SCROLL VNone VNone (VInt 10) (VList [VStr "city"])
  = (Some (Done (VList [VStr "a"; VStr "b"; VStr "c"])),
     [ ("/data/WEATHER/coverage",
        [("scroll", VStr "30s"); ("limit", VInt 4000); ("offset", VInt 10);
         ("fields", VList [VStr "city"])]);
       ("/data/WEATHER/coverage",
        [("scroll", VStr "30s"); ("scrollId", VStr "s1"); ("limit", VInt 4000)]) ]).
Proof.
  apply (coverage_is_the_concatenation_of_the_pages
           [([VStr "a"; VStr "b"], "s1")] [VStr "c"] "WEATHER"
           DEFAULT_SCROLL VNone VNone (VInt 10) (VList [VStr "city"])).
  repeat constructor; discriminate.
Defined.
